(** * V4L2 capture example (examples/ccapture/capture.c)

    A shallow embedding of the capture program and its properties.

    The program talks to its environment (the kernel, the V4L2 driver and
    libc) through calls whose answers it cannot predict.  The embedding
    makes that explicit: a [state] holds the program's global variables,
    [errno], the answers the environment will give to the next calls (the
    [script]) and the record of everything the process has done so far (the
    [trace], newest event first).  Every C function becomes a function of
    the monad [M], which threads the state and stops at [exit], at a failed
    [assert], at an out-of-bounds array access, or when the script has no
    further answer. *)

From Stdlib Require Import ZArith String Ascii List Lia Bool.
From stdpp Require Import base tactics option list gmap.

Set Warnings "-clear-no-such-hyp".

Local Open Scope string_scope.
Local Open Scope list_scope.
Local Open Scope Z_scope.

(** ** Constants of the C library and of the kernel headers

    None of these is defined in capture.c; the values are those of Linux
    (asm-generic/errno-base.h, stdlib.h, sys/mman.h, fcntl.h,
    linux/videodev2.h) on an LP64 platform. *)

Definition EXIT_SUCCESS : Z := 0.
Definition EXIT_FAILURE : Z := 1.

Definition EINTR  : Z := 4.
Definition EIO    : Z := 5.
Definition EAGAIN : Z := 11.
Definition EINVAL : Z := 22.

Definition O_RDWR     : Z := 2.
Definition O_NONBLOCK : Z := 2048.
Definition S_IFMT     : Z := 61440.   (* 0170000 *)
Definition S_IFCHR    : Z := 8192.    (* 0020000 *)
Definition S_ISCHR (m : Z) : bool := Z.land m S_IFMT =? S_IFCHR.

Definition PROT_READ  : Z := 1.
Definition PROT_WRITE : Z := 2.
Definition MAP_SHARED : Z := 1.
Definition MAP_FAILED : Z := -1.
Definition NULL       : Z := 0.

Definition V4L2_BUF_TYPE_VIDEO_CAPTURE : Z := 1.
Definition V4L2_MEMORY_MMAP            : Z := 1.
Definition V4L2_CAP_VIDEO_CAPTURE      : Z := 1.
Definition V4L2_CAP_STREAMING          : Z := 67108864.   (* 0x04000000 *)
Definition V4L2_PIX_FMT_YUYV           : Z := 1448695129. (* 'Y','U','Y','V' *)
Definition V4L2_FIELD_INTERLACED       : Z := 4.

(** sizeof(struct buffer): a pointer and a size_t. *)
Definition sizeof_buffer : Z := 16.

(** Conversions of C's fixed-width integers, wrap-around written out. *)
Definition to_uint (x : Z) : Z := x mod 2 ^ 32.
Definition to_int (x : Z) : Z := (x + 2 ^ 31) mod 2 ^ 32 - 2 ^ 31.
Definition to_size_t (x : Z) : Z := x mod 2 ^ 64.

(** ** Data *)

(** enum io_method *)
Inductive io_method := IO_METHOD_MMAP.

(** struct buffer *)
Record buffer := { start : Z; len : Z }.

(** The ioctl requests the program issues. *)
Inductive vidioc :=
| VIDIOC_QUERYCAP | VIDIOC_CROPCAP | VIDIOC_S_CROP | VIDIOC_G_FMT
| VIDIOC_S_FMT | VIDIOC_REQBUFS | VIDIOC_QUERYBUF | VIDIOC_QBUF
| VIDIOC_DQBUF | VIDIOC_STREAMON | VIDIOC_STREAMOFF.

Global Instance vidioc_eq_dec : EqDecision vidioc.
Proof. solve_decision. Defined.

(** The fields of the kernel structures that the program reads or writes. *)
Record v4l2_rect := { r_left : Z; r_top : Z; r_width : Z; r_height : Z }.

Record v4l2_buffer := {
  buf_index : Z; buf_type : Z; buf_bytesused : Z;
  buf_memory : Z; buf_offset : Z; buf_length : Z }.

Record v4l2_requestbuffers := { req_count : Z; req_type : Z; req_memory : Z }.

Record v4l2_format := {
  fmt_type : Z; pix_width : Z; pix_height : Z;
  pix_pixelformat : Z; pix_field : Z }.

Inductive ioctl_arg :=
| arg_capability (capabilities : Z)
| arg_cropcap (type : Z) (defrect : v4l2_rect)
| arg_crop (type : Z) (c : v4l2_rect)
| arg_format (fmt : v4l2_format)
| arg_requestbuffers (req : v4l2_requestbuffers)
| arg_buffer (buf : v4l2_buffer)
| arg_buf_type (type : Z).

(** CLEAR(x) *)
Definition clear_rect : v4l2_rect := {| r_left := 0; r_top := 0; r_width := 0; r_height := 0 |}.
Definition clear_buffer : v4l2_buffer :=
  {| buf_index := 0; buf_type := 0; buf_bytesused := 0;
     buf_memory := 0; buf_offset := 0; buf_length := 0 |}.
Definition clear_format : v4l2_format :=
  {| fmt_type := 0; pix_width := 0; pix_height := 0; pix_pixelformat := 0; pix_field := 0 |}.

(** ** The environment *)

(** What a call leaves in the caller's memory besides its return value. *)
Inductive payload :=
| no_payload
| wrote (a : ioctl_arg)          (* ioctl filled the structure behind arg *)
| wrote_stat (st_mode : Z)       (* stat filled st.st_mode *)
| wrote_optarg (s : string).     (* getopt_long set optarg *)

(** The environment's answer to one call: the return value, the value it
    stores in errno (0: errno is left as it is; no library function ever
    stores 0 there) and what it wrote back. *)
Record reply := { r_ret : Z; r_errno : Z; r_out : payload }.

Inductive call :=
| call_getopt_long (argv : list string) (optstring : string)
    (longopts : list (string * bool * Z))
| call_strtol (nptr : string) (base : Z)
| call_stat (path : string)
| call_open (path : string) (flags mode : Z)
| call_close (fd : Z)
| call_ioctl (fd : Z) (request : vidioc) (arg : ioctl_arg)
| call_select (nfds : Z) (readfd : Z) (tv_sec tv_usec : Z)
| call_calloc (nmemb size : Z)
| call_mmap (length prot flags fd offset : Z)
| call_munmap (addr length : Z).

Inductive stream := stdout | stderr.

Inductive fmt_arg := fmt_s (s : string) | fmt_d (n : Z) | fmt_strerror (e : Z).

(** What the process has done: calls together with the answer they got,
    and the output actions whose result the program never looks at. *)
Inductive event :=
| Call (c : call) (r : reply)
| Fprintf (fp : stream) (format : string) (args : list fmt_arg)
| Fwrite (p : Z) (size : Z)
| Fflush (fp : stream)
| Free (p : Z).

(** ** Program state *)

Record globals := {
  dev_name : string;
  io : io_method;
  fd : Z;
  buffers : Z;                  (* the pointer returned by calloc *)
  buffers_mem : list buffer;    (* the array it points to *)
  n_buffers : Z;
  out_buf : Z;
  force_format : Z;
  frame_count : Z }.

Record state := {
  glob : globals;
  errno : Z;
  script : list reply;
  trace : list event }.

(** The static initialisers of capture.c. *)
Definition initial_globals : globals :=
  {| dev_name := ""; io := IO_METHOD_MMAP; fd := -1; buffers := NULL;
     buffers_mem := []; n_buffers := 0; out_buf := 0; force_format := 0;
     frame_count := 70 |}.

Definition initial_state (answers : list reply) : state :=
  {| glob := initial_globals; errno := 0; script := answers; trace := [] |}.

Definition set_dev_name (v : string) (g : globals) : globals :=
  {| dev_name := v; io := io g; fd := fd g; buffers := buffers g;
     buffers_mem := buffers_mem g; n_buffers := n_buffers g; out_buf := out_buf g;
     force_format := force_format g; frame_count := frame_count g |}.
Definition set_fd (v : Z) (g : globals) : globals :=
  {| dev_name := dev_name g; io := io g; fd := v; buffers := buffers g;
     buffers_mem := buffers_mem g; n_buffers := n_buffers g; out_buf := out_buf g;
     force_format := force_format g; frame_count := frame_count g |}.
Definition set_buffers (p : Z) (mem : list buffer) (g : globals) : globals :=
  {| dev_name := dev_name g; io := io g; fd := fd g; buffers := p;
     buffers_mem := mem; n_buffers := n_buffers g; out_buf := out_buf g;
     force_format := force_format g; frame_count := frame_count g |}.
Definition set_n_buffers (v : Z) (g : globals) : globals :=
  {| dev_name := dev_name g; io := io g; fd := fd g; buffers := buffers g;
     buffers_mem := buffers_mem g; n_buffers := v; out_buf := out_buf g;
     force_format := force_format g; frame_count := frame_count g |}.
Definition set_out_buf (v : Z) (g : globals) : globals :=
  {| dev_name := dev_name g; io := io g; fd := fd g; buffers := buffers g;
     buffers_mem := buffers_mem g; n_buffers := n_buffers g; out_buf := v;
     force_format := force_format g; frame_count := frame_count g |}.
Definition set_frame_count (v : Z) (g : globals) : globals :=
  {| dev_name := dev_name g; io := io g; fd := fd g; buffers := buffers g;
     buffers_mem := buffers_mem g; n_buffers := n_buffers g; out_buf := out_buf g;
     force_format := force_format g; frame_count := v |}.

Definition with_glob (g : globals) (s : state) : state :=
  {| glob := g; errno := errno s; script := script s; trace := trace s |}.
Definition with_errno (e : Z) (s : state) : state :=
  {| glob := glob s; errno := e; script := script s; trace := trace s |}.
Definition log (e : event) (s : state) : state :=
  {| glob := glob s; errno := errno s; script := script s; trace := e :: trace s |}.

(** The state after the environment answered [c] with [r]. *)
Definition answered (c : call) (r : reply) (rest : list reply) (s : state) : state :=
  {| glob := glob s;
     errno := if r_errno r =? 0 then errno s else r_errno r;
     script := rest;
     trace := Call c r :: trace s |}.

(** ** The monad *)

(** Why a run stopped before the function returned. *)
Inductive halt :=
| exited (code : Z)     (* exit(code) *)
| aborted               (* a failed assert: abort() *)
| out_of_bounds         (* an array access outside the array: undefined behaviour *)
| blocked.              (* the script holds no answer to the call being made *)

Inductive result (A : Type) :=
| Ret (a : A) (s : state)
| Halt (h : halt) (s : state).
Arguments Ret {A} a s.
Arguments Halt {A} h s.

Definition M (A : Type) : Type := state -> result A.

Definition ret {A} (a : A) : M A := fun s => Ret a s.

Definition bind {A B} (m : M A) (k : A -> M B) : M B :=
  fun s => match m s with
           | Ret a s' => k a s'
           | Halt h s' => Halt h s'
           end.

Declare Scope prog_scope.
Delimit Scope prog_scope with prog.
Notation "'let*' x ':=' m 'in' k" := (bind m (fun x => k))
  (at level 10, x pattern, m at level 100, k at level 200,
   format "'[v' 'let*'  x  ':='  m  'in' '/' k ']'") : prog_scope.
Notation "m ;; k" := (bind m (fun _ => k))
  (at level 100, k at level 200, right associativity) : prog_scope.
Local Open Scope prog_scope.

Definition final_state {A} (r : result A) : state :=
  match r with Ret _ s => s | Halt _ s => s end.

Definition stop {A} (h : halt) : M A := fun s => Halt h s.
Definition exit {A} (code : Z) : M A := stop (exited code).

Definition get_glob : M globals := fun s => Ret (glob s) s.
Definition update_glob (f : globals -> globals) : M unit :=
  fun s => Ret tt (with_glob (f (glob s)) s).
Definition get_errno : M Z := fun s => Ret (errno s) s.
Definition set_errno (e : Z) : M unit := fun s => Ret tt (with_errno e s).

(** An output action. *)
Definition emit (e : event) : M unit := fun s => Ret tt (log e s).

(** A call to the environment: the next answer of the script. *)
Definition sys (c : call) : M reply :=
  fun s => match script s with
           | [] => Halt blocked s
           | r :: rest => Ret r (answered c r rest s)
           end.

(** A C loop.  [body a] runs one iteration from loop state [a] and says
    whether the loop goes round again ([inl]) or is left ([inr]).  Every
    iteration that goes round again has made at least one call to the
    environment, so a loop started with more fuel than the script has
    answers never runs out of it (see [loop_unfold]). *)
Fixpoint loop_fuel {A B} (fuel : nat) (body : A -> M (A + B)) (a : A) : M B :=
  fun s =>
    match fuel with
    | O => Halt blocked s
    | S fuel' =>
        match body a s with
        | Ret (inl a') s' => loop_fuel fuel' body a' s'
        | Ret (inr b) s' => Ret b s'
        | Halt h s' => Halt h s'
        end
    end.

Definition loop {A B} (body : A -> M (A + B)) (a : A) : M B :=
  fun s => loop_fuel (S (length (script s))) body a s.

Definition continue {A B} (a : A) : M (A + B) := ret (inl a).
Definition break {A B} (b : B) : M (A + B) := ret (inr b).

(** ** Calls use up the script *)

(** [m] never puts answers back into the script. *)
Definition shrinks {A} (m : M A) : Prop :=
  forall s, (length (script (final_state (m s))) <= length (script s))%nat.

(** [m] returns only after at least one call was answered. *)
Definition consumes {A} (m : M A) : Prop :=
  forall s a s', m s = Ret a s' -> (length (script s') < length (script s))%nat.

(** An iteration of [body] that goes round again has used an answer. *)
Definition progresses {A B} (body : A -> M (A + B)) : Prop :=
  forall a s a' s', body a s = Ret (inl a') s' ->
    (length (script s') < length (script s))%nat.

(** ** The program *)

Definition chr (c : Ascii.ascii) : Z := Z.of_N (Ascii.N_of_ascii c).

(** static void errno_exit(const char *s) *)
Definition errno_exit {A} (s : string) : M A :=
  let* e := get_errno in
  emit (Fprintf stderr "%s error %d, %s\n" [fmt_s s; fmt_d e; fmt_strerror e]);;
  exit EXIT_FAILURE.

(** The fields of the kernel's structures are 32 bits wide (__u32, and
    __s32 for the corner of a rectangle): whatever the environment stores
    in one is reduced to that width. *)
Definition wrap_rect (r : v4l2_rect) : v4l2_rect :=
  {| r_left := to_int (r_left r); r_top := to_int (r_top r);
     r_width := to_uint (r_width r); r_height := to_uint (r_height r) |}.
Definition wrap_buffer (b : v4l2_buffer) : v4l2_buffer :=
  {| buf_index := to_uint (buf_index b); buf_type := to_uint (buf_type b);
     buf_bytesused := to_uint (buf_bytesused b); buf_memory := to_uint (buf_memory b);
     buf_offset := to_uint (buf_offset b); buf_length := to_uint (buf_length b) |}.
Definition wrap_requestbuffers (q : v4l2_requestbuffers) : v4l2_requestbuffers :=
  {| req_count := to_uint (req_count q); req_type := to_uint (req_type q);
     req_memory := to_uint (req_memory q) |}.
Definition wrap_format (f : v4l2_format) : v4l2_format :=
  {| fmt_type := to_uint (fmt_type f); pix_width := to_uint (pix_width f);
     pix_height := to_uint (pix_height f);
     pix_pixelformat := to_uint (pix_pixelformat f); pix_field := to_uint (pix_field f) |}.

(** The structure behind [arg] after the call: when the ioctl succeeds the
    kernel writes back a structure of the type the request takes, or
    nothing; when it fails the structure is as it was. *)
Definition written (r : reply) (arg : ioctl_arg) : ioctl_arg :=
  if r_ret r =? -1 then arg
  else
    match r_out r, arg with
    | wrote (arg_capability c), arg_capability _ => arg_capability (to_uint c)
    | wrote (arg_cropcap t d), arg_cropcap _ _ => arg_cropcap (to_uint t) (wrap_rect d)
    | wrote (arg_crop t c), arg_crop _ _ => arg_crop (to_uint t) (wrap_rect c)
    | wrote (arg_format f), arg_format _ => arg_format (wrap_format f)
    | wrote (arg_requestbuffers q), arg_requestbuffers _ =>
        arg_requestbuffers (wrap_requestbuffers q)
    | wrote (arg_buffer b), arg_buffer _ => arg_buffer (wrap_buffer b)
    | wrote (arg_buf_type t), arg_buf_type _ => arg_buf_type (to_uint t)
    | _, _ => arg
    end.

Definition the_buffer (a : ioctl_arg) (d : v4l2_buffer) : v4l2_buffer :=
  match a with arg_buffer b => b | _ => d end.
Definition the_requestbuffers (a : ioctl_arg) (d : v4l2_requestbuffers) : v4l2_requestbuffers :=
  match a with arg_requestbuffers q => q | _ => d end.
Definition the_capabilities (a : ioctl_arg) (d : Z) : Z :=
  match a with arg_capability c => c | _ => d end.
Definition the_defrect (a : ioctl_arg) (d : v4l2_rect) : v4l2_rect :=
  match a with arg_cropcap _ r => r | _ => d end.

(** A v4l2_buffer as the program prepares it before an ioctl: CLEAR(buf),
    then type, memory and, where the source sets it, index. *)
Definition fresh_buffer (i : Z) : v4l2_buffer :=
  {| buf_index := i; buf_type := V4L2_BUF_TYPE_VIDEO_CAPTURE;
     buf_bytesused := 0; buf_memory := V4L2_MEMORY_MMAP;
     buf_offset := 0; buf_length := 0 |}.

(** static int xioctl(int fh, unsigned long int request, void *arg):
    the do-while loop repeats the ioctl while it fails with EINTR.  The
    result is the return value together with the structure behind arg. *)
Definition xioctl_body (fh : Z) (request : vidioc) (arg : ioctl_arg)
  : M (ioctl_arg + Z * ioctl_arg) :=
  let* r := sys (call_ioctl fh request arg) in
  let* e := get_errno in
  if (r_ret r =? -1) && (e =? EINTR)
  then continue (written r arg)
  else break (r_ret r, written r arg).

Definition xioctl (fh : Z) (request : vidioc) (arg : ioctl_arg) : M (Z * ioctl_arg) :=
  loop (xioctl_body fh request) arg.

(** static void process_image(const void *p, int size) *)
Definition process_image (p : Z) (size : Z) : M unit :=
  let* g := get_glob in
  (if negb (out_buf g =? 0) then emit (Fwrite p (to_size_t size)) else ret tt);;
  emit (Fflush stderr);;
  emit (Fprintf stderr "." []);;
  emit (Fflush stdout).

(** buffers[i], read and written; an index outside the array is undefined
    behaviour in C and stops the model with [out_of_bounds]. *)
Definition load_buffer (i : Z) : M buffer :=
  let* g := get_glob in
  if 0 <=? i then
    match buffers_mem g !! Z.to_nat i with
    | Some b => ret b
    | None => stop out_of_bounds
    end
  else stop out_of_bounds.

Definition store_buffer (i : Z) (f : buffer -> buffer) : M unit :=
  let* b := load_buffer i in
  update_glob (fun g => set_buffers (buffers g) (<[Z.to_nat i := f b]> (buffers_mem g)) g).

(** static int read_frame(void) *)
Definition read_frame : M Z :=
  let* g := get_glob in
  let buf := fresh_buffer 0 in
  let* (r, a) := xioctl (fd g) VIDIOC_DQBUF (arg_buffer buf) in
  let buf := the_buffer a buf in
  if r =? -1 then
    let* e := get_errno in
    if e =? EAGAIN then ret 0                       (* case EAGAIN: return 0; *)
    else if e =? EIO then errno_exit "VIDIOC_DQBUF" (* case EIO: fall through *)
    else errno_exit "VIDIOC_DQBUF"                  (* default: *)
  else
    (* assert(buf.index < n_buffers); *)
    (if buf_index buf <? n_buffers g then ret tt else stop aborted);;
    let* b := load_buffer (buf_index buf) in
    process_image (start b) (to_int (buf_bytesused buf));;
    let* (r, _) := xioctl (fd g) VIDIOC_QBUF (arg_buffer buf) in
    (if r =? -1 then errno_exit "VIDIOC_QBUF" else ret tt);;
    ret 1.

(** The for (;;) loop of mainloop: one readiness wait and one dequeue
    attempt per iteration, left by [break] once a frame has been read. *)
Definition select_body (_ : unit) : M (unit + unit) :=
  let* g := get_glob in
  let* r := sys (call_select (fd g + 1) (fd g) 2 0) in
  if r_ret r =? -1 then
    let* e := get_errno in
    if e =? EINTR then continue tt
    else errno_exit "select"
  else if r_ret r =? 0 then
    emit (Fprintf stderr "select timeout\n" []);;
    exit EXIT_FAILURE
  else
    let* f := read_frame in
    if negb (f =? 0) then break tt
    else continue tt (* EAGAIN - continue select loop. *).

Definition select_loop : M unit := loop select_body tt.

(** static void mainloop(void): [count] is an unsigned int, and
    while (count-- > 0) compares before it decrements. *)
Definition mainloop_body (count : Z) : M (Z + unit) :=
  if count >? 0
  then select_loop;; continue (to_uint (count - 1))
  else break tt.

Definition mainloop : M unit :=
  let* g := get_glob in
  loop mainloop_body (to_uint (frame_count g)).

(** static void stop_capturing(void) *)
Definition stop_capturing : M unit :=
  let* g := get_glob in
  let* (r, _) := xioctl (fd g) VIDIOC_STREAMOFF (arg_buf_type V4L2_BUF_TYPE_VIDEO_CAPTURE) in
  if r =? -1 then errno_exit "VIDIOC_STREAMOFF" else ret tt.

(** static void start_capturing(void) *)
Definition queue_body (i : Z) : M (Z + unit) :=
  let* g := get_glob in
  if i <? n_buffers g then
    let buf := fresh_buffer i in
    let* (r, _) := xioctl (fd g) VIDIOC_QBUF (arg_buffer buf) in
    (if r =? -1 then errno_exit "VIDIOC_QBUF" else ret tt);;
    continue (to_uint (i + 1))
  else break tt.

Definition start_capturing : M unit :=
  loop queue_body 0;;
  let* g := get_glob in
  let* (r, _) := xioctl (fd g) VIDIOC_STREAMON (arg_buf_type V4L2_BUF_TYPE_VIDEO_CAPTURE) in
  if r =? -1 then errno_exit "VIDIOC_STREAMON" else ret tt.

(** static void uninit_device(void) *)
Definition munmap_body (i : Z) : M (Z + unit) :=
  let* g := get_glob in
  if i <? n_buffers g then
    let* b := load_buffer i in
    let* r := sys (call_munmap (start b) (len b)) in
    (if r_ret r =? -1 then errno_exit "munmap" else ret tt);;
    continue (to_uint (i + 1))
  else break tt.

Definition uninit_device : M unit :=
  loop munmap_body 0;;
  let* g := get_glob in
  emit (Free (buffers g)).

(** static void init_mmap(void): the loop variable is the global
    n_buffers; [count] is req.count as the driver left it. *)
Definition map_body (count : Z) (_ : unit) : M (unit + unit) :=
  let* g := get_glob in
  if n_buffers g <? count then
    let buf := fresh_buffer (n_buffers g) in
    let* (r, a) := xioctl (fd g) VIDIOC_QUERYBUF (arg_buffer buf) in
    let buf := the_buffer a buf in
    (if r =? -1 then errno_exit "VIDIOC_QUERYBUF" else ret tt);;
    store_buffer (n_buffers g) (fun b => {| start := start b; len := buf_length buf |});;
    let* p := sys (call_mmap (buf_length buf) (Z.lor PROT_READ PROT_WRITE)
                             MAP_SHARED (fd g) (buf_offset buf)) in
    store_buffer (n_buffers g) (fun b => {| start := r_ret p; len := len b |});;
    let* b := load_buffer (n_buffers g) in
    (if start b =? MAP_FAILED then errno_exit "mmap" else ret tt);;
    update_glob (set_n_buffers (to_uint (n_buffers g + 1)));;
    continue tt
  else break tt.

Definition init_mmap : M unit :=
  let* g := get_glob in
  let req := {| req_count := 4; req_type := V4L2_BUF_TYPE_VIDEO_CAPTURE;
                req_memory := V4L2_MEMORY_MMAP |} in
  let* (r, a) := xioctl (fd g) VIDIOC_REQBUFS (arg_requestbuffers req) in
  let req := the_requestbuffers a req in
  (if r =? -1 then
     let* e := get_errno in
     if e =? EINVAL then
       emit (Fprintf stderr "%s does not support memory mapping\n" [fmt_s (dev_name g)]);;
       exit EXIT_FAILURE
     else errno_exit "VIDIOC_REQBUFS"
   else ret tt);;
  (if req_count req <? 2 then
     emit (Fprintf stderr "Insufficient buffer memory on %s\n" [fmt_s (dev_name g)]);;
     exit EXIT_FAILURE
   else ret tt);;
  let* p := sys (call_calloc (req_count req) sizeof_buffer) in
  update_glob (set_buffers (r_ret p)
    (if r_ret p =? NULL then []
     else replicate (Z.to_nat (req_count req)) {| start := 0; len := 0 |}));;
  (if r_ret p =? NULL then
     emit (Fprintf stderr "Out of memory\n" []);;
     exit EXIT_FAILURE
   else ret tt);;
  update_glob (set_n_buffers 0);;
  loop (map_body (req_count req)) tt.

(** static void init_device(void).  [cap] is not cleared in the source;
    the kernel overwrites it when the query succeeds. *)
Definition init_device : M unit :=
  let* g := get_glob in
  let* (r, a) := xioctl (fd g) VIDIOC_QUERYCAP (arg_capability 0) in
  let capabilities := the_capabilities a 0 in
  (if r =? -1 then
     let* e := get_errno in
     if e =? EINVAL then
       emit (Fprintf stderr "%s is no V4L2 device\n" [fmt_s (dev_name g)]);;
       exit EXIT_FAILURE
     else errno_exit "VIDIOC_QUERYCAP"
   else ret tt);;
  (if Z.land capabilities V4L2_CAP_VIDEO_CAPTURE =? 0 then
     emit (Fprintf stderr "%s is no video capture device\n" [fmt_s (dev_name g)]);;
     exit EXIT_FAILURE
   else ret tt);;
  (if Z.land capabilities V4L2_CAP_STREAMING =? 0 then
     emit (Fprintf stderr "%s does not support streaming i/o\n" [fmt_s (dev_name g)]);;
     exit EXIT_FAILURE
   else ret tt);;
  (* Select video input, video standard and tune here. *)
  let* (r, a) := xioctl (fd g) VIDIOC_CROPCAP
                   (arg_cropcap V4L2_BUF_TYPE_VIDEO_CAPTURE clear_rect) in
  (if r =? 0 then
     let* (r, _) := xioctl (fd g) VIDIOC_S_CROP
                      (arg_crop V4L2_BUF_TYPE_VIDEO_CAPTURE (the_defrect a clear_rect)) in
     if r =? -1 then
       let* e := get_errno in
       if e =? EINVAL then ret tt (* Cropping not supported. *)
       else ret tt                (* Errors ignored. *)
     else ret tt
   else ret tt (* Errors ignored. *));;
  (if negb (force_format g =? 0) then
     let fmt := {| fmt_type := V4L2_BUF_TYPE_VIDEO_CAPTURE; pix_width := 640;
                   pix_height := 480; pix_pixelformat := V4L2_PIX_FMT_YUYV;
                   pix_field := V4L2_FIELD_INTERLACED |} in
     let* (r, _) := xioctl (fd g) VIDIOC_S_FMT (arg_format fmt) in
     if r =? -1 then errno_exit "VIDIOC_S_FMT" else ret tt
     (* Note VIDIOC_S_FMT may change width and height. *)
   else
     (* Preserve original settings as set by v4l2-ctl for example *)
     let fmt := {| fmt_type := V4L2_BUF_TYPE_VIDEO_CAPTURE; pix_width := 0;
                   pix_height := 0; pix_pixelformat := 0; pix_field := 0 |} in
     let* (r, _) := xioctl (fd g) VIDIOC_G_FMT (arg_format fmt) in
     if r =? -1 then errno_exit "VIDIOC_G_FMT" else ret tt);;
  init_mmap.

(** static void close_device(void) *)
Definition close_device : M unit :=
  let* g := get_glob in
  let* r := sys (call_close (fd g)) in
  (if r_ret r =? -1 then errno_exit "close" else ret tt);;
  update_glob (set_fd (-1)).

(** static void open_device(void) *)
Definition open_device : M unit :=
  let* g := get_glob in
  let* r := sys (call_stat (dev_name g)) in
  (if r_ret r =? -1 then
     let* e := get_errno in
     emit (Fprintf stderr "Cannot identify '%s': %d, %s\n"
             [fmt_s (dev_name g); fmt_d e; fmt_strerror e]);;
     exit EXIT_FAILURE
   else ret tt);;
  let st_mode := match r_out r with wrote_stat m => m | _ => 0 end in
  (if negb (S_ISCHR st_mode) then
     emit (Fprintf stderr "%s is no device\n" [fmt_s (dev_name g)]);;
     exit EXIT_FAILURE
   else ret tt);;
  let* r := sys (call_open (dev_name g) (Z.lor O_RDWR O_NONBLOCK) 0) in
  update_glob (set_fd (r_ret r));;
  if r_ret r =? -1 then
    let* e := get_errno in
    emit (Fprintf stderr "Cannot open '%s': %d, %s\n"
            [fmt_s (dev_name g); fmt_d e; fmt_strerror e]);;
    exit EXIT_FAILURE
  else ret tt.

Definition usage_text : string :=
  "Usage: %s [options]\n\nVersion 1.3\nOptions:\n-d | --device name   Video device name [%s]\n-h | --help          Print this message\n-o | --output        Outputs stream to stdout\n-f | --format        Force format to 640x480 YUYV\n-c | --count         Number of frames to grab [%i]\n".

(** static void usage(FILE *fp, int argc, char **argv) *)
Definition usage (fp : stream) (argv : list string) : M unit :=
  let* g := get_glob in
  emit (Fprintf fp usage_text
          [fmt_s (hd "" argv); fmt_s (dev_name g); fmt_d (frame_count g)]).

Definition short_options : string := "d:hmruofc:".

(** long_options: name, whether the option takes an argument, and the
    value getopt_long returns for it (the flag field is NULL throughout). *)
Definition long_options : list (string * bool * Z) :=
  [ ("device", true,  chr "d"%char);
    ("help",   false, chr "h"%char);
    ("mmap",   false, chr "m"%char);
    ("output", false, chr "o"%char);
    ("format", false, chr "f"%char);
    ("count",  true,  chr "c"%char) ].

(** The for (;;) loop of main: one getopt_long call per iteration and the
    switch on its result. *)
Definition getopt_body (argv : list string) (_ : unit) : M (unit + unit) :=
  let* r := sys (call_getopt_long argv short_options long_options) in
  let c := r_ret r in
  let optarg := match r_out r with wrote_optarg s => s | _ => "" end in
  if c =? -1 then break tt
  else if c =? 0 then continue tt   (* getopt_long() flag *)
  else if c =? chr "d"%char then
    update_glob (set_dev_name optarg);; continue tt
  else if c =? chr "h"%char then
    usage stdout argv;; exit EXIT_SUCCESS
  else if c =? chr "o"%char then
    update_glob (fun g => set_out_buf (to_int (out_buf g + 1)) g);; continue tt
  else if c =? chr "c"%char then
    set_errno 0;;
    let* v := sys (call_strtol optarg 0) in
    update_glob (set_frame_count (to_int (r_ret v)));;
    let* e := get_errno in
    if negb (e =? 0) then errno_exit optarg
    else continue tt
  else
    usage stderr argv;; exit EXIT_FAILURE.

Definition parse_options (argv : list string) : M unit := loop (getopt_body argv) tt.

(** int main(int argc, char **argv) *)
Definition main (argv : list string) : M Z :=
  update_glob (set_dev_name "/dev/video0");;
  parse_options argv;;
  open_device;;
  init_device;;
  start_capturing;;
  mainloop;;
  stop_capturing;;
  uninit_device;;
  close_device;;
  emit (Fprintf stderr "\n" []);;
  ret 0.

(** The status with which the process ends, when it ends by returning from
    main or by exit. *)
Definition exit_status (r : result Z) : option Z :=
  match r with
  | Ret v _ => Some v
  | Halt (exited code) _ => Some code
  | Halt _ _ => None
  end.

(** ** Answers of a well-behaved environment

    Shorthands for the replies that the examples and the statements below
    put into scripts. *)

Definition ok (v : Z) : reply := {| r_ret := v; r_errno := 0; r_out := no_payload |}.
Definition fails (e : Z) : reply := {| r_ret := -1; r_errno := e; r_out := no_payload |}.
Definition ok_with (a : ioctl_arg) : reply := {| r_ret := 0; r_errno := 0; r_out := wrote a |}.

(** getopt_long returning option character [c], with its argument. *)
Definition opt (c : ascii) (optarg : string) : reply :=
  {| r_ret := chr c; r_errno := 0; r_out := wrote_optarg optarg |}.
Definition opts_end : reply := ok (-1).

Definition stat_chr : reply := {| r_ret := 0; r_errno := 0; r_out := wrote_stat S_IFCHR |}.

Definition caps_ok : reply :=
  ok_with (arg_capability (Z.lor V4L2_CAP_VIDEO_CAPTURE V4L2_CAP_STREAMING)).

(** VIDIOC_REQBUFS granting [n] buffers. *)
Definition granted (n : Z) : reply :=
  ok_with (arg_requestbuffers {| req_count := n; req_type := V4L2_BUF_TYPE_VIDEO_CAPTURE;
                                 req_memory := V4L2_MEMORY_MMAP |}).

(** VIDIOC_QUERYBUF reporting length and offset of buffer [i]. *)
Definition queried (i length offset : Z) : reply :=
  ok_with (arg_buffer {| buf_index := i; buf_type := V4L2_BUF_TYPE_VIDEO_CAPTURE;
                         buf_bytesused := 0; buf_memory := V4L2_MEMORY_MMAP;
                         buf_offset := offset; buf_length := length |}).

(** VIDIOC_DQBUF handing over buffer [i] filled with [used] bytes. *)
Definition dequeued (i used : Z) : reply :=
  ok_with (arg_buffer {| buf_index := i; buf_type := V4L2_BUF_TYPE_VIDEO_CAPTURE;
                         buf_bytesused := used; buf_memory := V4L2_MEMORY_MMAP;
                         buf_offset := 0; buf_length := 0 |}).

(** select reporting one ready descriptor. *)
Definition ready : reply := ok 1.


(** ** Reading a trace *)

(** Ownership of a buffer passes to the device with a VIDIOC_QBUF that
    succeeds and back to the process with a VIDIOC_DQBUF that succeeds. *)
Inductive transfer := to_device (i : Z) | to_process (i : Z).

Definition transfer_of (e : event) : option transfer :=
  match e with
  | Call (call_ioctl _ VIDIOC_QBUF arg) r =>
      if r_ret r =? -1 then None
      else Some (to_device (buf_index (the_buffer arg clear_buffer)))
  | Call (call_ioctl _ VIDIOC_DQBUF arg) r =>
      if r_ret r =? -1 then None
      else Some (to_process (buf_index (the_buffer (written r arg) clear_buffer)))
  | _ => None
  end.

(** The transfers of a trace, oldest first. *)
Definition traffic (tr : list event) : list transfer :=
  omap transfer_of (rev tr).

(** process_image writes one progress marker to stderr per frame. *)
Definition is_marker (e : event) : bool :=
  match e with
  | Fprintf stderr "." [] => true
  | _ => false
  end.

(** The number of frames handed to process_image. *)
Definition delivered (tr : list event) : nat := length (List.filter is_marker tr).

Definition is_wait (e : event) : bool :=
  match e with Call (call_select _ _ _ _) _ => true | _ => false end.

(** The number of readiness waits. *)
Definition waits (tr : list event) : nat := length (List.filter is_wait tr).

(** ** A cooperative device

    One round of the capture loop as the device sees it: some waits that
    are interrupted or wake the process with nothing to dequeue, then a
    wait after which buffer [frame_index], holding [frame_used] bytes, is
    dequeued and queued again. *)
Inductive hiccup := interrupted | not_ready.

Definition hiccup_script (h : hiccup) : list reply :=
  match h with
  | interrupted => [fails EINTR]
  | not_ready => [ready; fails EAGAIN]
  end.

Record round := { hiccups : list hiccup; frame_index : Z; frame_used : Z }.

Definition round_script (rd : round) : list reply :=
  flat_map hiccup_script (hiccups rd)
    ++ [ready; dequeued (frame_index rd) (frame_used rd); ok 0].

(** The buffer of round [rd] exists in the pool of [g]. *)
Definition round_ok (g : globals) (rd : round) : Prop :=
  0 <= frame_index rd < n_buffers g /\ frame_index rd < 2 ^ 32 /\
  is_Some (buffers_mem g !! Z.to_nat (frame_index rd)).

Definition round_traffic (rd : round) : list transfer :=
  [to_process (frame_index rd); to_device (frame_index rd)].

(** What read_frame does, newest event first, when the dequeue is answered
    by [r], the buffer it names is [b], and the queue by [q]. *)
Definition frame_events (g : globals) (r q : reply) (b : buffer) : list event :=
  let arg := arg_buffer (fresh_buffer 0) in
  let buf := the_buffer (written r arg) (fresh_buffer 0) in
  Call (call_ioctl (fd g) VIDIOC_QBUF (arg_buffer buf)) q ::
  Fflush stdout :: Fprintf stderr "." [] :: Fflush stderr ::
  (if out_buf g =? 0 then []
   else [Fwrite (start b) (to_size_t (to_int (buf_bytesused buf)))]) ++
  [Call (call_ioctl (fd g) VIDIOC_DQBUF arg) r].

(** The readiness wait and the dequeue attempt of the capture loop. *)
Definition wait_call (g : globals) : call := call_select (fd g + 1) (fd g) 2 0.
Definition dequeue_call (g : globals) : call :=
  call_ioctl (fd g) VIDIOC_DQBUF (arg_buffer (fresh_buffer 0)).

(** The events of a round, newest first: the hiccups come first in time,
    so last in the list. *)
Definition hiccup_events (g : globals) (h : hiccup) : list event :=
  match h with
  | interrupted => [Call (wait_call g) (fails EINTR)]
  | not_ready => [Call (dequeue_call g) (fails EAGAIN); Call (wait_call g) ready]
  end.

Definition round_events (g : globals) (rd : round) : list event :=
  match buffers_mem g !! Z.to_nat (frame_index rd) with
  | Some b =>
      frame_events g (dequeued (frame_index rd) (frame_used rd)) (ok 0) b
        ++ Call (wait_call g) ready :: flat_map (hiccup_events g) (rev (hiccups rd))
  | None => []
  end.

Definition rounds_events (g : globals) (rounds : list round) : list event :=
  flat_map (round_events g) (rev rounds).

(** ** Concrete sessions *)

(** A pool of two mapped buffers of 614400 bytes (640x480 YUYV). *)
Definition pool2 : list buffer :=
  [ {| start := 4096; len := 614400 |}; {| start := 618496; len := 614400 |} ].

(** The state of a session on descriptor 3 whose pool [pool2] is in place,
    asked for [count] frames, and in which the environment will give
    [answers]; its trace starts here. *)
Definition session (count : Z) (answers : list reply) : state :=
  {| glob := {| dev_name := "/dev/video0"; io := IO_METHOD_MMAP; fd := 3;
                buffers := 1024; buffers_mem := pool2; n_buffers := 2;
                out_buf := 0; force_format := 0; frame_count := count |};
     errno := 0; script := answers; trace := [] |}.

Definition frame (i used : Z) : round :=
  {| hiccups := []; frame_index := i; frame_used := used |}.
Definition late_frame (i used : Z) : round :=
  {| hiccups := [not_ready]; frame_index := i; frame_used := used |}.

(** Five frames wanted; the device is not ready, ready, ready, not ready,
    and then ready four times: the last frame it offers is not taken. *)
Definition five_rounds : list round :=
  [late_frame 0 614400; frame 1 614400; late_frame 0 614400; frame 1 614400;
   frame 0 614400].
Definition scenario_C : state :=
  session 5 (flat_map round_script five_rounds ++ round_script (frame 1 614400)).


(** ** Kinds of events *)

Inductive kind :=
| k_getopt | k_strtol | k_stat | k_open | k_close | k_ioctl (request : vidioc)
| k_select | k_calloc | k_mmap | k_munmap
| k_marker | k_message | k_fwrite | k_fflush | k_free.

Definition kind_of (e : event) : kind :=
  match e with
  | Call (call_getopt_long _ _ _) _ => k_getopt
  | Call (call_strtol _ _) _ => k_strtol
  | Call (call_stat _) _ => k_stat
  | Call (call_open _ _ _) _ => k_open
  | Call (call_close _) _ => k_close
  | Call (call_ioctl _ request _) _ => k_ioctl request
  | Call (call_select _ _ _ _) _ => k_select
  | Call (call_calloc _ _) _ => k_calloc
  | Call (call_mmap _ _ _ _ _) _ => k_mmap
  | Call (call_munmap _ _) _ => k_munmap
  | Fprintf _ _ _ => if is_marker e then k_marker else k_message
  | Fwrite _ _ => k_fwrite
  | Fflush _ => k_fflush
  | Free _ => k_free
  end.

(** [E] holds of every event of kind [k]. *)
Definition allows (E : event -> bool) (k : kind) : Prop :=
  forall e, kind_of e = k -> E e = true.

(** Every event that [m] adds to the trace satisfies [E]. *)
Definition emits {A} (E : event -> bool) (m : M A) : Prop :=
  forall s, exists new,
    trace (final_state (m s)) = new ++ trace s /\ forallb E new = true.

(** Every event that [m] adds to the trace satisfies [E], unless [m] ends
    the process with status 1, and then every one satisfies [F] and the
    final trace satisfies [L]. *)
Definition emits_unless {A} (E F : event -> bool) (L : list event -> Prop) (m : M A) : Prop :=
  forall s, exists new,
    trace (final_state (m s)) = new ++ trace s /\
    (forallb E new = true \/
     (exists s', m s = Halt (exited EXIT_FAILURE) s' /\ L (trace s')) /\
     forallb F new = true).

Definition both (E F : event -> bool) (e : event) : bool := E e && F e.

(** ** Buffer reservation in a trace *)

(** The struct v4l2_requestbuffers that init_mmap passes. *)
Definition four_buffers : v4l2_requestbuffers :=
  {| req_count := 4; req_type := V4L2_BUF_TYPE_VIDEO_CAPTURE;
     req_memory := V4L2_MEMORY_MMAP |}.

(** The number of buffers a successful VIDIOC_REQBUFS granted. *)
Definition granted_count (e : event) : option Z :=
  match e with
  | Call (call_ioctl _ VIDIOC_REQBUFS arg) r =>
      if r_ret r =? -1 then None
      else Some (req_count (the_requestbuffers (written r arg) four_buffers))
  | _ => None
  end.

(** The device granted fewer than 2 buffers. *)
Definition insufficient (e : event) : bool :=
  match granted_count e with
  | Some n => n <? 2
  | None => false
  end.

(** The last thing the process did was to report insufficient buffer
    memory. *)
Definition reports_insufficient (tr : list event) : bool :=
  match tr with
  | Fprintf stderr "Insufficient buffer memory on %s\n" [fmt_s _] :: _ => true
  | _ => false
  end.

(** Events of allocating, mapping, queuing, dequeuing, streaming, waiting
    and delivering. *)
Definition capture_activity (e : event) : bool :=
  match kind_of e with
  | k_calloc | k_mmap | k_munmap | k_free
  | k_ioctl VIDIOC_QUERYBUF | k_ioctl VIDIOC_QBUF | k_ioctl VIDIOC_DQBUF
  | k_ioctl VIDIOC_STREAMON | k_ioctl VIDIOC_STREAMOFF
  | k_select | k_marker | k_fwrite => true
  | _ => false
  end.

(** ** Mapping and unmapping in a trace *)

Definition failed_mmap (e : event) : bool :=
  match e with
  | Call (call_mmap _ _ _ _ _) r => r_ret r =? MAP_FAILED
  | _ => false
  end.



(** The addresses of the mappings made and of those released. *)
Definition mapped (tr : list event) : list Z :=
  omap (fun e => match e with
                 | Call (call_mmap _ _ _ _ _) r =>
                     if r_ret r =? MAP_FAILED then None else Some (r_ret r)
                 | _ => None
                 end) tr.
Definition unmapped (tr : list event) : list Z :=
  omap (fun e => match e with
                 | Call (call_munmap addr _) _ => Some addr
                 | _ => None
                 end) tr.

(** Every mapping made has been released. *)
Definition all_released (tr : list event) : bool :=
  forallb (fun a => existsb (Z.eqb a) (unmapped tr)) (mapped tr).

(** What comes after init_device. *)
Definition capture_and_teardown : M Z :=
  start_capturing;; mainloop;; stop_capturing;; uninit_device;; close_device;;
  emit (Fprintf stderr "\n" []);; ret 0.


(** Scenario B of the specification: capture with no option on a device
    that answers every query and then grants a single buffer. *)
Definition scenario_B : state :=
  initial_state [opts_end; stat_chr; ok 3; caps_ok; fails EINVAL; ok 0; granted 1].

(** The pool is in place: n_buffers entries, n_buffers an unsigned int. *)
Definition pool_ok (g : globals) : Prop :=
  0 <= n_buffers g < 2 ^ 32 /\ Z.of_nat (length (buffers_mem g)) = n_buffers g.

(** The invariant of the mapping loop, [tr0] being the trace at its start. *)
Definition mapping (count : Z) (tr0 : list event) (s : state) : Prop :=
  0 <= n_buffers (glob s) <= count /\
  Z.of_nat (length (buffers_mem (glob s))) = count /\
  exists new, trace s = new ++ tr0 /\ existsb failed_mmap new = false.

(** How the mapping loop may end. *)
Definition mapping_done (count : Z) (tr0 : list event) (r : result unit) : Prop :=
  match r with
  | Ret _ s =>
      n_buffers (glob s) = count /\
      Z.of_nat (length (buffers_mem (glob s))) = count /\
      exists new, trace s = new ++ tr0 /\ existsb failed_mmap new = false
  | Halt h s =>
      h <> out_of_bounds /\ h <> aborted /\
      exists new, trace s = new ++ tr0 /\
        (existsb failed_mmap new = false \/ h = exited EXIT_FAILURE)
  end.







(** ** Ownership of the buffers *)

(** The indices of a pool of [n] buffers. *)
Definition pool (n : Z) : gset Z := list_to_set (seqZ 0 n).

Record owners := { with_device : gset Z; with_process : gset Z }.

Definition hand_over (o : owners) (t : transfer) : owners :=
  match t with
  | to_device i =>
      {| with_device := with_device o ∪ {[i]}; with_process := with_process o ∖ {[i]} |}
  | to_process i =>
      {| with_device := with_device o ∖ {[i]}; with_process := with_process o ∪ {[i]} |}
  end.

(** Who owns what after the events of [tr], when every buffer of the pool
    was with the process before the first of them. *)
Definition owners_after (n : Z) (tr : list event) : owners :=
  foldl hand_over {| with_device := ∅; with_process := pool n |} (traffic tr).

Definition partitioned (n : Z) (o : owners) : Prop :=
  with_device o ## with_process o /\ with_device o ∪ with_process o = pool n.

(** Every buffer is with the device. *)
Definition steady (n : Z) (tr : list event) : Prop :=
  owners_after n tr = {| with_device := pool n; with_process := ∅ |}.

(** The partition holds at every point of the run from [base] to [tr]. *)
Definition always_partitioned (n : Z) (base tr : list event) : Prop :=
  base `suffix_of` tr /\
  forall p, base `suffix_of` p -> p `suffix_of` tr -> partitioned n (owners_after n p).

(** A VIDIOC_DQBUF that succeeded with an index that is not below [n]. *)
Definition bad_dequeue (n : Z) (e : event) : bool :=
  match e with
  | Call (call_ioctl _ VIDIOC_DQBUF arg) r =>
      negb (r_ret r =? -1) && (n <=? buf_index (the_buffer (written r arg) (fresh_buffer 0)))
  | _ => false
  end.

(** A run that never touches the array outside its bounds, and that a
    failed assert ends only right after a bad dequeue. *)
Definition guarded {A} (n : Z) (r : result A) : Prop :=
  match r with
  | Halt out_of_bounds _ => False
  | Halt aborted s => exists e tr, trace s = e :: tr /\ bad_dequeue n e = true
  | _ => True
  end.

(** What one call of read_frame keeps: the globals, the bounds of the
    array, and the partition of the pool at every point. *)
Definition frame_kept (n : Z) (g : globals) (base : list event) {A} (r : result A) : Prop :=
  match r with
  | Ret _ s' =>
      glob s' = g /\ steady n (trace s') /\ always_partitioned n base (trace s')
  | Halt h s' =>
      guarded n (Halt (A := A) h s') /\
      (h <> aborted -> always_partitioned n base (trace s'))
  end.


(** Both buffers are queued, streaming starts, and two frames are served. *)
Definition two_frames : state :=
  session 2 ([ok 0; ok 0; ok 0] ++ flat_map round_script [frame 0 614400; frame 1 614400]).

(** The device hands back buffer 7 of a pool of two. *)
Definition alien_buffer : state := session 2 [ready; dequeued 7 614400].

(** ** A device that grants and maps *)

(** What the device reports for one buffer, and where mmap puts it. *)
Record mapping_info := { m_length : Z; m_offset : Z; m_addr : Z }.


(** The answers to VIDIOC_QUERYBUF and mmap for the buffers from index [i]
    on. *)
Fixpoint map_script (i : Z) (infos : list mapping_info) : list reply :=
  match infos with
  | [] => []
  | m :: infos' =>
      queried i (m_length m) (m_offset m) :: ok (m_addr m) :: map_script (i + 1) infos'
  end.

(** The answers to init_mmap of a device that grants as many buffers as
    [infos] has entries, calloc returning [p]. *)
Definition grant_script (p : Z) (infos : list mapping_info) : list reply :=
  granted (Z.of_nat (length infos)) :: ok p :: map_script 0 infos.


(** Scenario A of the specification: 4 buffers requested, 3 granted. *)
Definition three_infos : list mapping_info :=
  [ {| m_length := 614400; m_offset := 0; m_addr := 4096 |};
    {| m_length := 614400; m_offset := 614400; m_addr := 618496 |};
    {| m_length := 614400; m_offset := 1228800; m_addr := 1232896 |} ].
Definition scenario_A : state :=
  {| glob := set_fd 3 (set_dev_name "/dev/video0" initial_globals);
     errno := 0; script := grant_script 1024 three_infos; trace := [] |}.

(** ** Forcing the format *)

(** The format init_device asks for when force_format is set. *)
Definition forced_format : v4l2_format :=
  {| fmt_type := V4L2_BUF_TYPE_VIDEO_CAPTURE; pix_width := 640; pix_height := 480;
     pix_pixelformat := V4L2_PIX_FMT_YUYV; pix_field := V4L2_FIELD_INTERLACED |}.

(** The state in which init_device reaches init_mmap after VIDIOC_QUERYCAP
    succeeded, VIDIOC_CROPCAP failed with EINVAL and VIDIOC_S_FMT was
    answered with [f]. *)
Definition negotiated (g : globals) (f : reply) (rest : list reply) (s : state) : state :=
  answered (call_ioctl (fd g) VIDIOC_S_FMT (arg_format forced_format)) f rest
    (answered (call_ioctl (fd g) VIDIOC_CROPCAP
                 (arg_cropcap V4L2_BUF_TYPE_VIDEO_CAPTURE clear_rect))
       (fails EINVAL) (f :: rest)
       (answered (call_ioctl (fd g) VIDIOC_QUERYCAP (arg_capability 0))
          caps_ok (fails EINVAL :: f :: rest) s)).


(** Scenario E of the specification, entered at init_device with
    force_format set by hand: the device turns 640x480 into 640x360 and
    then grants three buffers. *)
Definition scenario_E : state :=
  {| glob := {| dev_name := "/dev/video0"; io := IO_METHOD_MMAP; fd := 3; buffers := NULL;
                buffers_mem := []; n_buffers := 0; out_buf := 0; force_format := 1;
                frame_count := 70 |};
     errno := 0;
     script := [caps_ok; fails EINVAL;
                ok_with (arg_format {| fmt_type := V4L2_BUF_TYPE_VIDEO_CAPTURE;
                                       pix_width := 640; pix_height := 360;
                                       pix_pixelformat := V4L2_PIX_FMT_YUYV;
                                       pix_field := V4L2_FIELD_INTERLACED |})]
               ++ grant_script 1024 three_infos;
     trace := [] |}.

(** ** Interrupted system calls *)

(** [r] says the call was interrupted by a signal. *)
Definition fails_EINTR (r : reply) : Prop := r_ret r = -1 /\ r_errno r = EINTR.

(** [rep] is not such an answer: the call succeeded, or it failed and
    stored another error in errno. *)
Definition settles (rep : reply) : Prop :=
  r_ret rep <> -1 \/ (r_errno rep <> 0 /\ r_errno rep <> EINTR).

(** The events of one xioctl, newest first: the ioctl answered by [rep]
    after it was interrupted [length retries] times. *)
Definition ioctl_events (fh : Z) (request : vidioc) (arg : ioctl_arg)
    (retries : list reply) (rep : reply) : list event :=
  Call (call_ioctl fh request arg) rep
    :: map (Call (call_ioctl fh request arg)) (rev retries).

(** ** Counting frames *)

Definition is_fwrite (e : event) : bool :=
  match e with Fwrite _ _ => true | _ => false end.

(** The number of frames written to stdout. *)
Definition written_out (tr : list event) : nat := length (List.filter is_fwrite tr).

(** [s'] has the globals [g], and since the trace was [tr0] between [lo]
    and [hi] frames were delivered, each written to stdout if out_buf is
    set and none otherwise. *)
Definition tally (g : globals) (tr0 : list event) (lo hi : Z) (s' : state) : Prop :=
  glob s' = g /\
  exists new, trace s' = new ++ tr0 /\
    lo <= Z.of_nat (delivered new) <= hi /\
    written_out new = (if out_buf g =? 0 then 0%nat else delivered new).

(** What read_frame, one round of the capture loop and mainloop do to the
    counts. *)
Definition frame_tally (g : globals) (tr0 : list event) (d : Z) (r : result Z) : Prop :=
  match r with
  | Ret v s' => if v =? 0 then tally g tr0 d d s' else tally g tr0 (d + 1) (d + 1) s'
  | Halt _ s' => tally g tr0 d (d + 1) s'
  end.

Definition round_tally (g : globals) (tr0 : list event) (d : Z) (r : result unit) : Prop :=
  match r with
  | Ret _ s' => tally g tr0 (d + 1) (d + 1) s'
  | Halt _ s' => tally g tr0 d (d + 1) s'
  end.

Definition loop_tally (g : globals) (tr0 : list event) (n : Z) (r : result unit) : Prop :=
  match r with
  | Ret _ s' => tally g tr0 n n s'
  | Halt _ s' => tally g tr0 0 n s'
  end.

(** Neither a progress marker nor a write to stdout. *)
Definition silent (e : event) : bool := negb (is_marker e) && negb (is_fwrite e).

(** ** Writing frames out *)

(** The number of bytes fwrite is asked to write for a frame of which the
    driver says [used] bytes are used: bytesused is a __u32, process_image
    takes it as an int, and fwrite as a size_t. *)
Definition bytes_written (used : Z) : Z :=
  if used <? 2 ^ 31 then used else 2 ^ 64 - 2 ^ 32 + used.

(** A session as [session], started with -o. *)
Definition recording (count : Z) (answers : list reply) : state :=
  with_glob (set_out_buf 1 (glob (session count answers))) (session count answers).

(** ** Opening the device *)

(** st.st_mode as stat left it. *)
Definition st_mode_of (r : reply) : Z :=
  match r_out r with wrote_stat m => m | _ => 0 end.

Definition stat_call (g : globals) : call := call_stat (dev_name g).
Definition open_call (g : globals) : call :=
  call_open (dev_name g) (Z.lor O_RDWR O_NONBLOCK) 0.

(** stat refuses the path, or the path is not a character device. *)
Definition not_a_device (st : reply) : Prop :=
  r_ret st = -1 \/ S_ISCHR (st_mode_of st) = false.

(** How open_device may end when started in [s]. *)
Definition open_device_result (s : state) (r : result unit) : Prop :=
  match r with
  | Ret _ s' =>
      exists st o rest,
        script s = st :: o :: rest /\ script s' = rest /\
        r_ret st <> -1 /\ S_ISCHR (st_mode_of st) = true /\
        r_ret o <> -1 /\ fd (glob s') = r_ret o /\
        trace s' = Call (open_call (glob s)) o :: Call (stat_call (glob s)) st :: trace s
  | Halt h s' =>
      (h = blocked /\ script s' = []) \/
      (h = exited EXIT_FAILURE /\
       exists format args st rest,
         script s = st :: rest /\
         ((not_a_device st /\ script s' = rest /\ fd (glob s') = fd (glob s) /\
           trace s' = Fprintf stderr format args :: Call (stat_call (glob s)) st :: trace s) \/
          (exists o rest', rest = o :: rest' /\ r_ret o = -1 /\ fd (glob s') = -1 /\
             trace s' = Fprintf stderr format args :: Call (open_call (glob s)) o
                          :: Call (stat_call (glob s)) st :: trace s)))
  end.

(** The path is a directory. *)
Definition stat_dir : reply := {| r_ret := 0; r_errno := 0; r_out := wrote_stat 16384 |}.

(** ** Negotiating with the device *)

(** [e] is an ioctl with request [request]. *)
Definition is_ioctl (request : vidioc) (e : event) : bool :=
  match e with
  | Call (call_ioctl _ rq _) _ => bool_decide (rq = request)
  | _ => false
  end.

(** [emits], from one state. *)
Definition emits_at {A} (E : event -> bool) (m : M A) (s : state) : Prop :=
  exists new, trace (final_state (m s)) = new ++ trace s /\ forallb E new = true.

(** A VIDIOC_QUERYCAP that succeeded and reported both capabilities the
    program needs. *)
Definition capable (e : event) : bool :=
  match e with
  | Call (call_ioctl _ VIDIOC_QUERYCAP arg) r =>
      let capabilities := the_capabilities (written r arg) 0 in
      negb (r_ret r =? -1)
      && negb (Z.land capabilities V4L2_CAP_VIDEO_CAPTURE =? 0)
      && negb (Z.land capabilities V4L2_CAP_STREAMING =? 0)
  | _ => false
  end.

(** A VIDIOC_QUERYCAP or a message. *)
Definition query_or_message (e : event) : bool :=
  match kind_of e with
  | k_ioctl VIDIOC_QUERYCAP | k_message => true
  | _ => false
  end.

(** ** The command line *)

(** The options main acts on, as getopt_long reports them: -d name, -o,
    and -c text for which strtol returns [value] and reports no error. *)
Inductive cli_option :=
| opt_device (name : string)
| opt_output
| opt_count (text : string) (value : Z).

Definition option_script (o : cli_option) : list reply :=
  match o with
  | opt_device name => [opt "d" name]
  | opt_output => [opt "o" ""]
  | opt_count text value => [opt "c" text; ok value]
  end.

(** What the option does to the globals. *)
Definition apply_option (g : globals) (o : cli_option) : globals :=
  match o with
  | opt_device name => set_dev_name name g
  | opt_output => set_out_buf (to_int (out_buf g + 1)) g
  | opt_count _ value => set_frame_count (to_int value) g
  end.

Definition getopt_call (argv : list string) : call :=
  call_getopt_long argv short_options long_options.

(** The events of handling one option, newest first. *)
Definition option_events (argv : list string) (o : cli_option) : list event :=
  match o with
  | opt_device name => [Call (getopt_call argv) (opt "d" name)]
  | opt_output => [Call (getopt_call argv) (opt "o" "")]
  | opt_count text value =>
      [Call (call_strtol text 0) (ok value); Call (getopt_call argv) (opt "c" text)]
  end.

(** errno after the options: -c clears it. *)
Definition errno_after (e : Z) (o : cli_option) : Z :=
  match o with opt_count _ _ => 0 | _ => e end.

(** The state after the options [os] were handled. *)
Definition after_options (argv : list string) (os : list cli_option) (rest : list reply)
    (s : state) : state :=
  {| glob := foldl apply_option (glob s) os;
     errno := foldl errno_after (errno s) os;
     script := rest;
     trace := flat_map (option_events argv) (rev os) ++ trace s |}.

(** The values getopt_long can return that the switch of main has a case
    for. *)
Definition handled (c : Z) : Prop :=
  c = -1 \/ c = 0 \/ c = chr "d"%char \/ c = chr "h"%char \/ c = chr "o"%char \/
  c = chr "c"%char.

(** The pool [pool2] put in place on descriptor 3, the other globals kept
    (to run the capture loop after the option loop without a device). *)
Definition in_session (g : globals) : globals :=
  set_n_buffers 2 (set_buffers 1024 pool2 (set_fd 3 g)).
Definition with_session : M unit := update_glob in_session.

(** ** Format and cropping *)

Definition querycap_call (g : globals) : call :=
  call_ioctl (fd g) VIDIOC_QUERYCAP (arg_capability 0).
Definition cropcap_call (g : globals) : call :=
  call_ioctl (fd g) VIDIOC_CROPCAP (arg_cropcap V4L2_BUF_TYPE_VIDEO_CAPTURE clear_rect).

(** The VIDIOC_S_CROP that follows a VIDIOC_CROPCAP answered by [cc]:
    crop.c = cropcap.defrect. *)
Definition crop_call (g : globals) (cc : reply) : call :=
  call_ioctl (fd g) VIDIOC_S_CROP
    (arg_crop V4L2_BUF_TYPE_VIDEO_CAPTURE
       (the_defrect (written cc (arg_cropcap V4L2_BUF_TYPE_VIDEO_CAPTURE clear_rect))
          clear_rect)).

Definition get_format_call (g : globals) : call :=
  call_ioctl (fd g) VIDIOC_G_FMT
    (arg_format {| fmt_type := V4L2_BUF_TYPE_VIDEO_CAPTURE; pix_width := 0;
                   pix_height := 0; pix_pixelformat := 0; pix_field := 0 |}).

(** The answers about cropping: VIDIOC_S_CROP is only asked when
    VIDIOC_CROPCAP returned 0. *)
Definition crop_script (cc c : reply) : list reply :=
  if r_ret cc =? 0 then [cc; c] else [cc].

Definition crop_events (g : globals) (cc c : reply) : list event :=
  if r_ret cc =? 0
  then [Call (crop_call g cc) c; Call (cropcap_call g) cc]
  else [Call (cropcap_call g) cc].

(** VIDIOC_CROPCAP reporting the default rectangle [d]. *)
Definition cropcap_ok (d : v4l2_rect) : reply :=
  ok_with (arg_cropcap V4L2_BUF_TYPE_VIDEO_CAPTURE d).

Definition full_frame : v4l2_rect :=
  {| r_left := 0; r_top := 0; r_width := 640; r_height := 480 |}.

(** ** Starting and tearing down *)

Definition queue_call (fdv i : Z) : call :=
  call_ioctl fdv VIDIOC_QBUF (arg_buffer (fresh_buffer i)).
Definition streamon_call (fdv : Z) : call :=
  call_ioctl fdv VIDIOC_STREAMON (arg_buf_type V4L2_BUF_TYPE_VIDEO_CAPTURE).
Definition streamoff_call (fdv : Z) : call :=
  call_ioctl fdv VIDIOC_STREAMOFF (arg_buf_type V4L2_BUF_TYPE_VIDEO_CAPTURE).

(** The events of queuing the buffers from index [i] on, answered by
    [qs], newest first. *)
Fixpoint queue_events (fdv i : Z) (qs : list reply) : list event :=
  match qs with
  | [] => []
  | q :: qs' => queue_events fdv (i + 1) qs' ++ [Call (queue_call fdv i) q]
  end.

(** The events of unmapping the buffers [bs], answered by [ms], newest
    first. *)
Fixpoint munmap_events (bs : list buffer) (ms : list reply) : list event :=
  match bs, ms with
  | b :: bs', m :: ms' => munmap_events bs' ms' ++ [Call (call_munmap (start b) (len b)) m]
  | _, _ => []
  end.

Definition succeeds (r : reply) : Prop := r_ret r <> -1.

(** ** What a function changes, how it stops, what it establishes *)

(** [m] leaves [f] of the globals as it is. *)
Definition preserves {A T} (f : globals -> T) (m : M A) : Prop :=
  forall s, f (glob (final_state (m s))) = f (glob s).

(** Neither an out-of-bounds access nor a failed assertion. *)
Definition clean (h : halt) : Prop := h <> out_of_bounds /\ h <> aborted.

Definition halts_cleanly {A} (m : M A) : Prop :=
  forall s h s', m s = Halt h s' -> clean h.

(** The events whose kind satisfies [P]. *)
Definition of_kind (P : kind -> bool) (e : event) : bool := P (kind_of e).

(** Started in a state that satisfies [P], [m] returns in one that
    satisfies [Q] or stops in one that satisfies [H]. *)
Definition hoare {A} (P : state -> Prop) (m : M A) (Q : A -> state -> Prop)
    (H : halt -> state -> Prop) : Prop :=
  forall s, P s -> match m s with Ret a s' => Q a s' | Halt h s' => H h s' end.

(** [X] survives events of the kinds [K] and changes of the globals that
    keep [f]. *)
Definition stable {T} (f : globals -> T) (K : kind -> bool) (X : state -> Prop) : Prop :=
  forall s s' q,
    X s -> f (glob s') = f (glob s) -> trace s' = q ++ trace s ->
    forallb (of_kind K) q = true -> X s'.

Definition is_mmap (e : event) : bool :=
  match e with Call (call_mmap _ _ _ _ _) _ => true | _ => false end.

(** ** The stages of a run *)

(** Kinds of events by stage: setting up, mapping, queuing, the capture
    loop, unmapping. *)
Definition setup_kind (k : kind) : bool :=
  match k with
  | k_marker | k_fwrite | k_mmap | k_munmap
  | k_ioctl VIDIOC_QBUF | k_ioctl VIDIOC_DQBUF => false
  | _ => true
  end.
Definition map_kind (k : kind) : bool :=
  match k with k_mmap => true | _ => setup_kind k end.
Definition queue_kind (k : kind) : bool :=
  match k with k_mmap | k_ioctl VIDIOC_QBUF => true | _ => setup_kind k end.
Definition loop_kind (k : kind) : bool :=
  match k with k_mmap | k_munmap => false | _ => true end.
Definition unmap_kind (k : kind) : bool :=
  match k with k_munmap => true | _ => setup_kind k end.

(** Nothing but setting up has happened. *)
Definition untouched (s : state) : Prop :=
  forallb (of_kind setup_kind) (trace s) = true.

(** The pool is in place, of at least two buffers, and its entries hold the
    addresses of the mappings made, in the order they were made. *)
Definition pooled (s : state) : Prop :=
  pool_ok (glob s) /\ 2 <= n_buffers (glob s) /\
  map start (buffers_mem (glob s)) = rev (mapped (trace s)).

Definition mapped_only (s : state) : Prop :=
  pooled s /\ forallb (of_kind map_kind) (trace s) = true.

Definition streaming (base : list event) (s : state) : Prop :=
  pooled s /\ forallb (of_kind queue_kind) (trace s) = true /\
  steady (n_buffers (glob s)) (trace s) /\
  always_partitioned (n_buffers (glob s)) base (trace s).

(** As many frames were delivered as frame_count asks for, each written
    to stdout if out_buf is set. *)
Definition counted (s : state) : Prop :=
  Z.of_nat (delivered (trace s)) = to_uint (frame_count (glob s)) /\
  written_out (trace s) = (if out_buf (glob s) =? 0 then 0%nat else delivered (trace s)).

Definition captured (s : state) : Prop :=
  pooled s /\ unmapped (trace s) = [] /\ counted s.

(** Every mapping made was released, in the order they were made. *)
Definition released (s : state) : Prop :=
  pooled s /\ unmapped (trace s) = mapped (trace s) /\ counted s.

(** A run stops without touching the array outside its bounds, and on a
    failed assertion only right after a bad dequeue. *)
Definition guard (h : halt) (s : state) : Prop :=
  guarded (n_buffers (glob s)) (Halt (A := unit) h s).

(** ** The pool records the mappings *)

(** The first n_buffers entries of the array hold the addresses of the
    mappings made so far, in the order they were made. *)
Definition recorded (s : state) : Prop :=
  0 <= n_buffers (glob s) /\
  map start (take (Z.to_nat (n_buffers (glob s))) (buffers_mem (glob s)))
  = rev (mapped (trace s)).

(** ** The stages of main *)

(** The events start_capturing may add. *)
Definition start_kind (k : kind) : bool :=
  match k with k_ioctl VIDIOC_QBUF => true | _ => setup_kind k end.

(** ** A complete run *)

(** capture -c 2 on a device that grants two buffers and serves two
    frames; every call succeeds. *)
Definition two_infos : list mapping_info :=
  [ {| m_length := 614400; m_offset := 0; m_addr := 4096 |};
    {| m_length := 614400; m_offset := 614400; m_addr := 618496 |} ].

Definition complete_run : state :=
  initial_state
    ([opt "c" "2"; ok 2; opts_end; stat_chr; ok 3; caps_ok; fails EINVAL; ok 0]
       ++ grant_script 1024 two_infos
       ++ [ok 0; ok 0; ok 0]
       ++ flat_map round_script [frame 0 614400; frame 1 614400]
       ++ [ok 0; ok 0; ok 0; ok 0]).

(** ** A cooperative environment *)




(** ** Reserving buffers *)

Definition reqbufs_call (g : globals) : call :=
  call_ioctl (fd g) VIDIOC_REQBUFS (arg_requestbuffers four_buffers).

(** What init_mmap prints when VIDIOC_REQBUFS fails with errno [e]. *)
Definition reqbufs_message (g : globals) (e : Z) : event :=
  if e =? EINVAL
  then Fprintf stderr "%s does not support memory mapping\n" [fmt_s (dev_name g)]
  else Fprintf stderr "%s error %d, %s\n"
         [fmt_s "VIDIOC_REQBUFS"; fmt_d e; fmt_strerror e].
(** * Reasoning about runs *)

(** ** Calls use up the script *)

Lemma shrinks_ret {A} (a : A) : shrinks (ret a).
Proof. intros s. reflexivity. Qed.

Lemma shrinks_stop {A} h : shrinks (@stop A h).
Proof. intros s. reflexivity. Qed.

Lemma shrinks_exit {A} c : shrinks (@exit A c).
Proof. intros s. reflexivity. Qed.

Lemma shrinks_get_glob : shrinks get_glob.
Proof. intros s. reflexivity. Qed.

Lemma shrinks_update_glob f : shrinks (update_glob f).
Proof. intros s. reflexivity. Qed.

Lemma shrinks_get_errno : shrinks get_errno.
Proof. intros s. reflexivity. Qed.

Lemma shrinks_set_errno e : shrinks (set_errno e).
Proof. intros s. reflexivity. Qed.

Lemma shrinks_emit e : shrinks (emit e).
Proof. intros s. reflexivity. Qed.

Lemma shrinks_sys c : shrinks (sys c).
Proof. intros s. unfold sys. destruct (script s) eqn:E; simpl; rewrite ?E; simpl; lia. Qed.

Lemma shrinks_bind {A B} (m : M A) (k : A -> M B) :
  shrinks m -> (forall a, shrinks (k a)) -> shrinks (bind m k).
Proof.
  intros Hm Hk s. unfold bind. specialize (Hm s).
  destruct (m s) as [a s'|h s']; simpl in *; [|exact Hm].
  specialize (Hk a s'). lia.
Qed.

Lemma shrinks_loop_fuel {A B} (body : A -> M (A + B)) :
  (forall a, shrinks (body a)) -> forall n a, shrinks (loop_fuel n body a).
Proof.
  intros Hb n. induction n as [|n IH]; intros a s; simpl; [reflexivity|].
  specialize (Hb a s). destruct (body a s) as [[a'|b] s'|h s']; simpl in *; try exact Hb.
  specialize (IH a' s'). lia.
Qed.

Lemma shrinks_loop {A B} (body : A -> M (A + B)) a :
  (forall a, shrinks (body a)) -> shrinks (loop body a).
Proof. intros Hb s. unfold loop. apply shrinks_loop_fuel, Hb. Qed.

Lemma consumes_stop {A} h : consumes (@stop A h).
Proof. intros s a s' H. discriminate. Qed.

Lemma consumes_sys c : consumes (sys c).
Proof.
  intros s r s'. unfold sys. destruct (script s) eqn:E; [discriminate|].
  intros [= <- <-]. simpl. lia.
Qed.

Lemma consumes_bind_l {A B} (m : M A) (k : A -> M B) :
  consumes m -> (forall a, shrinks (k a)) -> consumes (bind m k).
Proof.
  intros Hm Hk s b s2. unfold bind. destruct (m s) as [a s1|h s1] eqn:E; [|discriminate].
  intros H. specialize (Hm _ _ _ E). specialize (Hk a s1). rewrite H in Hk. simpl in Hk. lia.
Qed.

Lemma consumes_bind_r {A B} (m : M A) (k : A -> M B) :
  shrinks m -> (forall a, consumes (k a)) -> consumes (bind m k).
Proof.
  intros Hm Hk s b s2. unfold bind. specialize (Hm s).
  destruct (m s) as [a s1|h s1] eqn:E; [|discriminate].
  intros H. specialize (Hk _ _ _ _ H). simpl in Hm. lia.
Qed.

(** A loop whose every iteration uses an answer, whether it goes round
    again or not, returns only after an answer was used. *)
Lemma consumes_loop_fuel {A B} (body : A -> M (A + B)) :
  (forall a, consumes (body a)) -> forall n a, consumes (loop_fuel n body a).
Proof.
  intros Hb n. induction n as [|n IH]; intros a s b s2; simpl; [discriminate|].
  destruct (body a s) as [[a'|b'] s1|h s1] eqn:E; try discriminate.
  - intros H. specialize (IH _ _ _ _ H). specialize (Hb _ _ _ _ E). lia.
  - intros [= <- <-]. exact (Hb _ _ _ _ E).
Qed.

Lemma consumes_loop {A B} (body : A -> M (A + B)) a :
  (forall a, consumes (body a)) -> consumes (loop body a).
Proof. intros Hb s. unfold loop. apply consumes_loop_fuel, Hb. Qed.

Lemma consumes_progresses {A B} (body : A -> M (A + B)) :
  (forall a, consumes (body a)) -> progresses body.
Proof. intros Hb a s a' s' H. exact (Hb _ _ _ _ H). Qed.

(** ** Fuel is never the limit *)

Lemma loop_fuel_enough {A B} (body : A -> M (A + B)) :
  progresses body ->
  forall n m a s,
    (length (script s) < n)%nat -> (length (script s) < m)%nat ->
    loop_fuel n body a s = loop_fuel m body a s.
Proof.
  intros Hb n. induction n as [|n IH]; intros m a s Hn Hm; [lia|].
  destruct m as [|m]; [lia|]. simpl.
  destruct (body a s) as [[a'|b] s'|h s'] eqn:E; try reflexivity.
  specialize (Hb _ _ _ _ E). apply IH; lia.
Qed.

(** The equation of the C loop: run the body once, then go round again or
    leave. *)
Lemma loop_unfold {A B} (body : A -> M (A + B)) a s :
  progresses body ->
  loop body a s =
    match body a s with
    | Ret (inl a') s' => loop body a' s'
    | Ret (inr b) s' => Ret b s'
    | Halt h s' => Halt h s'
    end.
Proof.
  intros Hb. unfold loop at 1. simpl.
  destruct (body a s) as [[a'|b] s'|h s'] eqn:E; try reflexivity.
  unfold loop. pose proof (Hb _ _ _ _ E). apply loop_fuel_enough; [exact Hb|lia..].
Qed.

(** ** Loop invariants *)

(** If [I] holds when the loop is entered and every iteration keeps it or
    ends the run in a result satisfying [Q], the loop ends in a result
    satisfying [Q]. *)
Lemma loop_invariant {A B} (body : A -> M (A + B))
    (I : A -> state -> Prop) (Q : result B -> Prop) :
  progresses body ->
  (forall a s, I a s ->
     match body a s with
     | Ret (inl a') s' => I a' s'
     | Ret (inr b) s' => Q (Ret b s')
     | Halt h s' => Q (Halt h s')
     end) ->
  forall a s, I a s -> Q (loop body a s).
Proof.
  intros Hp Hb a s. remember (length (script s)) as n eqn:Hn.
  revert a s Hn. induction n as [n IH] using lt_wf_ind. intros a s -> HI.
  rewrite loop_unfold by exact Hp. specialize (Hb a s HI).
  destruct (body a s) as [[a'|b] s'|h s'] eqn:E; try exact Hb.
  eapply IH; [|reflexivity|exact Hb]. exact (Hp _ _ _ _ E).
Qed.

(** ** The program's loops make progress *)

Create HintDb shrinks.
Create HintDb progress.
#[export] Hint Resolve shrinks_ret shrinks_stop shrinks_exit shrinks_get_glob
  shrinks_update_glob shrinks_get_errno shrinks_set_errno shrinks_emit
  shrinks_sys : shrinks.

Ltac shrinks_step :=
  match goal with
  | |- forall _, _ => intro
  | |- shrinks (bind _ _) => apply shrinks_bind
  | |- shrinks (loop _ _) => apply shrinks_loop
  | |- shrinks (continue _) => apply shrinks_ret
  | |- shrinks (break _) => apply shrinks_ret
  | |- shrinks (if ?b then _ else _) => destruct b
  | |- shrinks (match ?x with _ => _ end) => destruct x
  | |- shrinks _ => solve [auto with shrinks]
  end.
Ltac shrinks_tac := repeat shrinks_step.

Ltac consumes_step :=
  match goal with
  | |- forall _, _ => intro
  | |- consumes (sys _) => apply consumes_sys
  | |- consumes (stop _) => apply consumes_stop
  | |- consumes (exit _) => apply consumes_stop
  | |- consumes (bind get_glob _) => apply consumes_bind_r; [apply shrinks_get_glob|]
  | |- consumes (bind (sys _) _) => apply consumes_bind_l; [apply consumes_sys|shrinks_tac]
  | |- consumes (if ?b then _ else _) => destruct b
  | |- consumes (match ?x with _ => _ end) => destruct x
  end.
Ltac consumes_tac := repeat consumes_step.

Lemma shrinks_errno_exit {A} msg : shrinks (@errno_exit A msg).
Proof. unfold errno_exit. shrinks_tac. Qed.
#[export] Hint Resolve shrinks_errno_exit : shrinks.

Lemma xioctl_body_consumes fh request arg : consumes (xioctl_body fh request arg).
Proof. unfold xioctl_body. consumes_tac. Qed.

Lemma xioctl_consumes fh request arg : consumes (xioctl fh request arg).
Proof. unfold xioctl. apply consumes_loop. intros a. apply xioctl_body_consumes. Qed.

Lemma xioctl_shrinks fh request arg : shrinks (xioctl fh request arg).
Proof. unfold xioctl, xioctl_body. shrinks_tac. Qed.
#[export] Hint Resolve xioctl_shrinks : shrinks.

Lemma process_image_shrinks p size : shrinks (process_image p size).
Proof. unfold process_image. shrinks_tac. Qed.
#[export] Hint Resolve process_image_shrinks : shrinks.

Lemma load_buffer_shrinks i : shrinks (load_buffer i).
Proof. unfold load_buffer. shrinks_tac. Qed.
#[export] Hint Resolve load_buffer_shrinks : shrinks.

Lemma store_buffer_shrinks i f : shrinks (store_buffer i f).
Proof. unfold store_buffer. shrinks_tac. Qed.
#[export] Hint Resolve store_buffer_shrinks : shrinks.

Lemma read_frame_shrinks : shrinks read_frame.
Proof. unfold read_frame. shrinks_tac. Qed.
#[export] Hint Resolve read_frame_shrinks : shrinks.

Lemma select_loop_consumes : consumes select_loop.
Proof. unfold select_loop. apply consumes_loop. unfold select_body. consumes_tac. Qed.

Lemma select_loop_shrinks : shrinks select_loop.
Proof. unfold select_loop, select_body. shrinks_tac. Qed.
#[export] Hint Resolve select_loop_shrinks : shrinks.

Lemma usage_shrinks fp argv : shrinks (usage fp argv).
Proof. unfold usage. shrinks_tac. Qed.
#[export] Hint Resolve usage_shrinks : shrinks.

Lemma mainloop_body_progresses : progresses mainloop_body.
Proof.
  intros count s a' s'. unfold mainloop_body. destruct (count >? 0); [|discriminate].
  apply consumes_bind_l; [apply select_loop_consumes|shrinks_tac].
Qed.

Lemma queue_body_progresses : progresses queue_body.
Proof.
  intros i s a' s'. unfold queue_body. unfold bind at 1, get_glob.
  destruct (i <? n_buffers (glob s)); [|discriminate].
  apply consumes_bind_l; [apply xioctl_consumes|shrinks_tac].
Qed.

Lemma munmap_body_progresses : progresses munmap_body.
Proof.
  intros i s a' s'. unfold munmap_body. unfold bind at 1, get_glob.
  destruct (i <? n_buffers (glob s)); [|discriminate].
  apply consumes_bind_r; [apply load_buffer_shrinks|]. intros b.
  apply consumes_bind_l; [apply consumes_sys|shrinks_tac].
Qed.

Lemma map_body_progresses count : progresses (map_body count).
Proof.
  intros i s a' s'. unfold map_body. unfold bind at 1, get_glob.
  destruct (n_buffers (glob s) <? count); [|discriminate].
  apply consumes_bind_l; [apply xioctl_consumes|shrinks_tac].
Qed.

Lemma getopt_body_progresses argv : progresses (getopt_body argv).
Proof.
  intros i s a' s'. unfold getopt_body.
  apply consumes_bind_l; [apply consumes_sys|shrinks_tac].
Qed.

Lemma xioctl_body_progresses fh request : progresses (xioctl_body fh request).
Proof. apply consumes_progresses, xioctl_body_consumes. Qed.

Lemma select_body_progresses : progresses select_body.
Proof.
  apply consumes_progresses. intros u. unfold select_body. consumes_tac.
Qed.

#[export] Hint Resolve queue_body_progresses munmap_body_progresses
  map_body_progresses getopt_body_progresses xioctl_body_progresses
  select_body_progresses mainloop_body_progresses : progress.

(** ** Running the program's steps on a known answer *)

Lemma bind_ret {A B} (m : M A) (k : A -> M B) s a s' :
  m s = Ret a s' -> bind m k s = k a s'.
Proof. intros H. unfold bind. rewrite H. reflexivity. Qed.

Lemma bind_halt {A B} (m : M A) (k : A -> M B) s h s' :
  m s = Halt h s' -> bind m k s = Halt h s'.
Proof. intros H. unfold bind. rewrite H. reflexivity. Qed.

Lemma sys_answer c r rest s :
  script s = r :: rest -> sys c s = Ret r (answered c r rest s).
Proof. intros H. unfold sys. rewrite H. reflexivity. Qed.

Lemma sys_blocked c s : script s = [] -> sys c s = Halt blocked s.
Proof. intros H. unfold sys. rewrite H. reflexivity. Qed.

(** An ioctl that succeeds is issued once. *)
Lemma xioctl_success fh request arg r rest s :
  script s = r :: rest -> r_ret r <> -1 ->
  xioctl fh request arg s
  = Ret (r_ret r, written r arg) (answered (call_ioctl fh request arg) r rest s).
Proof.
  intros Hs Hr. unfold xioctl. rewrite loop_unfold by auto with progress.
  unfold xioctl_body at 1. rewrite (bind_ret _ _ _ _ _ (sys_answer _ _ _ _ Hs)).
  unfold bind, get_errno. apply Z.eqb_neq in Hr. rewrite Hr. reflexivity.
Qed.

(** An ioctl that fails with an error other than EINTR is issued once. *)
Lemma xioctl_failure fh request arg r rest s :
  script s = r :: rest ->
  errno (answered (call_ioctl fh request arg) r rest s) <> EINTR ->
  xioctl fh request arg s
  = Ret (r_ret r, written r arg) (answered (call_ioctl fh request arg) r rest s).
Proof.
  intros Hs He. unfold xioctl. rewrite loop_unfold by auto with progress.
  unfold xioctl_body at 1. rewrite (bind_ret _ _ _ _ _ (sys_answer _ _ _ _ Hs)).
  unfold bind, get_errno. apply Z.eqb_neq in He. rewrite He, andb_false_r. reflexivity.
Qed.

(** An ioctl that fails with EINTR is issued again. *)
Lemma xioctl_retry fh request arg r rest s :
  script s = r :: rest -> r_ret r = -1 ->
  errno (answered (call_ioctl fh request arg) r rest s) = EINTR ->
  xioctl fh request arg s
  = xioctl fh request (written r arg) (answered (call_ioctl fh request arg) r rest s).
Proof.
  intros Hs Hr He. unfold xioctl. rewrite loop_unfold by auto with progress.
  unfold xioctl_body at 1. rewrite (bind_ret _ _ _ _ _ (sys_answer _ _ _ _ Hs)).
  unfold bind, get_errno. rewrite He, Hr. reflexivity.
Qed.
Ltac run :=
  cbv beta iota zeta delta
    [bind ret continue break get_glob update_glob get_errno set_errno emit
     stop exit answered log with_glob with_errno];
  cbn [glob errno script trace].

Ltac run_in H :=
  cbv beta iota zeta delta
    [bind ret continue break get_glob update_glob get_errno set_errno emit
     stop exit answered log with_glob with_errno] in H;
  cbn [glob errno script trace] in H.

Lemma read_frame_not_ready r rest s :
  script s = r :: rest -> r_ret r = -1 ->
  errno (answered (call_ioctl (fd (glob s)) VIDIOC_DQBUF (arg_buffer (fresh_buffer 0))) r rest s) = EAGAIN ->
  read_frame s
  = Ret 0 (answered (call_ioctl (fd (glob s)) VIDIOC_DQBUF (arg_buffer (fresh_buffer 0))) r rest s).
Proof.
  intros Hs Hr He. unfold read_frame. run.
  rewrite (xioctl_failure _ _ _ _ _ _ Hs) by (rewrite He; discriminate).
  rewrite Hr, Z.eqb_refl. run. run_in He. rewrite He. reflexivity.
Qed.


Lemma read_frame_frame r q rest s b :
  script s = r :: q :: rest -> r_ret r <> -1 -> r_ret q <> -1 ->
  let buf := the_buffer (written r (arg_buffer (fresh_buffer 0))) (fresh_buffer 0) in
  0 <= buf_index buf < n_buffers (glob s) ->
  buffers_mem (glob s) !! Z.to_nat (buf_index buf) = Some b ->
  exists s',
    read_frame s = Ret 1 s' /\ glob s' = glob s /\ script s' = rest /\
    trace s' = frame_events (glob s) r q b ++ trace s.
Proof.
  intros Hs Hr Hq buf [Hi0 Hi] Hb. subst buf. unfold read_frame. run.
  rewrite (xioctl_success _ _ _ _ _ _ Hs Hr).
  apply Z.eqb_neq in Hr. rewrite Hr.
  apply Z.ltb_lt in Hi. rewrite Hi. unfold load_buffer. run.
  apply Z.leb_le in Hi0. rewrite Hi0, Hb. unfold process_image. run.
  apply Z.eqb_neq in Hq. unfold frame_events.
  destruct (out_buf (glob s) =? 0) eqn:Eo; cbn [negb];
    (erewrite xioctl_success by (first [reflexivity|apply Z.eqb_neq, Hq]));
     rewrite Hq; eexists; (split; [reflexivity|]); repeat split.
Qed.

Lemma select_body_interrupted r rest s :
  script s = r :: rest -> r_ret r = -1 ->
  let s1 := answered (call_select (fd (glob s) + 1) (fd (glob s)) 2 0) r rest s in
  errno s1 = EINTR ->
  select_body tt s = Ret (inl tt) s1.
Proof.
  intros Hs Hr s1 He. subst s1. unfold select_body. run. unfold sys. rewrite Hs. run.
  run_in He. rewrite Hr. simpl (-1 =? -1). run. rewrite He. reflexivity.
Qed.


Lemma select_body_ready r rest s :
  script s = r :: rest -> r_ret r <> -1 -> r_ret r <> 0 ->
  select_body tt s
  = (let* f := read_frame in if negb (f =? 0) then break tt else continue tt)
      (answered (call_select (fd (glob s) + 1) (fd (glob s)) 2 0) r rest s).
Proof.
  intros Hs H1 H0. unfold select_body. run. unfold sys. rewrite Hs. run.
  apply Z.eqb_neq in H1, H0. rewrite H1, H0. reflexivity.
Qed.

Lemma select_loop_unfold s :
  select_loop s =
    match select_body tt s with
    | Ret (inl _) s' => select_loop s'
    | Ret (inr _) s' => Ret tt s'
    | Halt h s' => Halt h s'
    end.
Proof.
  unfold select_loop. rewrite loop_unfold by auto with progress.
  destruct (select_body tt s) as [[[]|[]] s'|h s']; reflexivity.
Qed.

Lemma mainloop_body_unfold count s :
  loop mainloop_body count s =
    if count >? 0 then
      match select_loop s with
      | Ret _ s' => loop mainloop_body (to_uint (count - 1)) s'
      | Halt h s' => Halt h s'
      end
    else Ret tt s.
Proof.
  rewrite loop_unfold by auto with progress. unfold mainloop_body at 1.
  destruct (count >? 0); [|reflexivity].
  unfold bind. destruct (select_loop s); reflexivity.
Qed.
(** ** Observations on traces *)

Lemma delivered_app a b : delivered (a ++ b) = (delivered a + delivered b)%nat.
Proof. unfold delivered. rewrite List.filter_app, length_app. reflexivity. Qed.

Lemma waits_app a b : waits (a ++ b) = (waits a + waits b)%nat.
Proof. unfold waits. rewrite List.filter_app, length_app. reflexivity. Qed.

Lemma traffic_app a b : traffic (a ++ b) = traffic b ++ traffic a.
Proof. unfold traffic. rewrite rev_app_distr, omap_app. reflexivity. Qed.

Lemma traffic_cons e tr :
  traffic (e :: tr) = traffic tr ++ match transfer_of e with Some t => [t] | None => [] end.
Proof.
  change (e :: tr) with ([e] ++ tr). rewrite traffic_app. reflexivity.
Qed.

Lemma to_uint_small x : 0 <= x < 2 ^ 32 -> to_uint x = x.
Proof. intros H. unfold to_uint. apply Z.mod_small. exact H. Qed.

Lemma to_uint_range x : 0 <= to_uint x < 2 ^ 32.
Proof. unfold to_uint. apply Z.mod_pos_bound. lia. Qed.

(** What ioctl leaves behind a v4l2_buffer is a v4l2_buffer. *)
Lemma written_buffer r b : exists b', written r (arg_buffer b) = arg_buffer b'.
Proof.
  unfold written. destruct (r_ret r =? -1); [eexists; reflexivity|].
  destruct (r_out r) as [|[]| |]; eexists; reflexivity.
Qed.

Lemma the_buffer_written r b d d' :
  the_buffer (written r (arg_buffer b)) d = the_buffer (written r (arg_buffer b)) d'.
Proof. destruct (written_buffer r b) as [b' ->]. reflexivity. Qed.

Lemma frame_events_delivered g r q b : delivered (frame_events g r q b) = 1%nat.
Proof. unfold frame_events. destruct (out_buf g =? 0); reflexivity. Qed.

Lemma frame_events_waits g r q b : waits (frame_events g r q b) = 0%nat.
Proof. unfold frame_events. destruct (out_buf g =? 0); reflexivity. Qed.

Lemma frame_events_traffic g r q b :
  r_ret r <> -1 -> r_ret q <> -1 ->
  traffic (frame_events g r q b) =
    let i := buf_index (the_buffer (written r (arg_buffer (fresh_buffer 0))) (fresh_buffer 0)) in
    [to_process i; to_device i].
Proof.
  intros Hr Hq. apply Z.eqb_neq in Hr, Hq. unfold frame_events.
  destruct (out_buf g =? 0); unfold traffic; cbn; rewrite Hr, Hq;
    rewrite (the_buffer_written r _ clear_buffer (fresh_buffer 0)); reflexivity.
Qed.

(** One round of a cooperative device takes the for (;;) loop to its
    break. *)
Lemma select_loop_round rd rest s :
  round_ok (glob s) rd ->
  script s = round_script rd ++ rest ->
  exists s',
    select_loop s = Ret tt s' /\ glob s' = glob s /\ script s' = rest /\
    trace s' = round_events (glob s) rd ++ trace s.
Proof.
  destruct rd as [hs i u]. unfold round_ok, round_script, round_events.
  cbn [hiccups frame_index frame_used].
  intros (Hi & Hi32 & [b Hb]). rewrite Hb. revert s Hi Hb.
  induction hs as [|h hs IH]; intros s Hi Hb Hs.
  - cbn [flat_map app] in Hs. rewrite select_loop_unfold.
    rewrite (select_body_ready _ _ _ Hs) by discriminate.
    set (s1 := answered _ _ _ s).
    assert (Hidx : buf_index (the_buffer (written (dequeued i u) (arg_buffer (fresh_buffer 0)))
                     (fresh_buffer 0)) = i).
    { cbn. apply to_uint_small. lia. }
    destruct (read_frame_frame (dequeued i u) (ok 0) rest s1 b) as (s2 & Hrf & Hg & Hsc & Htr);
      try reflexivity; try discriminate.
    { rewrite Hidx. exact Hi. }
    { rewrite Hidx. exact Hb. }
    unfold bind. rewrite Hrf. cbn [Z.eqb negb break ret].
    exists s2. split; [reflexivity|]. split; [exact Hg|]. split; [exact Hsc|].
    rewrite Htr, <- app_assoc. reflexivity.
  - cbn [rev]. rewrite flat_map_app. cbn [flat_map]. rewrite app_nil_r.
    destruct h; cbn [flat_map hiccup_script app] in Hs; rewrite select_loop_unfold.
    + erewrite select_body_interrupted by (first [exact Hs|reflexivity]).
      set (s1 := answered _ _ _ s).
      destruct (IH s1 Hi Hb eq_refl) as (s2 & Hl & Hg & Hsc & Htr).
      exists s2. split; [exact Hl|]. split; [exact Hg|]. split; [exact Hsc|].
      rewrite Htr. cbn [glob trace answered s1 hiccup_events].
      rewrite <- !app_assoc, <- app_comm_cons. cbn [app]. rewrite <- app_assoc. reflexivity.
    + rewrite (select_body_ready _ _ _ Hs) by discriminate.
      set (s1 := answered _ _ _ s).
      unfold bind. erewrite read_frame_not_ready by reflexivity.
      cbn [Z.eqb negb continue ret].
      set (s1' := answered _ _ _ s1).
      destruct (IH s1' Hi Hb eq_refl) as (s2 & Hl & Hg & Hsc & Htr).
      exists s2. split; [exact Hl|]. split; [exact Hg|]. split; [exact Hsc|].
      rewrite Htr. cbn [glob trace answered s1 s1' hiccup_events].
      rewrite <- !app_assoc, <- app_comm_cons. cbn [app]. rewrite <- app_assoc. reflexivity.
Qed.
Lemma rounds_events_cons g rd rounds :
  rounds_events g (rd :: rounds) = rounds_events g rounds ++ round_events g rd.
Proof.
  unfold rounds_events. cbn [rev]. rewrite flat_map_app. cbn [flat_map].
  rewrite app_nil_r. reflexivity.
Qed.

(** The while loop runs one round per unit of its counter. *)
Lemma mainloop_body_rounds rounds rest s count :
  Forall (round_ok (glob s)) rounds ->
  Z.of_nat (length rounds) <= count < 2 ^ 32 ->
  script s = flat_map round_script rounds ++ rest ->
  exists s',
    loop mainloop_body count s
      = loop mainloop_body (count - Z.of_nat (length rounds)) s' /\
    glob s' = glob s /\ script s' = rest /\
    trace s' = rounds_events (glob s) rounds ++ trace s.
Proof.
  revert s count. induction rounds as [|rd rounds IH]; intros s count Hok Hc Hs.
  - exists s. cbn [length Z.of_nat]. rewrite Z.sub_0_r. repeat split. exact Hs.
  - rewrite mainloop_body_unfold. cbn [length] in Hc.
    replace (count >? 0) with true by (symmetry; apply Z.gtb_lt; lia).
    apply Forall_cons in Hok as [Hrd Hok].
    cbn [flat_map] in Hs. rewrite <- app_assoc in Hs.
    destruct (select_loop_round rd _ s Hrd Hs) as (s1 & Hl & Hg & Hsc & Htr).
    rewrite Hl. rewrite <- Hg in Hok.
    destruct (IH s1 (to_uint (count - 1)) Hok) as (s2 & Hl2 & Hg2 & Hsc2 & Htr2).
    { rewrite to_uint_small; lia. }
    { exact Hsc. }
    exists s2. split.
    { rewrite Hl2. f_equal. rewrite to_uint_small by lia. cbn [length]. lia. }
    split; [congruence|]. split; [exact Hsc2|].
    rewrite Htr2, Htr, Hg, rounds_events_cons, app_assoc. reflexivity.
Qed.

Lemma mainloop_rounds rounds rest s :
  Forall (round_ok (glob s)) rounds ->
  Z.of_nat (length rounds) = to_uint (frame_count (glob s)) ->
  script s = flat_map round_script rounds ++ rest ->
  exists s',
    mainloop s = Ret tt s' /\ glob s' = glob s /\ script s' = rest /\
    trace s' = rounds_events (glob s) rounds ++ trace s.
Proof.
  intros Hok Hc Hs. unfold mainloop. unfold bind, get_glob.
  pose proof (to_uint_range (frame_count (glob s))) as Hr.
  destruct (mainloop_body_rounds rounds rest s (to_uint (frame_count (glob s))) Hok)
    as (s' & Hl & Hrest); [lia|exact Hs|].
  exists s'. split; [|exact Hrest].
  rewrite Hl, <- Hc, Z.sub_diag, mainloop_body_unfold. reflexivity.
Qed.

(** With the counter not yet at zero and no answer left, the loop is
    still waiting. *)
Lemma mainloop_body_starved count s :
  0 < count -> script s = [] -> loop mainloop_body count s = Halt blocked s.
Proof.
  intros Hc Hs. rewrite mainloop_body_unfold.
  replace (count >? 0) with true by (symmetry; apply Z.gtb_lt; lia).
  rewrite select_loop_unfold. unfold select_body. run. unfold sys. rewrite Hs. reflexivity.
Qed.

Lemma round_events_delivered g rd :
  round_ok g rd -> delivered (round_events g rd) = 1%nat.
Proof.
  intros (_ & _ & [b Hb]). unfold round_events. rewrite Hb.
  rewrite delivered_app, frame_events_delivered. cbn [delivered List.filter is_marker].
  induction (rev (hiccups rd)) as [|[] l IH]; cbn; [reflexivity|exact IH..].
Qed.

Lemma round_events_waits g rd :
  round_ok g rd -> waits (round_events g rd) = S (length (hiccups rd)).
Proof.
  intros (_ & _ & [b Hb]). unfold round_events. rewrite Hb.
  rewrite waits_app, frame_events_waits. rewrite <- (length_rev (hiccups rd)).
  change (Call (wait_call g) ready :: ?l) with ([Call (wait_call g) ready] ++ l).
  rewrite waits_app. cbn [waits List.filter is_wait wait_call length Nat.add]. f_equal.
  induction (rev (hiccups rd)) as [|[] l IH]; cbn; [reflexivity|f_equal; exact IH..].
Qed.

Lemma round_events_traffic g rd :
  round_ok g rd -> traffic (round_events g rd) = round_traffic rd.
Proof.
  intros (Hi & H32 & [b Hb]). unfold round_events. rewrite Hb.
  rewrite traffic_app, frame_events_traffic by discriminate.
  cbv zeta. replace (traffic (_ :: _)) with (@nil transfer).
  - cbn. rewrite to_uint_small by lia. reflexivity.
  - rewrite traffic_cons. cbn [transfer_of wait_call app]. rewrite app_nil_r.
    induction (rev (hiccups rd)) as [|[] l IH]; [reflexivity|..];
      cbn [flat_map hiccup_events app]; rewrite !traffic_cons; cbn; rewrite ?app_nil_r; exact IH.
Qed.

Lemma rounds_events_delivered g rounds :
  Forall (round_ok g) rounds -> delivered (rounds_events g rounds) = length rounds.
Proof.
  induction 1 as [|rd rounds Hrd _ IH]; [reflexivity|].
  rewrite rounds_events_cons, delivered_app, IH, round_events_delivered by exact Hrd.
  cbn [length]. lia.
Qed.

Lemma rounds_events_waits g rounds :
  Forall (round_ok g) rounds ->
  waits (rounds_events g rounds) = (length rounds + length (flat_map hiccups rounds))%nat.
Proof.
  induction 1 as [|rd rounds Hrd _ IH]; [reflexivity|].
  rewrite rounds_events_cons, waits_app, IH, round_events_waits by exact Hrd.
  cbn [length flat_map]. rewrite length_app. lia.
Qed.

Lemma rounds_events_traffic g rounds :
  Forall (round_ok g) rounds ->
  traffic (rounds_events g rounds) = flat_map round_traffic rounds.
Proof.
  induction 1 as [|rd rounds Hrd _ IH]; [reflexivity|].
  rewrite rounds_events_cons, traffic_app, IH, round_events_traffic by exact Hrd.
  reflexivity.
Qed.
Ltac eval_chr :=
  repeat match goal with
         | |- context [chr ?a =? ?b] =>
             let v := eval vm_compute in (chr a =? b) in
             change (chr a =? b) with v
         end;
  cbv beta iota.

Lemma getopt_body_unfold argv s :
  parse_options argv s =
    match getopt_body argv tt s with
    | Ret (inl _) s' => parse_options argv s'
    | Ret (inr _) s' => Ret tt s'
    | Halt h s' => Halt h s'
    end.
Proof.
  unfold parse_options. rewrite loop_unfold by auto with progress.
  destruct (getopt_body argv tt s) as [[[]|[]] s'|h s']; reflexivity.
Qed.

(** The option -c: errno is cleared, strtol converts the argument, the
    result is stored in the int frame_count, and only an error of strtol
    ends the program. *)
Lemma getopt_body_count argv r v rest s :
  script s = r :: v :: rest -> r_ret r = chr "c"%char -> r_errno v = 0 ->
  getopt_body argv tt s
  = Ret (inl tt)
      (with_glob (set_frame_count (to_int (r_ret v)) (glob s))
         (answered (call_strtol (match r_out r with wrote_optarg a => a | _ => "" end) 0)
            v rest
            (with_errno 0 (answered (call_getopt_long argv short_options long_options)
                             r (v :: rest) s)))).
Proof.
  intros Hs Hr He. unfold getopt_body. run. unfold sys. rewrite Hs. run.
  rewrite Hr. eval_chr. run. rewrite He. reflexivity.
Qed.

(** An option character for which the switch has no case. *)
Lemma getopt_body_default argv r rest s :
  script s = r :: rest ->
  r_ret r <> -1 -> r_ret r <> 0 -> r_ret r <> chr "d"%char -> r_ret r <> chr "h"%char ->
  r_ret r <> chr "o"%char -> r_ret r <> chr "c"%char ->
  getopt_body argv tt s
  = Halt (exited EXIT_FAILURE)
      (log (Fprintf stderr usage_text
              [fmt_s (hd "" argv); fmt_s (dev_name (glob s)); fmt_d (frame_count (glob s))])
         (answered (call_getopt_long argv short_options long_options) r rest s)).
Proof.
  intros Hs H1 H2 H3 H4 H5 H6. unfold getopt_body. run. unfold sys. rewrite Hs. run.
  apply Z.eqb_neq in H1, H2, H3, H4, H5, H6. rewrite H1, H2, H3, H4, H5, H6.
  unfold usage. run. reflexivity.
Qed.
(** ** What xioctl does, whatever the answers *)

Lemma written_failed r arg : r_ret r = -1 -> written r arg = arg.
Proof. intros H. unfold written. rewrite H. reflexivity. Qed.

(** xioctl issues the same ioctl again and again while it fails with
    EINTR; it returns the result of the last one, or the script runs out. *)
Lemma xioctl_spec fh request arg s :
  exists retries,
    Forall (fun rep => r_ret rep = -1) retries /\
    match xioctl fh request arg s with
    | Ret (r, a) s' =>
        exists rep,
          script s = retries ++ rep :: script s' /\
          glob s' = glob s /\
          trace s' = Call (call_ioctl fh request arg) rep
                       :: map (Call (call_ioctl fh request arg)) (rev retries) ++ trace s /\
          r = r_ret rep /\ a = written rep arg
    | Halt h s' =>
        h = blocked /\ script s = retries /\ script s' = [] /\ glob s' = glob s /\
        trace s' = map (Call (call_ioctl fh request arg)) (rev retries) ++ trace s
    end.
Proof.
  unfold xioctl.
  apply (loop_invariant (xioctl_body fh request)
    (fun arg' s' => arg' = arg /\ exists retries,
       Forall (fun rep => r_ret rep = -1) retries /\
       script s = retries ++ script s' /\ glob s' = glob s /\
       trace s' = map (Call (call_ioctl fh request arg)) (rev retries) ++ trace s)
    (fun res => exists retries,
       Forall (fun rep => r_ret rep = -1) retries /\
       match res with
       | Ret (r, a) s' =>
           exists rep,
             script s = retries ++ rep :: script s' /\
             glob s' = glob s /\
             trace s' = Call (call_ioctl fh request arg) rep
                          :: map (Call (call_ioctl fh request arg)) (rev retries) ++ trace s /\
             r = r_ret rep /\ a = written rep arg
       | Halt h s' =>
           h = blocked /\ script s = retries /\ script s' = [] /\ glob s' = glob s /\
           trace s' = map (Call (call_ioctl fh request arg)) (rev retries) ++ trace s
       end)); [auto with progress| |].
  - intros arg' s' (-> & retries & Hall & Hsc & Hg & Htr).
    unfold xioctl_body. run. unfold sys.
    destruct (script s') as [|rep rest] eqn:Es.
    + exists retries. split; [exact Hall|]. rewrite app_nil_r in Hsc. repeat split; assumption.
    + run. destruct (r_ret rep =? -1) eqn:Er; cbn [andb].
      * apply Z.eqb_eq in Er.
        destruct (_ =? EINTR).
        -- split; [apply written_failed, Er|]. exists (retries ++ [rep]).
           split; [apply Forall_app; split; [exact Hall|repeat constructor; exact Er]|].
           cbn [script glob trace]. rewrite <- app_assoc. split; [exact Hsc|]. split; [exact Hg|].
           rewrite rev_app_distr. cbn [rev app map]. rewrite Htr. reflexivity.
        -- exists retries. split; [exact Hall|]. exists rep. cbn [script glob trace].
           repeat split; try assumption. rewrite Htr. reflexivity.
      * exists retries. split; [exact Hall|]. exists rep. cbn [script glob trace].
        repeat split; try assumption. rewrite Htr. reflexivity.
  - split; [reflexivity|]. exists []. repeat split. constructor.
Qed.
(** ** What a function may add to the trace *)

Lemma emits_ret {A} E (a : A) : emits E (ret a).
Proof. intros s. exists []. split; reflexivity. Qed.

Lemma emits_stop {A} E h : emits E (@stop A h).
Proof. intros s. exists []. split; reflexivity. Qed.

Lemma emits_get_glob E : emits E get_glob.
Proof. intros s. exists []. split; reflexivity. Qed.

Lemma emits_update_glob E f : emits E (update_glob f).
Proof. intros s. exists []. split; reflexivity. Qed.

Lemma emits_get_errno E : emits E get_errno.
Proof. intros s. exists []. split; reflexivity. Qed.

Lemma emits_set_errno E e : emits E (set_errno e).
Proof. intros s. exists []. split; reflexivity. Qed.

Lemma emits_emit (E : event -> bool) e : E e = true -> emits E (emit e).
Proof. intros H s. exists [e]. split; [reflexivity|]. cbn. rewrite H. reflexivity. Qed.

Lemma emits_sys (E : event -> bool) c :
  (forall r, E (Call c r) = true) -> emits E (sys c).
Proof.
  intros H s. unfold sys. destruct (script s) as [|r rest].
  - exists []. split; reflexivity.
  - exists [Call c r]. split; [reflexivity|]. cbn. rewrite H. reflexivity.
Qed.

Lemma emits_bind {A B} E (m : M A) (k : A -> M B) :
  emits E m -> (forall a, emits E (k a)) -> emits E (bind m k).
Proof.
  intros Hm Hk s. unfold bind. destruct (Hm s) as (new1 & Ht1 & Hf1).
  destruct (m s) as [a s1|h s1]; cbn [final_state] in *.
  - destruct (Hk a s1) as (new2 & Ht2 & Hf2). exists (new2 ++ new1).
    rewrite Ht2, Ht1, app_assoc, forallb_app, Hf1, Hf2. split; reflexivity.
  - exists new1. split; assumption.
Qed.

Lemma emits_loop_fuel {A B} E (body : A -> M (A + B)) :
  (forall a, emits E (body a)) -> forall n a, emits E (loop_fuel n body a).
Proof.
  intros Hb n. induction n as [|n IH]; intros a s; cbn [loop_fuel].
  - exists []. split; reflexivity.
  - destruct (Hb a s) as (new1 & Ht1 & Hf1).
    destruct (body a s) as [[a'|b] s1|h s1]; cbn [final_state] in *.
    + destruct (IH a' s1) as (new2 & Ht2 & Hf2). exists (new2 ++ new1).
      rewrite Ht2, Ht1, app_assoc, forallb_app, Hf1, Hf2. split; reflexivity.
    + exists new1. split; assumption.
    + exists new1. split; assumption.
Qed.

Lemma emits_loop {A B} E (body : A -> M (A + B)) a :
  (forall a, emits E (body a)) -> emits E (loop body a).
Proof. intros Hb s. unfold loop. apply emits_loop_fuel, Hb. Qed.

Lemma emits_weaken {A} (E E' : event -> bool) (m : M A) :
  (forall e, E e = true -> E' e = true) -> emits E m -> emits E' m.
Proof.
  intros H Hm s. destruct (Hm s) as (new & Ht & Hf). exists new. split; [exact Ht|].
  apply forallb_forall. intros e He. apply H.
  rewrite forallb_forall in Hf. apply Hf, He.
Qed.

Create HintDb emits.
#[export] Hint Resolve emits_ret emits_stop emits_get_glob emits_update_glob
  emits_get_errno emits_set_errno : emits.

Ltac emits_step :=
  match goal with
  | |- forall _, _ => intro
  | |- emits _ (bind _ _) => apply emits_bind
  | |- emits _ (loop _ _) => apply emits_loop
  | |- emits _ (continue _) => apply emits_ret
  | |- emits _ (break _) => apply emits_ret
  | |- emits _ (exit _) => apply emits_stop
  | |- emits _ (if ?b then _ else _) => destruct b
  | |- emits _ (match ?x with _ => _ end) => destruct x
  | |- emits _ (emit _) => apply emits_emit; reflexivity
  | |- emits _ (sys _) => apply emits_sys; intros ?; reflexivity
  | H : allows ?E _ |- emits ?E (emit ?e) =>
      apply emits_emit; first [apply H; reflexivity | fail 1]
  | H : allows ?E _ |- emits ?E (sys ?c) =>
      apply emits_sys; intros ?; first [apply H; reflexivity | fail 1]
  | |- emits _ _ => solve [auto with emits]
  end.
Ltac emits_tac := repeat emits_step.

Lemma errno_exit_emits {A} E msg : allows E k_message -> emits E (@errno_exit A msg).
Proof. intros H. unfold errno_exit. emits_tac. Qed.

Lemma xioctl_emits E fh request arg :
  allows E (k_ioctl request) -> emits E (xioctl fh request arg).
Proof. intros H. unfold xioctl, xioctl_body. emits_tac. Qed.

Lemma process_image_emits E p size :
  allows E k_fwrite -> allows E k_fflush -> allows E k_marker ->
  emits E (process_image p size).
Proof. intros H1 H2 H3. unfold process_image. emits_tac. Qed.

Lemma load_buffer_emits E i : emits E (load_buffer i).
Proof. unfold load_buffer. emits_tac. Qed.

Lemma store_buffer_emits E i f : emits E (store_buffer i f).
Proof. unfold store_buffer. emits_tac. apply load_buffer_emits. Qed.

#[export] Hint Resolve errno_exit_emits xioctl_emits process_image_emits
  load_buffer_emits store_buffer_emits : emits.

Lemma read_frame_emits E :
  allows E (k_ioctl VIDIOC_DQBUF) -> allows E (k_ioctl VIDIOC_QBUF) ->
  allows E k_fwrite -> allows E k_fflush -> allows E k_marker -> allows E k_message ->
  emits E read_frame.
Proof. intros. unfold read_frame. emits_tac. Qed.
#[export] Hint Resolve read_frame_emits : emits.

Lemma select_loop_emits E :
  allows E k_select ->
  allows E (k_ioctl VIDIOC_DQBUF) -> allows E (k_ioctl VIDIOC_QBUF) ->
  allows E k_fwrite -> allows E k_fflush -> allows E k_marker -> allows E k_message ->
  emits E select_loop.
Proof. intros. unfold select_loop, select_body. emits_tac. Qed.
#[export] Hint Resolve select_loop_emits : emits.

Lemma mainloop_emits E :
  allows E k_select ->
  allows E (k_ioctl VIDIOC_DQBUF) -> allows E (k_ioctl VIDIOC_QBUF) ->
  allows E k_fwrite -> allows E k_fflush -> allows E k_marker -> allows E k_message ->
  emits E mainloop.
Proof. intros. unfold mainloop, mainloop_body. emits_tac. Qed.

Lemma start_capturing_emits E :
  allows E (k_ioctl VIDIOC_QBUF) -> allows E (k_ioctl VIDIOC_STREAMON) ->
  allows E k_message -> emits E start_capturing.
Proof. intros. unfold start_capturing, queue_body. emits_tac. Qed.

Lemma stop_capturing_emits E :
  allows E (k_ioctl VIDIOC_STREAMOFF) -> allows E k_message -> emits E stop_capturing.
Proof. intros. unfold stop_capturing. emits_tac. Qed.

Lemma uninit_device_emits E :
  allows E k_munmap -> allows E k_free -> allows E k_message -> emits E uninit_device.
Proof. intros. unfold uninit_device, munmap_body. emits_tac. Qed.

Lemma close_device_emits E :
  allows E k_close -> allows E k_message -> emits E close_device.
Proof. intros. unfold close_device. emits_tac. Qed.

Lemma open_device_emits E :
  allows E k_stat -> allows E k_open -> allows E k_message -> emits E open_device.
Proof. intros. unfold open_device. emits_tac. Qed.

Lemma usage_emits E fp argv : allows E k_message -> emits E (usage fp argv).
Proof. intros. unfold usage. destruct fp; emits_tac. Qed.
#[export] Hint Resolve usage_emits : emits.

Lemma parse_options_emits E argv :
  allows E k_getopt -> allows E k_strtol -> allows E k_message ->
  emits E (parse_options argv).
Proof. intros. unfold parse_options, getopt_body. emits_tac. Qed.

Lemma map_body_emits E count u :
  allows E (k_ioctl VIDIOC_QUERYBUF) -> allows E k_mmap -> allows E k_message ->
  emits E (map_body count u).
Proof. intros. unfold map_body. emits_tac. Qed.


Lemma init_mmap_emits E :
  allows E (k_ioctl VIDIOC_REQBUFS) -> allows E k_calloc ->
  allows E (k_ioctl VIDIOC_QUERYBUF) -> allows E k_mmap -> allows E k_message ->
  emits E init_mmap.
Proof. intros. unfold init_mmap. emits_tac. apply map_body_emits; assumption. Qed.
Lemma emits_unless_emits {A} E F L (m : M A) : emits E m -> emits_unless E F L m.
Proof.
  intros Hm s. destruct (Hm s) as (new & Ht & Hf). exists new. split; [exact Ht|].
  left. exact Hf.
Qed.

Lemma forallb_both E F l :
  forallb (both E F) l = true -> forallb E l = true /\ forallb F l = true.
Proof.
  induction l as [|e l IH]; cbn; [split; reflexivity|]. unfold both at 1.
  intros H. apply andb_true_iff in H as [He Hl]. apply andb_true_iff in He as [H1 H2].
  destruct (IH Hl) as [IH1 IH2]. rewrite H1, H2, IH1, IH2. split; reflexivity.
Qed.

(** A prefix that satisfies both predicates keeps either verdict. *)
Lemma emits_unless_bind_l {A B} E F L (m : M A) (k : A -> M B) :
  emits (both E F) m -> (forall a, emits_unless E F L (k a)) ->
  emits_unless E F L (bind m k).
Proof.
  intros Hm Hk s. unfold bind. destruct (Hm s) as (new1 & Ht1 & Hf1).
  apply forallb_both in Hf1 as [HE1 HF1].
  destruct (m s) as [a s1|h s1]; cbn [final_state] in *.
  - destruct (Hk a s1) as (new2 & Ht2 & Hf2). exists (new2 ++ new1).
    rewrite Ht2, Ht1, app_assoc, !forallb_app, HE1, HF1. split; [reflexivity|].
    destruct Hf2 as [Hf2|[Hh Hf2]]; rewrite Hf2; [left|right; split; [exact Hh|]]; reflexivity.
  - exists new1. split; [exact Ht1|]. left. exact HE1.
Qed.

(** Once the first part has returned, only [E] matters. *)
Lemma emits_unless_bind_r {A B} E F L (m : M A) (k : A -> M B) :
  emits_unless E F L m -> (forall a, emits E (k a)) ->
  emits_unless E F L (bind m k).
Proof.
  intros Hm Hk s. unfold bind. destruct (Hm s) as (new1 & Ht1 & Hf1).
  destruct (m s) as [a s1|h s1] eqn:Em; cbn [final_state] in *.
  - destruct (Hk a s1) as (new2 & Ht2 & Hf2). exists (new2 ++ new1).
    rewrite Ht2, Ht1, app_assoc, !forallb_app. split; [reflexivity|].
    destruct Hf1 as [Hf1|[(s' & Hh & _) _]]; [|discriminate]. left. rewrite Hf1, Hf2. reflexivity.
  - exists new1. split; [exact Ht1|].
    destruct Hf1 as [Hf1|[(s' & Hh & HL) Hf1]]; [left; exact Hf1|right].
    split; [|exact Hf1]. exists s1. injection Hh as -> ->. split; [reflexivity|exact HL].
Qed.

Lemma allows_both E F k : allows E k -> allows F k -> allows (both E F) k.
Proof. intros HE HF e Hk. unfold both. rewrite (HE e Hk), (HF e Hk). reflexivity. Qed.

(** *** Fewer than two buffers *)

Lemma insufficient_kind e : kind_of e <> k_ioctl VIDIOC_REQBUFS -> insufficient e = false.
Proof.
  destruct e as [[] r| | | |]; try reflexivity. destruct request; try reflexivity.
  intros H. contradiction H. reflexivity.
Qed.

Lemma allows_sufficient k :
  k <> k_ioctl VIDIOC_REQBUFS -> allows (fun e => negb (insufficient e)) k.
Proof. intros Hk e He. rewrite insufficient_kind; [reflexivity|congruence]. Qed.

Lemma allows_no_activity k :
  match k with
  | k_calloc | k_mmap | k_munmap | k_free
  | k_ioctl VIDIOC_QUERYBUF | k_ioctl VIDIOC_QBUF | k_ioctl VIDIOC_DQBUF
  | k_ioctl VIDIOC_STREAMON | k_ioctl VIDIOC_STREAMOFF
  | k_select | k_marker | k_fwrite => False
  | _ => True
  end -> allows (fun e => negb (capture_activity e)) k.
Proof.
  intros Hk e He. unfold capture_activity. rewrite He.
  destruct k as [| | | | |[]| | | | | | | | |]; try contradiction; reflexivity.
Qed.

Ltac allows_tac :=
  repeat match goal with
         | |- allows (both _ _) _ => apply allows_both
         | |- allows (fun e => negb (insufficient e)) _ =>
             apply allows_sufficient; discriminate
         | |- allows (fun e => negb (capture_activity e)) _ =>
             apply allows_no_activity; exact I
         end.

Lemma forallb_map_retries (E : event -> bool) c (retries : list reply) :
  (forall rep, r_ret rep = -1 -> E (Call c rep) = true) ->
  Forall (fun rep => r_ret rep = -1) retries ->
  forallb E (map (Call c) (rev retries)) = true.
Proof.
  intros HE Hall. apply forallb_forall. intros e He.
  apply in_map_iff in He as (rep & <- & Hin). apply HE.
  rewrite Forall_forall in Hall. apply Hall. apply list_elem_of_In, in_rev, Hin.
Qed.

(** init_mmap, as far as the reservation goes: the only event of a run
    that can show fewer than two buffers granted is its last call, and then
    the run ends with status 1 having done nothing with buffers. *)
Lemma init_mmap_insufficient_unless :
  emits_unless (fun e => negb (insufficient e)) (fun e => negb (capture_activity e))
    (fun tr => reports_insufficient tr = true) init_mmap.
Proof.
  set (E := fun e => negb (insufficient e)). set (F := fun e => negb (capture_activity e)).
  intros s. remember (init_mmap s) as res eqn:Hres.
  unfold init_mmap in Hres. unfold bind at 1, get_glob in Hres. cbv zeta in Hres.
  unfold bind at 1 in Hres.
  set (arg := arg_requestbuffers _) in Hres.
  destruct (xioctl_spec (fd (glob s)) VIDIOC_REQBUFS arg s) as (retries & Hall & Hx).
  assert (HrE : forallb E (map (Call (call_ioctl (fd (glob s)) VIDIOC_REQBUFS arg)) (rev retries)) = true).
  { apply forallb_map_retries; [|exact Hall]. intros rep Hr. unfold E, insufficient.
    cbn. rewrite Hr. reflexivity. }
  assert (HrF : forallb F (map (Call (call_ioctl (fd (glob s)) VIDIOC_REQBUFS arg)) (rev retries)) = true).
  { apply forallb_map_retries; [|exact Hall]. intros rep Hr. reflexivity. }
  destruct (xioctl _ _ _ s) as [[r a] s1|h s1].
  - destruct Hx as (rep & Hsc & Hg & Htr & -> & ->).
    destruct (r_ret rep =? -1) eqn:Er.
    + (* the reservation failed *)
      assert (HE : E (Call (call_ioctl (fd (glob s)) VIDIOC_REQBUFS arg) rep) = true).
      { unfold E, insufficient. cbn. rewrite Er. reflexivity. }
      unfold bind at 1 in Hres. unfold bind at 1, get_errno in Hres.
      destruct (errno s1 =? EINVAL);
        [unfold bind at 1, emit at 1 in Hres; unfold exit, stop in Hres
        |unfold errno_exit in Hres; run_in Hres];
        subst res; cbn [final_state trace log]; rewrite Htr; eexists (_ :: _ :: _);
        (split; [reflexivity|]); left; cbn [forallb]; rewrite HE, HrE; reflexivity.
    + unfold bind at 1, ret at 1 in Hres. unfold bind at 1 in Hres.
      destruct (req_count _ <? 2) eqn:Ec.
      * (* fewer than two buffers *)
        unfold bind at 1, emit at 1 in Hres. unfold exit, stop in Hres. subst res.
        cbn [final_state trace log].
        rewrite Htr. eexists (_ :: _ :: _). split; [reflexivity|]. right.
        split; [eexists; split; reflexivity|]. cbn [forallb]. rewrite HrF. reflexivity.
      * (* enough: what follows asks for no reservation *)
        assert (HE : E (Call (call_ioctl (fd (glob s)) VIDIOC_REQBUFS arg) rep) = true).
        { unfold E, insufficient. cbn [granted_count]. rewrite Er.
          change four_buffers with {| req_count := 4; req_type := V4L2_BUF_TYPE_VIDEO_CAPTURE;
                                      req_memory := V4L2_MEMORY_MMAP |}.
          rewrite Ec. reflexivity. }
        unfold ret at 1 in Hres.
        match type of Hres with
        | res = ?m s1 => assert (Hrem : emits E m)
        end.
        { assert (allows E k_calloc) by (apply allows_sufficient; discriminate).
          assert (allows E k_message) by (apply allows_sufficient; discriminate).
          emits_tac. apply map_body_emits; try assumption;
            apply allows_sufficient; discriminate. }
        destruct (Hrem s1) as (new & Ht & Hf). rewrite <- Hres in Ht.
        exists (new ++ Call (call_ioctl (fd (glob s)) VIDIOC_REQBUFS arg) rep
                  :: map (Call (call_ioctl (fd (glob s)) VIDIOC_REQBUFS arg)) (rev retries)).
        rewrite Ht, Htr, <- app_assoc. split; [reflexivity|]. left.
        rewrite forallb_app, Hf. cbn [forallb]. rewrite HE, HrE. reflexivity.
  - destruct Hx as (-> & _ & _ & _ & Htr). subst res.
    exists (map (Call (call_ioctl (fd (glob s)) VIDIOC_REQBUFS arg)) (rev retries)).
    split; [exact Htr|]. left. exact HrE.
Qed.
Ltac unless_prefix :=
  repeat match goal with
         | |- forall _, _ => intro
         | |- emits_unless _ _ _ (let '(_, _) := ?p in _) => destruct p
         | |- emits_unless _ _ _ (bind init_mmap _) => fail 1
         | |- emits_unless _ _ _ (bind init_device _) => fail 1
         | |- emits_unless _ _ _ (bind _ _) =>
             apply emits_unless_bind_l; [solve [emits_tac]|]
         end.

(** Before init_mmap, init_device only asks the device what it is. *)
Lemma init_device_unless E F L :
  allows (both E F) (k_ioctl VIDIOC_QUERYCAP) ->
  allows (both E F) (k_ioctl VIDIOC_CROPCAP) ->
  allows (both E F) (k_ioctl VIDIOC_S_CROP) ->
  allows (both E F) (k_ioctl VIDIOC_S_FMT) ->
  allows (both E F) (k_ioctl VIDIOC_G_FMT) ->
  allows (both E F) k_message ->
  emits_unless E F L init_mmap -> emits_unless E F L init_device.
Proof.
  intros H1 H2 H3 H4 H5 H6 Hm. unfold init_device. cbv zeta. unless_prefix. exact Hm.
Qed.

Lemma main_unless E F L argv :
  allows (both E F) k_getopt -> allows (both E F) k_strtol ->
  allows (both E F) k_stat -> allows (both E F) k_open ->
  allows (both E F) k_message ->
  emits_unless E F L init_device ->
  emits E capture_and_teardown ->
  emits_unless E F L (main argv).
Proof.
  intros H1 H2 H3 H4 H5 Hi Ht. unfold main.
  apply emits_unless_bind_l; [emits_tac|intros _].
  apply emits_unless_bind_l; [apply parse_options_emits; assumption|intros _].
  apply emits_unless_bind_l; [apply open_device_emits; assumption|intros _].
  apply emits_unless_bind_r; [exact Hi|intros _; exact Ht].
Qed.

Lemma capture_and_teardown_emits E :
  allows E (k_ioctl VIDIOC_QBUF) -> allows E (k_ioctl VIDIOC_STREAMON) ->
  allows E k_select -> allows E (k_ioctl VIDIOC_DQBUF) ->
  allows E k_fwrite -> allows E k_fflush -> allows E k_marker -> allows E k_message ->
  allows E (k_ioctl VIDIOC_STREAMOFF) ->
  allows E k_munmap -> allows E k_free -> allows E k_close ->
  emits E capture_and_teardown.
Proof.
  intros. unfold capture_and_teardown.
  apply emits_bind; [apply start_capturing_emits; assumption|intros _].
  apply emits_bind; [apply mainloop_emits; assumption|intros _].
  apply emits_bind; [apply stop_capturing_emits; assumption|intros _].
  apply emits_bind; [apply uninit_device_emits; assumption|intros _].
  apply emits_bind; [apply close_device_emits; assumption|intros _].
  emits_tac.
Qed.

Lemma main_insufficient_unless argv :
  emits_unless (fun e => negb (insufficient e)) (fun e => negb (capture_activity e))
    (fun tr => reports_insufficient tr = true) (main argv).
Proof.
  apply main_unless; allows_tac.
  - apply init_device_unless; allows_tac. apply init_mmap_insufficient_unless.
  - apply capture_and_teardown_emits; apply allows_sufficient; discriminate.
Qed.

Lemma delivered_no_marker tr :
  forallb (fun e => negb (capture_activity e)) tr = true -> delivered tr = 0%nat.
Proof.
  induction tr as [|e tr IH]; [reflexivity|]. cbn [forallb]. intros H.
  apply andb_true_iff in H as [He Htr]. unfold delivered. cbn [List.filter].
  destruct (is_marker e) eqn:Em; [|apply IH, Htr].
  unfold capture_activity in He. destruct e as [| fp fmt args | | |]; try discriminate Em.
  cbn [kind_of] in He. rewrite Em in He. discriminate.
Qed.


(** ** The pool that init_mmap builds *)

Lemma granted_range rep :
  0 <= req_count (the_requestbuffers (written rep (arg_requestbuffers four_buffers)) four_buffers)
    < 2 ^ 32.
Proof.
  unfold written. destruct (r_ret rep =? -1); [cbn; lia|].
  destruct (r_out rep) as [|[]| |]; cbn; try lia. apply to_uint_range.
Qed.

Lemma failed_mmap_kind e : kind_of e <> k_mmap -> failed_mmap e = false.
Proof.
  destruct e as [[] r| | | |]; try reflexivity. intros H. contradiction H. reflexivity.
Qed.

Lemma existsb_failed_retries c (retries : list reply) :
  kind_of (Call c (ok 0)) <> k_mmap ->
  existsb failed_mmap (map (Call c) retries) = false.
Proof.
  intros Hk. induction retries as [|r l IH]; [reflexivity|]. cbn [map existsb].
  rewrite IH, orb_false_r. apply failed_mmap_kind. destruct c; try discriminate.
  contradiction Hk. reflexivity.
Qed.

Lemma map_loop_spec count tr0 s :
  count < 2 ^ 32 -> mapping count tr0 s ->
  mapping_done count tr0 (loop (map_body count) tt s).
Proof.
  intros H32. revert s.
  apply (loop_invariant (map_body count) (fun _ => mapping count tr0)
           (mapping_done count tr0)); [auto with progress|].
  intros [] s ((Hn0 & Hn) & Hlen & new & Htr & Hnew).
  remember (map_body count tt s) as res eqn:Hres.
  unfold map_body in Hres. unfold bind at 1, get_glob in Hres. cbv zeta in Hres.
  destruct (n_buffers (glob s) <? count) eqn:Elt.
  2:{ subst res. cbn. apply Z.ltb_ge in Elt. repeat split; try lia. eauto. }
  apply Z.ltb_lt in Elt. unfold bind at 1 in Hres.
  set (arg := arg_buffer _) in Hres.
  destruct (xioctl_spec (fd (glob s)) VIDIOC_QUERYBUF arg s) as (retries & Hall & Hx).
  destruct (xioctl _ _ _ s) as [[r a] s1|h s1].
  2:{ destruct Hx as (-> & _ & _ & _ & Htr1). subst res. repeat split; try discriminate.
      eexists. rewrite Htr1, Htr, app_assoc. split; [reflexivity|]. left.
      rewrite existsb_app, Hnew, existsb_failed_retries by discriminate. reflexivity. }
  destruct Hx as (rep & _ & Hg & Htr1 & -> & ->).
  assert (Hnew1 : exists new1, trace s1 = new1 ++ tr0 /\ existsb failed_mmap new1 = false).
  { eexists (_ :: _ ++ new). rewrite Htr1, Htr, app_comm_cons, app_assoc. split; [reflexivity|].
    cbn [existsb]. rewrite existsb_app, Hnew, existsb_failed_retries by discriminate.
    reflexivity. }
  destruct Hnew1 as (new1 & Htr1' & Hnew1). clear Htr1.
  destruct s1 as [g1 e1 sc1 t1]. cbn [glob trace] in Hg, Htr1'. subst g1 t1.
  unfold bind at 1 in Hres.
  destruct (r_ret rep =? -1).
  { unfold errno_exit in Hres. run_in Hres. subst res. repeat split; try discriminate.
    eexists (_ :: new1). cbn [trace]. split; [reflexivity|]. right. reflexivity. }
  unfold ret at 1 in Hres.
  (* buffers[n_buffers].length = buf.length *)
  assert (Hlook : exists b, buffers_mem (glob s) !! Z.to_nat (n_buffers (glob s)) = Some b).
  { apply lookup_lt_is_Some. lia. }
  destruct Hlook as [b Hb].
  assert (H0 : (0 <=? n_buffers (glob s)) = true) by (apply Z.leb_le; lia).
  unfold store_buffer at 1, load_buffer at 1 in Hres. run_in Hres.
  rewrite H0, Hb in Hres. cbv beta iota in Hres.
  unfold sys in Hres. cbn [script] in Hres.
  destruct sc1 as [|p rest].
  { subst res. repeat split; try discriminate. exists new1. cbn [trace].
    split; [reflexivity|]. left. exact Hnew1. }
  run_in Hres.
  unfold store_buffer at 1, load_buffer at 1 in Hres. run_in Hres.
  cbn [glob buffers_mem set_buffers] in Hres. rewrite H0 in Hres.
  rewrite list_lookup_insert_eq in Hres by lia. cbv beta iota in Hres.
  unfold load_buffer at 1 in Hres. run_in Hres. cbn [glob buffers_mem set_buffers] in Hres.
  rewrite H0 in Hres.
  rewrite list_lookup_insert_eq in Hres by (rewrite length_insert; lia).
  cbv beta iota in Hres. cbn [start] in Hres.
  destruct (r_ret p =? MAP_FAILED) eqn:Ep.
  { unfold errno_exit in Hres. run_in Hres. subst res. repeat split; try discriminate.
    eexists (_ :: _ :: new1). cbn [trace]. split; [reflexivity|]. right.
    reflexivity. }
  cbn [n_buffers set_buffers set_n_buffers] in Hres. subst res. unfold mapping.
  cbn [glob n_buffers set_n_buffers buffers_mem set_buffers trace].
  rewrite to_uint_small by lia. rewrite !length_insert.
  repeat split; try lia.
  exists (Call (call_mmap (buf_length (the_buffer (written rep arg) (fresh_buffer (n_buffers (glob s)))))
                  (Z.lor PROT_READ PROT_WRITE) MAP_SHARED (fd (glob s))
                  (buf_offset (the_buffer (written rep arg) (fresh_buffer (n_buffers (glob s))))))
            p :: new1).
  split; [reflexivity|]. cbn [existsb failed_mmap]. rewrite Ep, Hnew1. reflexivity.
Qed.
(** init_mmap never reads or writes outside the array it allocates; when
    it returns, the pool has as many entries as the device granted, at
    least 2, and every mmap succeeded; a failed mmap ends the process with
    status 1. *)
Lemma init_mmap_spec s :
  exists count,
    0 <= count < 2 ^ 32 /\
    match init_mmap s with
    | Ret _ s' => 2 <= count /\ mapping_done count (trace s) (Ret tt s')
    | Halt h s' => mapping_done count (trace s) (Halt h s')
    end.
Proof.
  remember (init_mmap s) as res eqn:Hres.
  unfold init_mmap in Hres. unfold bind at 1, get_glob in Hres. cbv zeta in Hres.
  unfold bind at 1 in Hres.
  change {| req_count := 4; req_type := V4L2_BUF_TYPE_VIDEO_CAPTURE;
            req_memory := V4L2_MEMORY_MMAP |} with four_buffers in Hres.
  set (arg := arg_requestbuffers four_buffers) in Hres.
  destruct (xioctl_spec (fd (glob s)) VIDIOC_REQBUFS arg s) as (retries & Hall & Hx).
  destruct (xioctl _ _ _ s) as [[r a] s1|h s1].
  2:{ destruct Hx as (-> & _ & _ & _ & Htr1). subst res. exists 0. split; [lia|].
      repeat split; try discriminate. eexists. split; [exact Htr1|]. left.
      apply existsb_failed_retries. discriminate. }
  destruct Hx as (rep & _ & Hg & Htr1 & -> & ->).
  pose proof (granted_range rep) as Hrange. fold arg in Hrange.
  set (count := req_count _) in *. exists count. split; [exact Hrange|].
  assert (Hnew1 : exists new1, trace s1 = new1 ++ trace s /\ existsb failed_mmap new1 = false).
  { eexists (_ :: _). rewrite Htr1, app_comm_cons. split; [reflexivity|].
    cbn [existsb]. rewrite existsb_failed_retries by discriminate. reflexivity. }
  destruct Hnew1 as (new1 & Htr1' & Hnew1). clear Htr1.
  destruct s1 as [g1 e1 sc1 t1]. cbn [glob trace] in Hg, Htr1'. subst g1 t1.
  unfold bind at 1 in Hres.
  destruct (r_ret rep =? -1).
  { unfold bind at 1, get_errno in Hres. cbn [errno] in Hres.
    destruct (e1 =? EINVAL); [|unfold errno_exit in Hres]; run_in Hres; subst res;
      repeat split; try discriminate; eexists (_ :: new1); cbn [trace];
      (split; [reflexivity|]); right; reflexivity. }
  unfold ret at 1 in Hres. unfold bind at 1 in Hres.
  destruct (count <? 2) eqn:Ec.
  { run_in Hres. subst res. repeat split; try discriminate. eexists (_ :: new1). cbn [trace].
    split; [reflexivity|]. right. reflexivity. }
  apply Z.ltb_ge in Ec. unfold ret at 1 in Hres.
  unfold bind at 1, sys at 1 in Hres. cbn [script] in Hres.
  destruct sc1 as [|p rest].
  { subst res. repeat split; try discriminate. exists new1. split; [reflexivity|].
    left. exact Hnew1. }
  unfold bind at 1, update_glob at 1 in Hres. unfold bind at 1 in Hres.
  destruct (r_ret p =? NULL).
  { run_in Hres. subst res. repeat split; try discriminate. eexists (_ :: _ :: new1). cbn [trace].
    split; [reflexivity|]. right. reflexivity. }
  unfold ret at 1 in Hres. unfold bind at 1, update_glob at 1 in Hres.
  match type of Hres with
  | res = loop _ _ ?s2 =>
      pose proof (map_loop_spec count (trace s) s2 (proj2 Hrange)) as Hloop
  end.
  rewrite <- Hres in Hloop.
  assert (Hdone : mapping_done count (trace s) res).
  { apply Hloop. unfold mapping.
    cbn [glob trace answered with_glob n_buffers set_n_buffers buffers_mem set_buffers].
    rewrite length_replicate. repeat split; try lia.
    eexists (_ :: new1). split; [reflexivity|]. cbn [existsb failed_mmap]. exact Hnew1. }
  destruct res as [[] s'|h s']; [split; [exact Ec|exact Hdone]|exact Hdone].
Qed.

(** ** Mappings and their release *)















Lemma allows_anything k : allows (fun _ => true) k.
Proof. intros e _. reflexivity. Qed.




(** ** Ownership *)

Lemma elem_of_pool n x : x ∈ pool n <-> 0 <= x < n.
Proof. unfold pool. rewrite elem_of_list_to_set, elem_of_seqZ. lia. Qed.

Lemma pool_succ i : 0 <= i -> pool (i + 1) = pool i ∪ {[i]}.
Proof.
  intros Hi. apply set_eq. intros x.
  rewrite elem_of_union, elem_of_singleton, !elem_of_pool. lia.
Qed.

Lemma owners_after_cons n e tr :
  owners_after n (e :: tr) =
    match transfer_of e with
    | Some t => hand_over (owners_after n tr) t
    | None => owners_after n tr
    end.
Proof.
  unfold owners_after. rewrite traffic_cons.
  destruct (transfer_of e); [apply foldl_snoc|rewrite app_nil_r; reflexivity].
Qed.

Lemma owners_after_quiet n l tr :
  Forall (fun e => transfer_of e = None) l -> owners_after n (l ++ tr) = owners_after n tr.
Proof.
  induction 1 as [|e l He _ IH]; [reflexivity|].
  cbn [app]. rewrite owners_after_cons, He. exact IH.
Qed.

Lemma always_refl n tr :
  partitioned n (owners_after n tr) -> always_partitioned n tr tr.
Proof.
  intros H. split; [reflexivity|]. intros p H1 H2.
  assert (p = tr) as -> by (apply (anti_symm suffix); assumption). exact H.
Qed.

Lemma always_here n base tr :
  always_partitioned n base tr -> partitioned n (owners_after n tr).
Proof. intros [Hb H]. apply H; [exact Hb|reflexivity]. Qed.

Lemma always_cons n base e tr :
  always_partitioned n base tr -> partitioned n (owners_after n (e :: tr)) ->
  always_partitioned n base (e :: tr).
Proof.
  intros [Hb H] He. split; [apply suffix_cons_r, Hb|]. intros p H1 H2.
  destruct p as [|x p]; [apply H; [exact H1|apply suffix_nil]|].
  apply suffix_cons_inv in H2 as [->|H2]; [exact He|apply H; assumption].
Qed.

Lemma always_quiet n base e tr :
  transfer_of e = None -> always_partitioned n base tr -> always_partitioned n base (e :: tr).
Proof.
  intros He H. apply always_cons; [exact H|]. rewrite owners_after_cons, He.
  apply (always_here _ _ _ H).
Qed.

Lemma always_quiet_app n base l tr :
  Forall (fun e => transfer_of e = None) l -> always_partitioned n base tr ->
  always_partitioned n base (l ++ tr).
Proof.
  induction 1 as [|e l He _ IH]; intros H; [exact H|].
  cbn [app]. apply always_quiet; [exact He|apply IH, H].
Qed.

Lemma failed_calls_quiet c (retries : list reply) :
  Forall (fun rep => r_ret rep = -1) retries ->
  Forall (fun e => transfer_of e = None) (map (Call c) (rev retries)).
Proof.
  intros Hall. apply Forall_forall. intros e He.
  apply list_elem_of_In, in_map_iff in He as (rep & <- & Hin).
  rewrite Forall_forall in Hall. apply in_rev, list_elem_of_In, Hall in Hin.
  destruct c; try reflexivity. destruct request; try reflexivity; cbn; rewrite Hin; reflexivity.
Qed.

Lemma steady_partitioned n tr : steady n tr -> partitioned n (owners_after n tr).
Proof.
  unfold steady. intros ->. split; cbn; [set_solver|set_solver].
Qed.

(** With every buffer at the device, buffer [i] of the pool goes to the
    process... *)
Lemma hand_over_process n i :
  0 <= i < n ->
  partitioned n (hand_over {| with_device := pool n; with_process := ∅ |} (to_process i)).
Proof.
  intros Hi. split; cbn.
  - set_solver.
  - apply set_eq. intros x.
    rewrite !elem_of_union, elem_of_difference, elem_of_singleton, elem_of_pool.
    split; [intros [[H _]|[H| ->]]; [exact H|set_solver|lia]|].
    intros H. destruct (decide (x = i)); [right; right; assumption|left; split; assumption].
Qed.

(** ... and back. *)
Lemma hand_over_back n i :
  0 <= i < n ->
  hand_over (hand_over {| with_device := pool n; with_process := ∅ |} (to_process i))
    (to_device i)
  = {| with_device := pool n; with_process := ∅ |}.
Proof.
  intros Hi. unfold hand_over. cbn. f_equal.
  - apply set_eq. intros x.
    rewrite elem_of_union, elem_of_difference, elem_of_singleton, elem_of_pool.
    split; [intros [[H _]| ->]; [exact H|lia]|].
    intros H. destruct (decide (x = i)); [right; assumption|left; split; assumption].
  - set_solver.
Qed.

Lemma dequeued_index_range rep :
  0 <= buf_index (the_buffer (written rep (arg_buffer (fresh_buffer 0))) (fresh_buffer 0))
    < 2 ^ 32.
Proof.
  unfold written. destruct (r_ret rep =? -1); [cbn; lia|].
  destruct (r_out rep) as [|[]| |]; cbn; try lia. apply to_uint_range.
Qed.

Lemma read_frame_kept s base :
  pool_ok (glob s) ->
  steady (n_buffers (glob s)) (trace s) ->
  always_partitioned (n_buffers (glob s)) base (trace s) ->
  frame_kept (n_buffers (glob s)) (glob s) base (read_frame s).
Proof.
  intros [Hn Hlen] Hst Hal. set (n := n_buffers (glob s)) in *.
  remember (read_frame s) as res eqn:Hres.
  unfold read_frame in Hres. unfold bind at 1, get_glob in Hres. cbv zeta in Hres.
  unfold bind at 1 in Hres.
  set (arg := arg_buffer (fresh_buffer 0)) in Hres.
  destruct (xioctl_spec (fd (glob s)) VIDIOC_DQBUF arg s) as (retries & Hall & Hx).
  pose proof (always_quiet_app n base _ (trace s) (failed_calls_quiet
                (call_ioctl (fd (glob s)) VIDIOC_DQBUF arg) retries Hall) Hal) as Hal0.
  pose proof (owners_after_quiet n _ (trace s) (failed_calls_quiet
                (call_ioctl (fd (glob s)) VIDIOC_DQBUF arg) retries Hall)) as Hown0.
  set (t0 := map _ (rev retries) ++ trace s) in *.
  destruct (xioctl _ _ _ s) as [[r a] s1|h s1].
  2:{ destruct Hx as (-> & _ & _ & _ & Htr1). subst res. unfold frame_kept, guarded.
      rewrite Htr1. split; [exact I|intros _; exact Hal0]. }
  destruct Hx as (rep & _ & Hg & Htr1 & -> & ->).
  destruct s1 as [g1 e1 sc1 t1]. cbn [glob trace] in Hg, Htr1. subst g1 t1.
  destruct (r_ret rep =? -1) eqn:Er.
  - (* the dequeue failed *)
    assert (Hq : transfer_of (Call (call_ioctl (fd (glob s)) VIDIOC_DQBUF arg) rep) = None).
    { cbn. rewrite Er. reflexivity. }
    pose proof (always_quiet n base _ t0 Hq Hal0) as Hal1.
    unfold bind at 1, get_errno in Hres. cbn [errno] in Hres.
    destruct (e1 =? EAGAIN).
    + subst res. unfold frame_kept, ret. cbn [glob trace].
      split; [reflexivity|]. split; [|exact Hal1].
      unfold steady. rewrite owners_after_cons, Hq, Hown0. exact Hst.
    + assert (Hres' : res = errno_exit "VIDIOC_DQBUF"
                        {| glob := glob s; errno := e1; script := sc1;
                           trace := Call (call_ioctl (fd (glob s)) VIDIOC_DQBUF arg) rep :: t0 |})
        by (destruct (e1 =? EIO); exact Hres).
      clear Hres. unfold errno_exit in Hres'. run_in Hres'. subst res. unfold frame_kept, guarded.
      cbn [trace EXIT_FAILURE].
      split; [exact I|]. intros _. apply always_quiet; [reflexivity|exact Hal1].
  - (* buffer buf.index was dequeued *)
    pose proof (dequeued_index_range rep) as Hidx. fold arg in Hidx.
    set (i := buf_index (the_buffer (written rep arg) (fresh_buffer 0))) in *.
    assert (Ht : transfer_of (Call (call_ioctl (fd (glob s)) VIDIOC_DQBUF arg) rep)
                 = Some (to_process i)).
    { cbn. rewrite Er. unfold i, arg. rewrite (the_buffer_written rep _ clear_buffer (fresh_buffer 0)).
      reflexivity. }
    unfold bind at 1 in Hres. cbn [glob] in Hres. fold n in Hres.
    destruct (i <? n) eqn:Ei.
    2:{ (* the assertion fails *)
        unfold stop in Hres. subst res. unfold frame_kept, guarded. cbn [trace].
        split; [|intros H; contradiction H; reflexivity].
        eexists _, _. split; [reflexivity|]. cbn [bad_dequeue]. rewrite Er. fold arg. fold i.
        apply Z.ltb_ge in Ei. cbn [negb andb]. apply Z.leb_le, Ei. }
    apply Z.ltb_lt in Ei. unfold ret at 1 in Hres.
    assert (Hown1 : owners_after n (Call (call_ioctl (fd (glob s)) VIDIOC_DQBUF arg) rep :: t0)
                    = hand_over {| with_device := pool n; with_process := ∅ |} (to_process i)).
    { rewrite owners_after_cons, Ht, Hown0. rewrite Hst. reflexivity. }
    assert (Hal1 : always_partitioned n base
                     (Call (call_ioctl (fd (glob s)) VIDIOC_DQBUF arg) rep :: t0)).
    { apply always_cons; [exact Hal0|]. rewrite Hown1. apply hand_over_process. lia. }
    assert (Hlook : exists b, buffers_mem (glob s) !! Z.to_nat i = Some b).
    { apply lookup_lt_is_Some. lia. }
    destruct Hlook as [b Hb].
    unfold bind at 1, load_buffer at 1 in Hres. unfold bind at 1, get_glob in Hres.
    cbn [glob] in Hres.
    replace (0 <=? i) with true in Hres by (symmetry; apply Z.leb_le; lia).
    rewrite Hb in Hres. unfold ret at 1 in Hres.
    set (s2 := {| glob := glob s; errno := e1; script := sc1;
                  trace := Call (call_ioctl (fd (glob s)) VIDIOC_DQBUF arg) rep :: t0 |}) in Hres.
    (* process_image only writes to stdout and stderr *)
    set (size := to_int (buf_bytesused (the_buffer (written rep arg) (fresh_buffer 0)))) in Hres.
    set (pi_events := Fflush stdout :: Fprintf stderr "." [] :: Fflush stderr ::
           (if out_buf (glob s) =? 0 then [] else [Fwrite (start b) (to_size_t size)])).
    assert (Hpi : process_image (start b) size s2
                  = Ret tt {| glob := glob s; errno := e1; script := sc1;
                              trace := pi_events ++ trace s2 |}).
    { subst pi_events s2. unfold process_image. run.
      destruct (out_buf (glob s) =? 0); reflexivity. }
    unfold bind at 1 in Hres. rewrite Hpi in Hres. clear Hpi.
    assert (Hquiet : Forall (fun e => transfer_of e = None) pi_events).
    { subst pi_events. destruct (out_buf (glob s) =? 0); repeat constructor. }
    set (s3 := {| glob := glob s; errno := e1; script := sc1; trace := pi_events ++ trace s2 |})
      in Hres.
    pose proof (always_quiet_app n base _ _ Hquiet Hal1) as Hal2.
    pose proof (owners_after_quiet n _ (trace s2) Hquiet) as Hown2.
    cbn [trace s2] in Hal2, Hown2. rewrite Hown1 in Hown2.
    set (qarg := arg_buffer (the_buffer (written rep arg) (fresh_buffer 0))) in Hres.
    unfold bind at 1 in Hres.
    destruct (xioctl_spec (fd (glob s)) VIDIOC_QBUF qarg s3) as (qretries & Hqall & Hqx).
    pose proof (always_quiet_app n base _ _ (failed_calls_quiet
                  (call_ioctl (fd (glob s)) VIDIOC_QBUF qarg) qretries Hqall) Hal2) as Hal3.
    pose proof (owners_after_quiet n _ (trace s3) (failed_calls_quiet
                  (call_ioctl (fd (glob s)) VIDIOC_QBUF qarg) qretries Hqall)) as Hown3.
    cbn [trace s3 s2] in Hown3. rewrite Hown2 in Hown3.
    destruct (xioctl _ _ _ s3) as [[r a] s4|h s4].
    2:{ destruct Hqx as (-> & _ & _ & _ & Htr4). subst res. unfold frame_kept, guarded.
        rewrite Htr4. split; [exact I|intros _; exact Hal3]. }
    destruct Hqx as (q & _ & Hg4 & Htr4 & -> & _).
    destruct s4 as [g4 e4 sc4 t4]. cbn [glob trace s3 s2] in Hg4, Htr4. subst g4 t4.
    unfold bind at 1 in Hres.
    destruct (r_ret q =? -1) eqn:Eq.
    + (* the queue failed *)
      unfold errno_exit in Hres. run_in Hres. subst res. unfold frame_kept, guarded.
      cbn [trace].
      split; [exact I|]. intros _. apply always_quiet; [reflexivity|].
      apply always_quiet; [cbn; rewrite Eq; reflexivity|exact Hal3].
    + (* buffer i is back with the device *)
      unfold ret in Hres. subst res. unfold frame_kept. cbn [glob trace].
      assert (Htq : transfer_of (Call (call_ioctl (fd (glob s)) VIDIOC_QBUF qarg) q)
                    = Some (to_device i)).
      { cbn. rewrite Eq. reflexivity. }
      assert (Hown4 : steady n (Call (call_ioctl (fd (glob s)) VIDIOC_QBUF qarg) q ::
                                map (Call (call_ioctl (fd (glob s)) VIDIOC_QBUF qarg)) (rev qretries) ++
                                pi_events ++ Call (call_ioctl (fd (glob s)) VIDIOC_DQBUF arg) rep :: t0)).
      { unfold steady. rewrite owners_after_cons, Htq, Hown3. apply hand_over_back. lia. }
      split; [reflexivity|]. split; [exact Hown4|].
      apply always_cons; [exact Hal3|]. apply steady_partitioned, Hown4.
Qed.
Lemma select_loop_kept s base :
  pool_ok (glob s) ->
  steady (n_buffers (glob s)) (trace s) ->
  always_partitioned (n_buffers (glob s)) base (trace s) ->
  frame_kept (n_buffers (glob s)) (glob s) base (select_loop s).
Proof.
  intros Hpool Hst Hal. set (n := n_buffers (glob s)) in *. unfold select_loop.
  revert Hst Hal.
  cut (forall s', glob s' = glob s /\ steady n (trace s') /\ always_partitioned n base (trace s')
                  -> frame_kept n (glob s) base (loop select_body tt s')).
  { intros H Hst Hal. apply H. split; [reflexivity|split; assumption]. }
  apply (loop_invariant select_body
           (fun _ s' => glob s' = glob s /\ steady n (trace s') /\
                        always_partitioned n base (trace s'))
           (frame_kept n (glob s) base)); [auto with progress|].
  intros [] s' (Hg & Hst & Hal).
  remember (select_body tt s') as res eqn:Hres.
  unfold select_body in Hres. unfold bind at 1, get_glob in Hres.
  unfold bind at 1, sys in Hres.
  destruct s' as [g' e' sc' t']. cbn [glob trace script] in *. subst g'.
  destruct sc' as [|r rest].
  { subst res. unfold frame_kept, guarded. cbn [answered trace].
    split; [exact I|intros _; exact Hal]. }
  cbn [answered glob errno script trace] in Hres.
  set (c := call_select _ _ _ _) in Hres.
  assert (Hal1 : always_partitioned n base (Call c r :: t'))
    by (apply always_quiet; [reflexivity|exact Hal]).
  assert (Hst1 : steady n (Call c r :: t'))
    by (unfold steady; rewrite owners_after_cons; exact Hst).
  destruct (r_ret r =? -1).
  { unfold bind at 1, get_errno in Hres. cbn [errno] in Hres.
    destruct (_ =? EINTR).
    - subst res. unfold continue, ret. cbn [answered glob trace].
      split; [reflexivity|split; assumption].
    - unfold errno_exit in Hres. run_in Hres. subst res. unfold frame_kept, guarded.
      cbn [answered trace]. split; [exact I|]. intros _. apply always_quiet; [reflexivity|exact Hal1]. }
  destruct (r_ret r =? 0).
  { run_in Hres. subst res. unfold frame_kept, guarded. cbn [answered trace].
    split; [exact I|]. intros _. apply always_quiet; [reflexivity|exact Hal1]. }
  unfold bind at 1 in Hres.
  match type of Hres with
  | res = match read_frame ?s1 with _ => _ end =>
      pose proof (read_frame_kept s1 base Hpool Hst1 Hal1) as Hrf;
      destruct (read_frame s1) as [f s2|h s2]
  end.
  - cbn [frame_kept glob] in Hrf. destruct (negb (f =? 0)); subst res; exact Hrf.
  - subst res. exact Hrf.
Qed.

Lemma mainloop_kept s base :
  pool_ok (glob s) ->
  steady (n_buffers (glob s)) (trace s) ->
  always_partitioned (n_buffers (glob s)) base (trace s) ->
  frame_kept (n_buffers (glob s)) (glob s) base (mainloop s).
Proof.
  intros Hpool Hst Hal. set (n := n_buffers (glob s)) in *.
  unfold mainloop. unfold bind, get_glob.
  revert Hst Hal. generalize (to_uint (frame_count (glob s))). intros count.
  cut (forall s', glob s' = glob s /\ steady n (trace s') /\ always_partitioned n base (trace s')
                  -> frame_kept n (glob s) base (loop mainloop_body count s')).
  { intros H Hst Hal. apply H. split; [reflexivity|split; assumption]. }
  revert count.
  cut (forall count s',
         (fun _ s' => glob s' = glob s /\ steady n (trace s') /\
                      always_partitioned n base (trace s')) count s' ->
         frame_kept n (glob s) base (loop mainloop_body count s')).
  { intros H count s' Hs'. apply (H count s' Hs'). }
  apply (loop_invariant mainloop_body); [auto with progress|].
  intros count s' (Hg & Hst & Hal).
  unfold mainloop_body. destruct (count >? 0).
  - unfold bind. rewrite <- Hg in Hpool. 
    pose proof (select_loop_kept s' base) as Hsl. rewrite Hg in Hsl, Hpool.
    specialize (Hsl Hpool Hst Hal).
    destruct (select_loop s') as [[] s2|h s2]; [|exact Hsl].
    unfold continue, ret. exact Hsl.
  - unfold break, ret, frame_kept. split; [exact Hg|split; assumption].
Qed.

Lemma pool_zero : pool 0 = ∅.
Proof. apply set_eq. intros x. rewrite elem_of_pool. set_solver by lia. Qed.

Lemma partitioned_split n i :
  0 <= i <= n ->
  partitioned n {| with_device := pool i; with_process := pool n ∖ pool i |}.
Proof.
  intros Hi. split; cbn.
  - set_solver.
  - apply set_eq. intros x. rewrite elem_of_union, elem_of_difference, !elem_of_pool. lia.
Qed.

(** start_capturing hands the buffers to the device one by one, in the
    order of their indices. *)
Lemma start_capturing_kept s base :
  pool_ok (glob s) ->
  traffic (trace s) = [] ->
  always_partitioned (n_buffers (glob s)) base (trace s) ->
  frame_kept (n_buffers (glob s)) (glob s) base (start_capturing s).
Proof.
  intros [Hn Hlen] Htr0 Hal. set (n := n_buffers (glob s)) in *.
  unfold start_capturing. unfold bind at 1.
  assert (Hloop : match loop queue_body 0 s with
                  | Ret _ s' => glob s' = glob s /\ steady n (trace s') /\
                                always_partitioned n base (trace s')
                  | Halt h s' => guarded n (Halt (A := unit) h s') /\
                                 always_partitioned n base (trace s')
                  end).
  { apply (loop_invariant queue_body
             (fun i s' => glob s' = glob s /\ 0 <= i <= n /\
                owners_after n (trace s')
                  = {| with_device := pool i; with_process := pool n ∖ pool i |} /\
                always_partitioned n base (trace s'))
             (fun r => match r with
                       | Ret _ s' => glob s' = glob s /\ steady n (trace s') /\
                                     always_partitioned n base (trace s')
                       | Halt h s' => guarded n (Halt (A := unit) h s') /\
                                      always_partitioned n base (trace s')
                       end)); [auto with progress| |].
    2:{ split; [reflexivity|]. split; [lia|]. split; [|exact Hal].
        unfold owners_after. rewrite Htr0, pool_zero. cbn. f_equal. set_solver. }
    intros i s' (Hg & Hi & Hown & Hal').
    remember (queue_body i s') as res eqn:Hres.
    unfold queue_body in Hres. unfold bind at 1, get_glob in Hres. cbv zeta in Hres.
    rewrite Hg in Hres. fold n in Hres.
    destruct (i <? n) eqn:Ei.
    2:{ subst res. unfold break, ret. apply Z.ltb_ge in Ei.
        assert (i = n) as -> by lia. split; [exact Hg|]. split; [|exact Hal'].
        unfold steady. rewrite Hown. f_equal. set_solver. }
    apply Z.ltb_lt in Ei. unfold bind at 1 in Hres.
    set (arg := arg_buffer (fresh_buffer i)) in Hres.
    destruct (xioctl_spec (fd (glob s)) VIDIOC_QBUF arg s') as (retries & Hall & Hx).
    pose proof (always_quiet_app n base _ _ (failed_calls_quiet
                  (call_ioctl (fd (glob s)) VIDIOC_QBUF arg) retries Hall) Hal') as Hal0.
    pose proof (owners_after_quiet n _ (trace s') (failed_calls_quiet
                  (call_ioctl (fd (glob s)) VIDIOC_QBUF arg) retries Hall)) as Hown0.
    rewrite Hown in Hown0.
    destruct (xioctl _ _ _ s') as [[r a] s1|h s1].
    2:{ destruct Hx as (-> & _ & _ & _ & Htr1). subst res. unfold guarded. rewrite Htr1.
        split; [exact I|exact Hal0]. }
    destruct Hx as (rep & _ & Hg1 & Htr1 & -> & _).
    destruct s1 as [g1 e1 sc1 t1]. cbn [glob trace] in Hg1, Htr1. subst g1 t1.
    unfold bind at 1 in Hres.
    destruct (r_ret rep =? -1) eqn:Er.
    - unfold errno_exit in Hres. run_in Hres. subst res. unfold guarded. cbn [trace].
      split; [exact I|]. apply always_quiet; [reflexivity|].
      apply always_quiet; [cbn; rewrite Er; reflexivity|exact Hal0].
    - unfold ret at 1, continue, ret in Hres. subst res. cbn [glob trace].
      rewrite to_uint_small by lia.
      assert (Hown1 : owners_after n (Call (call_ioctl (fd (glob s)) VIDIOC_QBUF arg) rep ::
                        map (Call (call_ioctl (fd (glob s)) VIDIOC_QBUF arg)) (rev retries) ++ trace s')
                      = {| with_device := pool (i + 1);
                           with_process := pool n ∖ pool (i + 1) |}).
      { rewrite owners_after_cons. cbn [transfer_of arg the_buffer fresh_buffer buf_index].
        rewrite Er, Hown0. unfold hand_over. cbn [with_device with_process].
        rewrite pool_succ by lia. f_equal. set_solver. }
      split; [exact Hg|]. split; [lia|]. split; [exact Hown1|].
      apply always_cons; [exact Hal0|]. rewrite Hown1. apply partitioned_split. lia. }
  destruct (loop queue_body 0 s) as [[] s1|h s1].
  2:{ unfold frame_kept. destruct Hloop as [H1 H2]. split; [exact H1|intros _; exact H2]. }
  destruct Hloop as (Hg & Hst & Hal1).
  unfold bind at 1, get_glob. rewrite Hg. unfold bind.
  set (arg := arg_buf_type _).
  destruct (xioctl_spec (fd (glob s)) VIDIOC_STREAMON arg s1) as (retries & Hall & Hx).
  pose proof (always_quiet_app n base _ _ (failed_calls_quiet
                (call_ioctl (fd (glob s)) VIDIOC_STREAMON arg) retries Hall) Hal1) as Hal2.
  pose proof (owners_after_quiet n _ (trace s1) (failed_calls_quiet
                (call_ioctl (fd (glob s)) VIDIOC_STREAMON arg) retries Hall)) as Hown2.
  destruct (xioctl _ _ _ s1) as [[r a] s2|h s2].
  2:{ destruct Hx as (-> & _ & _ & _ & Htr2). unfold frame_kept, guarded. rewrite Htr2.
      split; [exact I|intros _; exact Hal2]. }
  destruct Hx as (rep & _ & Hg2 & Htr2 & -> & _).
  assert (Hal3 : always_partitioned n base (trace s2)).
  { rewrite Htr2. apply always_quiet; [reflexivity|exact Hal2]. }
  destruct (r_ret rep =? -1).
  - unfold errno_exit. run. unfold frame_kept, guarded. cbn [trace].
    split; [exact I|]. intros _. apply always_quiet; [reflexivity|exact Hal3].
  - unfold ret, frame_kept. split; [congruence|]. split; [|exact Hal3].
    unfold steady. rewrite Htr2, owners_after_cons. cbn [transfer_of]. rewrite Hown2. exact Hst.
Qed.
(** ** Building the pool with a device that grants and maps *)


Lemma load_buffer_at (before after : list buffer) b i s :
  i = Z.of_nat (length before) ->
  buffers_mem (glob s) = before ++ b :: after ->
  load_buffer i s = Ret b s.
Proof.
  intros -> Hmem. unfold load_buffer. unfold bind, get_glob.
  replace (0 <=? _) with true by (symmetry; apply Z.leb_le; lia).
  rewrite Nat2Z.id, Hmem, lookup_app_r, Nat.sub_diag by lia. reflexivity.
Qed.



(** * The capture loop *)

(** C4: for every requested frame count N (a count, so 0 <= N <= INT_MAX),
    when the device serves N rounds -- each a number of interrupted or
    not-ready waits followed by a ready buffer of the pool -- mainloop
    returns having delivered exactly N frames; the transfers of ownership
    are dequeue i, queue i, round after round, so each buffer is back with
    the device before the next dequeue; every interrupted or not-ready
    wait costs one more wait and no frame: the number of waits is N plus
    the number of such hiccups. *)
Theorem mainloop_delivers_count (N : Z) (rounds : list round) (rest : list reply) (s : state) :
  frame_count (glob s) = N ->
  0 <= N < 2 ^ 31 ->
  Z.of_nat (length rounds) = N ->
  Forall (round_ok (glob s)) rounds ->
  script s = flat_map round_script rounds ++ rest ->
  exists s',
    mainloop s = Ret tt s' /\ script s' = rest /\
    trace s' = rounds_events (glob s) rounds ++ trace s /\
    Z.of_nat (delivered (rounds_events (glob s) rounds)) = N /\
    traffic (rounds_events (glob s) rounds) = flat_map round_traffic rounds /\
    waits (rounds_events (glob s) rounds)
      = (Z.to_nat N + length (flat_map hiccups rounds))%nat.
Proof.
  intros HN Hrange Hlen Hok Hs.
  destruct (mainloop_rounds rounds rest s Hok) as (s' & Hl & _ & Hsc & Htr).
  { rewrite HN, to_uint_small; lia. }
  { exact Hs. }
  exists s'. split; [exact Hl|]. split; [exact Hsc|]. split; [exact Htr|].
  rewrite rounds_events_delivered, rounds_events_traffic, rounds_events_waits by exact Hok.
  repeat split; lia.
Qed.

(** Scenario C of the specification. *)
Lemma mainloop_delivers_count_witness :
  exists s',
    mainloop scenario_C = Ret tt s' /\
    script s' = round_script (frame 1 614400) /\
    delivered (trace s') = 5%nat /\
    waits (trace s') = 7%nat.
Proof.
  destruct (mainloop_delivers_count 5 five_rounds (round_script (frame 1 614400)) scenario_C)
    as (s' & Hl & Hsc & Htr & _).
  - reflexivity.
  - lia.
  - reflexivity.
  - repeat constructor; cbn; try lia; eexists; reflexivity.
  - reflexivity.
  - exists s'. split; [exact Hl|]. split; [exact Hsc|]. rewrite Htr. split; reflexivity.
Defined.



(** * A dequeue that fails *)




Lemma to_int_small x : - 2 ^ 31 <= x < 2 ^ 31 -> to_int x = x.
Proof. intros H. unfold to_int. rewrite Z.mod_small; lia. Qed.

Lemma to_uint_negative x : - 2 ^ 32 <= x < 0 -> to_uint x = 2 ^ 32 + x.
Proof.
  intros H. unfold to_uint. symmetry. apply (Z.mod_unique _ _ (-1)); lia.
Qed.

(** * The frame counter *)

(** C10: the argument of -c goes through strtol into the int frame_count
    with no check of its sign, and mainloop copies it into an unsigned
    counter.  For n = 0 mainloop returns at once, having done nothing.  For
    a negative n (INT_MIN <= n < 0) the option is accepted, and the loop
    then runs 2^32 + n rounds: served that many it returns having
    delivered 2^32 + n frames, served fewer it is still waiting for the
    next one. *)
Theorem frame_count_wraps (argv : list string) (r v : reply) (rest : list reply)
    (s : state) (n : Z) :
  script s = r :: v :: rest ->
  r_ret r = chr "c"%char -> r_ret v = n -> r_errno v = 0 ->
  - 2 ^ 31 <= n <= 0 ->
  exists s1,
    getopt_body argv tt s = Ret (inl tt) s1 /\ frame_count (glob s1) = n /\
    (n = 0 -> forall s2, frame_count (glob s2) = n -> mainloop s2 = Ret tt s2) /\
    (n < 0 -> forall s2 rounds rest2,
       frame_count (glob s2) = n ->
       Forall (round_ok (glob s2)) rounds ->
       script s2 = flat_map round_script rounds ++ rest2 ->
       (Z.of_nat (length rounds) = 2 ^ 32 + n ->
          exists s3, mainloop s2 = Ret tt s3 /\ script s3 = rest2 /\
            trace s3 = rounds_events (glob s2) rounds ++ trace s2 /\
            Z.of_nat (delivered (rounds_events (glob s2) rounds)) = 2 ^ 32 + n) /\
       (Z.of_nat (length rounds) < 2 ^ 32 + n -> rest2 = [] ->
          exists s3, mainloop s2 = Halt blocked s3 /\
            trace s3 = rounds_events (glob s2) rounds ++ trace s2)).
Proof.
  intros Hs Hr Hv He Hn. eexists. split; [apply (getopt_body_count _ _ _ _ _ Hs Hr He)|].
  split; [cbn; rewrite Hv; apply to_int_small; lia|]. split.
  - intros -> s2 Hc. unfold mainloop, bind, get_glob. rewrite Hc, mainloop_body_unfold.
    reflexivity.
  - intros Hneg s2 rounds rest2 Hc Hok Hs2.
    assert (Hu : to_uint (frame_count (glob s2)) = 2 ^ 32 + n).
    { rewrite Hc. apply to_uint_negative. lia. }
    split.
    + intros Hlen. destruct (mainloop_rounds rounds rest2 s2 Hok) as (s3 & Hl & _ & Hsc & Htr);
        [lia|exact Hs2|].
      exists s3. repeat split; try assumption.
      rewrite rounds_events_delivered by exact Hok. exact Hlen.
    + intros Hlen ->.
      destruct (mainloop_body_rounds rounds [] s2 (to_uint (frame_count (glob s2))) Hok)
        as (s3 & Hl & _ & Hsc & Htr); [lia|exact Hs2|].
      exists s3. split; [|exact Htr].
      unfold mainloop, bind, get_glob. rewrite Hl. apply mainloop_body_starved; [lia|exact Hsc].
Qed.

(** capture -c -1 *)
Lemma frame_count_wraps_witness :
  exists s1,
    getopt_body ["capture"; "-c"; "-1"] tt (initial_state [opt "c" "-1"; ok (-1)])
      = Ret (inl tt) s1 /\
    frame_count (glob s1) = -1 /\ to_uint (frame_count (glob s1)) = 4294967295.
Proof.
  destruct (frame_count_wraps ["capture"; "-c"; "-1"] (opt "c" "-1") (ok (-1)) []
              (initial_state [opt "c" "-1"; ok (-1)]) (-1))
    as (s1 & Hb & Hc & _); [reflexivity|reflexivity|reflexivity|reflexivity|lia|].
  exists s1. split; [exact Hb|]. split; [exact Hc|]. rewrite Hc. reflexivity.
Defined.

(** * Command line *)

(** No case of the switch in main handles the value getopt_long returns
    for -f or --format: the first such option ends the program with the
    usage text on stderr and status 1. *)
Lemma parse_options_format argv r rest s :
  script s = r :: rest -> r_ret r = chr "f"%char ->
  parse_options argv s
  = Halt (exited EXIT_FAILURE)
      (log (Fprintf stderr usage_text
              [fmt_s (hd "" argv); fmt_s (dev_name (glob s)); fmt_d (frame_count (glob s))])
         (answered (call_getopt_long argv short_options long_options) r rest s)).
Proof.
  intros Hs Hr. rewrite getopt_body_unfold.
  rewrite (getopt_body_default argv r rest s Hs); [reflexivity|rewrite Hr; discriminate..].
Qed.

(** Whatever the command line, main's option loop leaves force_format as
    it is: nothing in the program ever sets it. *)
Lemma parse_options_force_format argv s :
  force_format (glob (final_state (parse_options argv s))) = force_format (glob s).
Proof.
  unfold parse_options.
  apply (loop_invariant (getopt_body argv)
           (fun _ s' => force_format (glob s') = force_format (glob s))
           (fun r => force_format (glob (final_state r)) = force_format (glob s)));
    [auto with progress| |reflexivity].
  intros [] s' Hinv. unfold getopt_body. run. unfold sys.
  destruct (script s') as [|r rest]; [exact Hinv|]. run.
  destruct (r_ret r =? -1); [exact Hinv|].
  destruct (r_ret r =? 0); [exact Hinv|].
  destruct (r_ret r =? chr "d"%char); [run; exact Hinv|].
  destruct (r_ret r =? chr "h"%char); [unfold usage; run; exact Hinv|].
  destruct (r_ret r =? chr "o"%char); [run; exact Hinv|].
  destruct (r_ret r =? chr "c"%char); [|unfold usage; run; exact Hinv].
  run. destruct rest as [|v rest']; run; [exact Hinv|].
  destruct (negb _); [unfold errno_exit; run|]; exact Hinv.
Qed.

(** With force_format set, init_device sends VIDIOC_S_FMT with 640x480
    YUYV interlaced and goes on to init_mmap whatever the device writes
    back, as long as the ioctl does not fail. *)
Lemma init_device_forced_format f rest s :
  force_format (glob s) <> 0 ->
  script s = caps_ok :: fails EINVAL :: f :: rest ->
  r_ret f <> -1 ->
  init_device s = init_mmap (negotiated (glob s) f rest s).
Proof.
  intros Hf Hs Hr. unfold init_device. unfold bind at 1, get_glob. cbv zeta.
  rewrite (bind_ret _ _ _ _ _ (xioctl_success _ _ _ _ _ _ Hs ltac:(discriminate))).
  cbv beta iota. change (r_ret caps_ok =? -1) with false. cbv iota.
  unfold bind at 1, ret at 1.
  change (Z.land _ V4L2_CAP_VIDEO_CAPTURE =? 0) with false. cbv iota.
  unfold bind at 1, ret at 1.
  change (Z.land _ V4L2_CAP_STREAMING =? 0) with false. cbv iota.
  unfold bind at 1, ret at 1.
  set (s1 := answered _ caps_ok _ s).
  rewrite (bind_ret _ _ _ _ _ (xioctl_failure _ _ _ (fails EINVAL) (f :: rest) s1 eq_refl
                                 ltac:(discriminate))).
  cbv beta iota. change (r_ret (fails EINVAL) =? 0) with false. cbv iota.
  unfold bind at 1, ret at 1.
  apply Z.eqb_neq in Hf. rewrite Hf. cbn [negb].
  set (s2 := answered _ (fails EINVAL) _ s1).
  unfold bind at 1.
  rewrite (bind_ret _ _ _ _ _ (xioctl_success _ _ _ f rest s2 eq_refl Hr)).
  cbv beta iota. apply Z.eqb_neq in Hr. rewrite Hr. reflexivity.
Qed.

(** Scenario E, were force_format set: 640x360 is accepted. *)
Lemma forced_format_adjusted :
  exists s', init_device scenario_E = Ret tt s' /\ n_buffers (glob s') = 3.
Proof. eexists. split; vm_compute; reflexivity. Qed.

(** C1, as the code has it: when getopt_long returns 'f' -- the value
    long_options gives to --format -- the switch of main falls to its
    default case, and the process ends with the usage text on stderr and
    status 1 before the device is opened.  No command line changes
    force_format: the option loop leaves it as it found it.  The
    negotiation itself is as described: with force_format set, init_device
    asks for 640x480 YUYV interlaced and goes on to init_mmap whatever
    width and height the device writes back. *)
Theorem main_format_option_rejected (argv : list string) (r : reply) (rest : list reply)
    (s : state) :
  script s = r :: rest -> r_ret r = chr "f"%char ->
  main argv s
  = Halt (exited EXIT_FAILURE)
      (log (Fprintf stderr usage_text
              [fmt_s (hd "" argv); fmt_s "/dev/video0"; fmt_d (frame_count (glob s))])
         (answered (call_getopt_long argv short_options long_options) r rest
            (with_glob (set_dev_name "/dev/video0" (glob s)) s))) /\
  (forall argv' s',
     force_format (glob (final_state (parse_options argv' s'))) = force_format (glob s')) /\
  (forall f rest' s',
     force_format (glob s') <> 0 ->
     script s' = caps_ok :: fails EINVAL :: f :: rest' ->
     r_ret f <> -1 ->
     init_device s' = init_mmap (negotiated (glob s') f rest' s')).
Proof.
  intros Hs Hr. split; [|split].
  - unfold main. unfold bind at 1, update_glob at 1. unfold bind at 1.
    rewrite (parse_options_format argv r rest (with_glob _ s) Hs Hr). reflexivity.
  - exact parse_options_force_format.
  - exact init_device_forced_format.
Qed.

(** capture --format *)
Lemma main_format_option_rejected_witness :
  main ["capture"; "--format"] (initial_state [opt "f" ""])
  = Halt (exited EXIT_FAILURE)
      {| glob := set_dev_name "/dev/video0" initial_globals;
         errno := 0;
         script := [];
         trace :=
           [ Fprintf stderr usage_text [fmt_s "capture"; fmt_s "/dev/video0"; fmt_d 70];
             Call (call_getopt_long ["capture"; "--format"] short_options long_options)
                  (opt "f" "") ] |}.
Proof.
  destruct (main_format_option_rejected ["capture"; "--format"] (opt "f" "") []
              (initial_state [opt "f" ""]) eq_refl eq_refl) as [H _].
  rewrite H. reflexivity.
Defined.


(** * Buffer reservation *)

(** C7: whatever the command line and the environment, if at some point of
    the run the device answers VIDIOC_REQBUFS with fewer than 2 buffers,
    the process exits with status 1, and nothing in its trace allocates,
    maps, unmaps, queues, dequeues, starts or stops streaming, waits for a
    frame or delivers one; the last thing it did was to print "Insufficient
    buffer memory". *)
Theorem insufficient_buffers_fatal (argv : list string) (s : state) :
  trace s = [] ->
  existsb insufficient (trace (final_state (main argv s))) = true ->
  exit_status (main argv s) = Some 1 /\
  reports_insufficient (trace (final_state (main argv s))) = true /\
  forallb (fun e => negb (capture_activity e)) (trace (final_state (main argv s))) = true /\
  delivered (trace (final_state (main argv s))) = 0%nat.
Proof.
  intros Hs Hex. destruct (main_insufficient_unless argv s) as (new & Ht & H).
  rewrite Hs, app_nil_r in Ht.
  destruct H as [HE|[(s' & Hh & HL) HF]]; rewrite Ht in *.
  - exfalso. apply existsb_exists in Hex as (e & Hin & He).
    rewrite forallb_forall in HE. specialize (HE e Hin). rewrite He in HE. discriminate.
  - split; [rewrite Hh; reflexivity|]. rewrite Hh in Ht. cbn [final_state] in Ht.
    rewrite <- Ht. split; [exact HL|]. rewrite Ht. split; [exact HF|].
    apply delivered_no_marker, HF.
Qed.

(** Scenario B of the specification. *)
Lemma insufficient_buffers_fatal_witness :
  exit_status (main ["capture"] scenario_B) = Some 1 /\
  reports_insufficient (trace (final_state (main ["capture"] scenario_B))) = true /\
  forallb (fun e => negb (capture_activity e))
    (trace (final_state (main ["capture"] scenario_B))) = true /\
  delivered (trace (final_state (main ["capture"] scenario_B))) = 0%nat.
Proof.
  apply (insufficient_buffers_fatal ["capture"] scenario_B).
  - reflexivity.
  - vm_compute. reflexivity.
Defined.

(** * Mappings *)




(** * Ownership of the buffers *)

(** C5: take a session whose pool of n buffers is in place and of which
    no buffer has been queued yet, and run start_capturing and then
    mainloop, with any answers of the environment.  Unless the run dies on
    the assertion of read_frame (the device named a buffer that is not in
    the pool), at every point of it the set of buffers with the device and
    the set with the process are disjoint and their union is [0, n); when
    start_capturing returns every buffer is with the device, and so it is
    again when mainloop returns. *)
Theorem ownership_partition (s : state) :
  pool_ok (glob s) ->
  traffic (trace s) = [] ->
  (forall s', bind start_capturing (fun _ => mainloop) s <> Halt aborted s') ->
  (forall p,
     trace s `suffix_of` p ->
     p `suffix_of` trace (final_state (bind start_capturing (fun _ => mainloop) s)) ->
     partitioned (n_buffers (glob s)) (owners_after (n_buffers (glob s)) p)) /\
  (forall s1, start_capturing s = Ret tt s1 -> steady (n_buffers (glob s)) (trace s1)) /\
  (forall s2, bind start_capturing (fun _ => mainloop) s = Ret tt s2 ->
     steady (n_buffers (glob s)) (trace s2)).
Proof.
  intros Hpool Htr0 Hna. set (n := n_buffers (glob s)) in *.
  assert (Hal0 : always_partitioned n (trace s) (trace s)).
  { apply always_refl. unfold owners_after. rewrite Htr0. cbn [foldl].
    destruct Hpool as [Hn _]. pose proof (partitioned_split n 0 ltac:(lia)) as H.
    rewrite pool_zero in H. replace (pool n ∖ ∅) with (pool n) in H by set_solver. exact H. }
  pose proof (start_capturing_kept s (trace s) Hpool Htr0 Hal0) as Hstart. fold n in Hstart.
  unfold bind in *. destruct (start_capturing s) as [[] s1|h s1].
  - destruct Hstart as (Hg & Hst & Hal1).
    pose proof (mainloop_kept s1 (trace s)) as Hmain. rewrite Hg in Hmain. fold n in Hmain.
    specialize (Hmain Hpool Hst Hal1).
    destruct (mainloop s1) as [[] s2|h s2]; cbn [final_state].
    + destruct Hmain as (_ & Hst2 & [_ Hal2]).
      split; [exact Hal2|]. split; [intros ? [= <-]; exact Hst|intros ? [= <-]; exact Hst2].
    + destruct Hmain as [_ Hal2].
      assert (h <> aborted) as Hh by (intros ->; exact (Hna s2 eq_refl)).
      destruct (Hal2 Hh) as [_ Hal2']. split; [exact Hal2'|]. 
      split; [intros ? [= <-]; exact Hst|discriminate].
  - destruct Hstart as [_ Hal1]. cbn [final_state].
    assert (h <> aborted) as Hh by (intros ->; exact (Hna s1 eq_refl)).
    destruct (Hal1 Hh) as [_ Hal1']. split; [exact Hal1'|]. split; discriminate.
Qed.

Lemma ownership_partition_witness :
  exists s2,
    bind start_capturing (fun _ => mainloop) two_frames = Ret tt s2 /\
    steady 2 (trace s2) /\
    forall p, p `suffix_of` trace s2 -> partitioned 2 (owners_after 2 p).
Proof.
  assert (Hpool : pool_ok (glob two_frames)) by (split; [cbn; lia|reflexivity]).
  assert (Hrun : exists s2, bind start_capturing (fun _ => mainloop) two_frames = Ret tt s2)
    by (eexists; vm_compute; reflexivity).
  destruct Hrun as [s2 Hrun].
  destruct (ownership_partition two_frames Hpool eq_refl) as (Hal & _ & Hst).
  - intros s'. rewrite Hrun. discriminate.
  - exists s2. split; [exact Hrun|]. split; [apply Hst, Hrun|].
    intros p Hp. apply Hal; [apply suffix_nil|]. rewrite Hrun. exact Hp.
Defined.

(** * The index of a dequeued buffer *)

(** C9: in a session whose pool is in place, when VIDIOC_DQBUF succeeds
    with an index that is not below n_buffers, read_frame stops at the
    assertion, the dequeue being the last thing the process did; with an
    index below n_buffers the array entry exists and read_frame goes on to
    process_image with the start of that entry.  In the capture run as a
    whole -- start_capturing, then mainloop, with any answers of the
    environment -- no access to the array of buffers is out of bounds, and
    the assertion fails only right after such a dequeue. *)
Theorem dequeued_index_checked (s : state) :
  pool_ok (glob s) ->
  (forall r rest,
     script s = r :: rest -> r_ret r <> -1 ->
     let buf := the_buffer (written r (arg_buffer (fresh_buffer 0))) (fresh_buffer 0) in
     let s1 := answered (dequeue_call (glob s)) r rest s in
     (n_buffers (glob s) <= buf_index buf -> read_frame s = Halt aborted s1) /\
     (buf_index buf < n_buffers (glob s) ->
        exists b,
          buffers_mem (glob s) !! Z.to_nat (buf_index buf) = Some b /\
          read_frame s
          = (process_image (start b) (to_int (buf_bytesused buf));;
             let* (r, _) := xioctl (fd (glob s)) VIDIOC_QBUF (arg_buffer buf) in
             (if r =? -1 then errno_exit "VIDIOC_QBUF" else ret tt);;
             ret 1) s1)) /\
  (traffic (trace s) = [] ->
     guarded (n_buffers (glob s)) (bind start_capturing (fun _ => mainloop) s)).
Proof.
  intros Hpool. split.
  - intros r rest Hs Hr buf s1. pose proof (dequeued_index_range r) as Hrange. fold buf in Hrange.
    assert (Hrf : read_frame s
                  = ((if buf_index buf <? n_buffers (glob s) then ret tt else stop aborted);;
                     let* b := load_buffer (buf_index buf) in
                     process_image (start b) (to_int (buf_bytesused buf));;
                     let* (r, _) := xioctl (fd (glob s)) VIDIOC_QBUF (arg_buffer buf) in
                     (if r =? -1 then errno_exit "VIDIOC_QBUF" else ret tt);;
                     ret 1) s1).
    { unfold read_frame. unfold bind at 1, get_glob. cbv zeta. unfold bind at 1.
      rewrite (xioctl_success _ _ _ _ _ _ Hs Hr). apply Z.eqb_neq in Hr. rewrite Hr.
      reflexivity. }
    split.
    + intros Hi. rewrite Hrf. unfold bind at 1.
      replace (_ <? _) with false by (symmetry; apply Z.ltb_ge, Hi). reflexivity.
    + intros Hi. destruct Hpool as [Hn Hlen].
      assert (Hlook : exists b, buffers_mem (glob s) !! Z.to_nat (buf_index buf) = Some b).
      { apply lookup_lt_is_Some. lia. }
      destruct Hlook as [b Hb]. exists b. split; [exact Hb|].
      rewrite Hrf. unfold bind at 1.
      replace (_ <? _) with true by (symmetry; apply Z.ltb_lt, Hi). unfold ret at 1.
      unfold bind at 1, load_buffer. unfold bind at 1, get_glob. cbn [glob s1 answered].
      replace (0 <=? _) with true by (symmetry; apply Z.leb_le; lia). rewrite Hb. reflexivity.
  - intros Htr0. set (n := n_buffers (glob s)) in *.
    assert (Hal0 : always_partitioned n (trace s) (trace s)).
    { apply always_refl. unfold owners_after. rewrite Htr0. cbn [foldl].
      destruct Hpool as [Hn _]. pose proof (partitioned_split n 0 ltac:(lia)) as H.
      rewrite pool_zero in H. replace (pool n ∖ ∅) with (pool n) in H by set_solver. exact H. }
    pose proof (start_capturing_kept s (trace s) Hpool Htr0 Hal0) as Hstart. fold n in Hstart.
    unfold bind. destruct (start_capturing s) as [[] s1|h s1].
    + destruct Hstart as (Hg & Hst & Hal1).
      pose proof (mainloop_kept s1 (trace s)) as Hmain. rewrite Hg in Hmain. fold n in Hmain.
      specialize (Hmain Hpool Hst Hal1).
      destruct (mainloop s1) as [[] s2|h s2]; [exact I|]. destruct Hmain as [Hgd _]. exact Hgd.
    + destruct Hstart as [Hgd _]. exact Hgd.
Qed.

(** The device names buffer 7 of a pool of two: abort, nothing delivered. *)
Lemma dequeued_index_checked_witness :
  mainloop alien_buffer
  = Halt aborted
      (answered (dequeue_call (glob alien_buffer)) (dequeued 7 614400) []
         (answered (wait_call (glob alien_buffer)) ready [dequeued 7 614400] alien_buffer)).
Proof.
  assert (Hpool : pool_ok (glob alien_buffer)) by (split; [cbn; lia|reflexivity]).
  set (s1 := answered (wait_call (glob alien_buffer)) ready [dequeued 7 614400] alien_buffer).
  assert (Hpool1 : pool_ok (glob s1)) by exact Hpool.
  destruct (dequeued_index_checked s1 Hpool1) as [Heq _].
  destruct (Heq (dequeued 7 614400) [] eq_refl ltac:(discriminate)) as [Habort _].
  specialize (Habort ltac:(vm_compute; discriminate)).
  unfold mainloop, bind, get_glob. rewrite mainloop_body_unfold. cbn [Z.gtb Z.compare to_uint].
  change (to_uint (frame_count (glob alien_buffer)) >? 0) with true. cbv iota.
  rewrite select_loop_unfold.
  rewrite (select_body_ready ready [dequeued 7 614400] alien_buffer eq_refl)
    by discriminate.
  unfold bind. fold (wait_call (glob alien_buffer)). fold s1. rewrite Habort. reflexivity.
Defined.

(** * The buffer pool *)



(** * xioctl *)

(** However often the ioctl is interrupted (fails with EINTR), xioctl
    issues it again with the same argument, and returns what the first
    answer that is not an interruption says: its return value and the
    structure as that answer left it.  Nothing but the ioctls is done, and
    errno is that of the last answer that stored one. *)
Theorem xioctl_retries_until_settled fh request arg (retries : list reply) (rep : reply)
    (rest : list reply) (s : state) :
  Forall fails_EINTR retries ->
  settles rep ->
  script s = retries ++ rep :: rest ->
  exists s',
    xioctl fh request arg s = Ret (r_ret rep, written rep arg) s' /\
    glob s' = glob s /\ script s' = rest /\
    errno s' = (if r_errno rep =? 0
                then match retries with [] => errno s | _ => EINTR end
                else r_errno rep) /\
    trace s' = ioctl_events fh request arg retries rep ++ trace s.
Proof.
  intros Hall Hrep. revert s. induction Hall as [|r l [Hr He] _ IH]; intros s Hs.
  - cbn [app] in Hs. eexists. split.
    + destruct Hrep as [Hok|[H0 Hi]].
      * apply (xioctl_success _ _ _ _ _ _ Hs Hok).
      * apply (xioctl_failure _ _ _ _ _ _ Hs). cbn [errno answered].
        apply Z.eqb_neq in H0. rewrite H0. exact Hi.
    + repeat split.
  - cbn [app] in Hs.
    rewrite (xioctl_retry _ _ _ _ _ _ Hs Hr), (written_failed _ _ Hr).
    2:{ cbn [errno answered]. rewrite He. reflexivity. }
    destruct (IH (answered (call_ioctl fh request arg) r (l ++ rep :: rest) s) eq_refl)
      as (s' & Hx & Hg & Hsc & Hen & Htr).
    exists s'. split; [exact Hx|]. split; [exact Hg|]. split; [exact Hsc|]. split.
    + rewrite Hen. destruct (r_errno rep =? 0); [|reflexivity].
      cbn [errno answered]. rewrite He. destruct l; reflexivity.
    + rewrite Htr. unfold ioctl_events. cbn [rev trace answered].
      rewrite map_app. cbn [map app]. rewrite <- !app_assoc. reflexivity.
Qed.

Lemma xioctl_retries_until_settled_witness :
  exists s',
    xioctl 3 VIDIOC_STREAMON (arg_buf_type V4L2_BUF_TYPE_VIDEO_CAPTURE)
      (session 1 [fails EINTR; fails EINTR; ok 0; ready])
    = Ret (0, arg_buf_type V4L2_BUF_TYPE_VIDEO_CAPTURE) s' /\
    script s' = [ready] /\ errno s' = EINTR /\ length (trace s') = 3%nat.
Proof.
  destruct (xioctl_retries_until_settled 3 VIDIOC_STREAMON
              (arg_buf_type V4L2_BUF_TYPE_VIDEO_CAPTURE) [fails EINTR; fails EINTR] (ok 0)
              [ready] (session 1 [fails EINTR; fails EINTR; ok 0; ready]))
    as (s' & Hx & _ & Hsc & He & Htr).
  - repeat constructor.
  - left. discriminate.
  - reflexivity.
  - exists s'. split; [exact Hx|]. split; [exact Hsc|]. split; [exact He|].
    rewrite Htr. reflexivity.
Defined.

(** Whatever the environment answers, xioctl never returns -1 with errno
    equal to EINTR: its callers need not handle interruption. *)
Theorem xioctl_never_returns_EINTR fh request arg (s : state) r a s' :
  xioctl fh request arg s = Ret (r, a) s' ->
  ~ (r = -1 /\ errno s' = EINTR).
Proof.
  unfold xioctl. revert r a s'.
  apply (loop_invariant (xioctl_body fh request) (fun _ _ => True)
           (fun res => forall r a s', res = Ret (r, a) s' -> ~ (r = -1 /\ errno s' = EINTR)));
    [auto with progress| |exact I].
  intros arg' s0 _. unfold xioctl_body. run. unfold sys.
  destruct (script s0) as [|rep rest]; [discriminate|]. run.
  destruct (r_ret rep =? -1) eqn:Er; cbn [andb].
  - destruct (_ =? EINTR) eqn:Ee; [exact I|].
    intros r a s' [= <- _ <-] [_ He]. cbn [errno] in He. apply Z.eqb_neq in Ee. contradiction.
  - intros r a s' [= <- _ <-] [Hr _]. apply Z.eqb_neq in Er. contradiction.
Qed.

Lemma xioctl_never_returns_EINTR_witness :
  exists a s',
    xioctl 3 VIDIOC_DQBUF (arg_buffer (fresh_buffer 0)) (session 1 [fails EINTR; fails EIO])
    = Ret (-1, a) s' /\ ~ (-1 = -1 /\ errno s' = EINTR).
Proof.
  eexists _, _. split; [vm_compute; reflexivity|].
  eapply (xioctl_never_returns_EINTR 3 VIDIOC_DQBUF (arg_buffer (fresh_buffer 0))
            (session 1 [fails EINTR; fails EIO])).
  vm_compute. reflexivity.
Defined.

(** * Counting frames *)

Lemma written_out_app a b : written_out (a ++ b) = (written_out a + written_out b)%nat.
Proof. unfold written_out. rewrite List.filter_app, length_app. reflexivity. Qed.

Lemma silent_counts quiet :
  forallb silent quiet = true -> delivered quiet = 0%nat /\ written_out quiet = 0%nat.
Proof.
  induction quiet as [|e l IH]; [split; reflexivity|]. cbn [forallb].
  intros [He Hl]%andb_prop. destruct (IH Hl) as [Hd Hw].
  apply andb_prop in He as [Hm Hf]. apply negb_true_iff in Hm, Hf.
  unfold delivered, written_out in *. cbn [List.filter]. rewrite Hm, Hf. split; assumption.
Qed.

Lemma silent_calls c l : forallb silent (map (Call c) l) = true.
Proof. induction l as [|r l IH]; [reflexivity|]. cbn [map forallb]. rewrite IH. reflexivity. Qed.

Lemma tally_quiet g tr0 lo hi s s' quiet :
  tally g tr0 lo hi s -> glob s' = glob s -> trace s' = quiet ++ trace s ->
  forallb silent quiet = true -> tally g tr0 lo hi s'.
Proof.
  intros (Hg & new & Htr & Hd & Hw) Hg' Htr' Hq. split; [congruence|].
  exists (quiet ++ new). rewrite Htr', Htr, app_assoc. split; [reflexivity|].
  destruct (silent_counts quiet Hq) as [Hd0 Hw0].
  rewrite delivered_app, written_out_app, Hd0, Hw0. cbn [Nat.add]. split; assumption.
Qed.

Lemma tally_weaken g tr0 lo hi lo' hi' s :
  tally g tr0 lo hi s -> lo' <= lo -> hi <= hi' -> tally g tr0 lo' hi' s.
Proof.
  intros (Hg & new & Htr & Hd & Hw) Hlo Hhi. split; [exact Hg|].
  exists new. repeat split; try assumption; lia.
Qed.

Lemma tally_frame g tr0 d s s' p size :
  tally g tr0 d d s -> glob s' = glob s ->
  trace s' = Fflush stdout :: Fprintf stderr "." [] :: Fflush stderr ::
             (if out_buf g =? 0 then [] else [Fwrite p size]) ++ trace s ->
  tally g tr0 (d + 1) (d + 1) s'.
Proof.
  intros (Hg & new & Htr & Hd & Hw) Hg' Htr'. split; [congruence|].
  exists (Fflush stdout :: Fprintf stderr "." [] :: Fflush stderr ::
          (if out_buf g =? 0 then [] else [Fwrite p size]) ++ new).
  rewrite Htr', Htr. split; [destruct (out_buf g =? 0); reflexivity|].
  unfold delivered, written_out in *.
  destruct (out_buf g =? 0); cbn [List.filter is_marker is_fwrite app length];
    rewrite ?Hw; split; lia.
Qed.

Lemma read_frame_tally g tr0 d s :
  tally g tr0 d d s -> frame_tally g tr0 d (read_frame s).
Proof.
  intros Ht. pose proof Ht as (Hg & _).
  remember (read_frame s) as res eqn:Hres.
  unfold read_frame in Hres. unfold bind at 1, get_glob in Hres. cbv zeta in Hres.
  unfold bind at 1 in Hres.
  set (arg := arg_buffer (fresh_buffer 0)) in Hres.
  destruct (xioctl_spec (fd (glob s)) VIDIOC_DQBUF arg s) as (retries & _ & Hx).
  destruct (xioctl _ _ _ s) as [[r a] s1|h s1].
  2:{ destruct Hx as (_ & _ & _ & Hg1 & Htr1). subst res. cbn [frame_tally].
      apply tally_weaken with (lo := d) (hi := d); [|lia..].
      apply (tally_quiet _ _ _ _ s _ _ Ht Hg1 Htr1), silent_calls. }
  destruct Hx as (rep & _ & Hg1 & Htr1 & -> & ->).
  assert (Ht1 : tally g tr0 d d s1).
  { apply (tally_quiet _ _ _ _ s _ (Call (call_ioctl (fd (glob s)) VIDIOC_DQBUF arg) rep
             :: map (Call (call_ioctl (fd (glob s)) VIDIOC_DQBUF arg)) (rev retries)) Ht Hg1 Htr1).
    cbn [forallb]. apply silent_calls. }
  destruct (r_ret rep =? -1).
  - unfold bind at 1, get_errno in Hres. destruct (errno s1 =? EAGAIN).
    + subst res. exact Ht1.
    + assert (Hres' : res = errno_exit "VIDIOC_DQBUF" s1)
        by (destruct (errno s1 =? EIO); exact Hres).
      clear Hres. unfold errno_exit in Hres'. run_in Hres'. subst res. cbn [frame_tally].
      apply tally_weaken with (lo := d) (hi := d); [|lia..].
      eapply (tally_quiet _ _ _ _ s1 _ [_] Ht1); reflexivity.
  - unfold bind at 1 in Hres.
    destruct (_ <? _).
    2:{ unfold stop in Hres. subst res. cbn [frame_tally].
        apply tally_weaken with (lo := d) (hi := d); [exact Ht1|lia..]. }
    unfold ret at 1 in Hres. unfold bind at 1, load_buffer at 1 in Hres.
    unfold bind at 1, get_glob in Hres.
    assert (Hhalt : frame_tally g tr0 d (Halt (A := Z) out_of_bounds s1)).
    { cbn [frame_tally]. apply tally_weaken with (lo := d) (hi := d); [exact Ht1|lia..]. }
    destruct (0 <=? _); [|subst res; exact Hhalt].
    destruct (buffers_mem (glob s1) !! _) as [b|]; [|subst res; exact Hhalt].
    clear Hhalt. unfold ret at 1 in Hres.
    set (size := to_int _) in Hres. unfold bind at 1 in Hres.
    assert (Hpi : exists s2, process_image (start b) size s1 = Ret tt s2 /\
                    tally g tr0 (d + 1) (d + 1) s2).
    { unfold process_image. run. pose proof Ht1 as (Hg1' & _). rewrite Hg1'.
      destruct (out_buf g =? 0) eqn:Eo; cbn [negb]; (eexists; split; [reflexivity|]);
        apply (tally_frame g tr0 d s1 _ (start b) (to_size_t size) Ht1); try reflexivity;
        cbn [trace]; rewrite Eo; reflexivity. }
    destruct Hpi as (s2 & Hpi & Ht2). rewrite Hpi in Hres. clear Hpi.
    set (qarg := arg_buffer _) in Hres. unfold bind at 1 in Hres.
    destruct (xioctl_spec (fd (glob s)) VIDIOC_QBUF qarg s2) as (qretries & _ & Hqx).
    destruct (xioctl _ _ _ s2) as [[r a] s3|h s3].
    2:{ destruct Hqx as (_ & _ & _ & Hg3 & Htr3). subst res. cbn [frame_tally].
        apply tally_weaken with (lo := d + 1) (hi := d + 1); [|lia..].
        apply (tally_quiet _ _ _ _ s2 _ _ Ht2 Hg3 Htr3), silent_calls. }
    destruct Hqx as (q & _ & Hg3 & Htr3 & -> & _).
    assert (Ht3 : tally g tr0 (d + 1) (d + 1) s3).
    { apply (tally_quiet _ _ _ _ s2 _ (Call (call_ioctl (fd (glob s)) VIDIOC_QBUF qarg) q
               :: map (Call (call_ioctl (fd (glob s)) VIDIOC_QBUF qarg)) (rev qretries))
               Ht2 Hg3 Htr3).
      cbn [forallb]. apply silent_calls. }
    unfold bind at 1 in Hres. destruct (r_ret q =? -1).
    + unfold errno_exit in Hres. run_in Hres. subst res. cbn [frame_tally].
      apply tally_weaken with (lo := d + 1) (hi := d + 1); [|lia..].
      eapply (tally_quiet _ _ _ _ s3 _ [_] Ht3); reflexivity.
    + unfold ret in Hres. subst res. exact Ht3.
Qed.

Lemma select_loop_tally g tr0 d s :
  tally g tr0 d d s -> round_tally g tr0 d (select_loop s).
Proof.
  unfold select_loop. revert s.
  cut (forall (u : unit) s, tally g tr0 d d s -> round_tally g tr0 d (loop select_body u s)).
  { intros H s. apply H. }
  apply (loop_invariant select_body (fun _ => tally g tr0 d d) (round_tally g tr0 d));
    [auto with progress|].
  intros [] s Ht.
  assert (Hweak : forall s', tally g tr0 d d s' -> tally g tr0 d (d + 1) s')
    by (intros s' H; apply tally_weaken with (lo := d) (hi := d); [exact H|lia..]).
  remember (select_body tt s) as res eqn:Hres.
  unfold select_body in Hres. unfold bind at 1, get_glob in Hres.
  unfold bind at 1, sys in Hres.
  destruct (script s) as [|r rest]; [subst res; apply Hweak, Ht|].
  set (s1 := answered _ r rest s) in Hres.
  assert (Ht1 : tally g tr0 d d s1) by (eapply (tally_quiet _ _ _ _ s _ [_] Ht); reflexivity).
  destruct (r_ret r =? -1).
  { unfold bind at 1, get_errno in Hres. destruct (_ =? EINTR).
    - subst res. exact Ht1.
    - unfold errno_exit in Hres. run_in Hres. subst res. apply Hweak.
      eapply (tally_quiet _ _ _ _ s1 _ [_] Ht1); reflexivity. }
  destruct (r_ret r =? 0).
  { run_in Hres. subst res. apply Hweak.
    eapply (tally_quiet _ _ _ _ s1 _ [_] Ht1); reflexivity. }
  unfold bind at 1 in Hres. pose proof (read_frame_tally g tr0 d s1 Ht1) as Hrf.
  destruct (read_frame s1) as [f s2|h s2]; [|subst res; exact Hrf].
  cbn [frame_tally] in Hrf. destruct (f =? 0); subst res; exact Hrf.
Qed.

Lemma mainloop_tally s :
  loop_tally (glob s) (trace s) (to_uint (frame_count (glob s))) (mainloop s).
Proof.
  unfold mainloop. unfold bind, get_glob.
  set (g := glob s). set (tr0 := trace s). set (n := to_uint (frame_count g)).
  assert (Hn : 0 <= n < 2 ^ 32) by apply to_uint_range.
  cut (forall count s', (fun count s' => 0 <= count <= n /\ tally g tr0 (n - count) (n - count) s')
                          count s' ->
                        loop_tally g tr0 n (loop mainloop_body count s')).
  { intros H. apply H. split; [lia|]. split; [reflexivity|]. exists []. 
    rewrite Z.sub_diag. repeat split; cbn; try lia. destruct (out_buf g =? 0); reflexivity. }
  apply (loop_invariant mainloop_body); [auto with progress|].
  intros count s' (Hc & Ht). unfold mainloop_body.
  destruct (count >? 0) eqn:Ec.
  - apply Z.gtb_lt in Ec. unfold bind.
    pose proof (select_loop_tally g tr0 (n - count) s' Ht) as Hsl.
    destruct (select_loop s') as [[] s2|h s2]; cbn [round_tally] in Hsl.
    + unfold continue, ret. rewrite to_uint_small by lia. split; [lia|].
      replace (n - (count - 1)) with (n - count + 1) by lia. exact Hsl.
    + cbn [loop_tally]. apply tally_weaken with (lo := n - count) (hi := n - count + 1);
        [exact Hsl|lia..].
  - unfold break, ret. cbn [loop_tally]. assert (count = 0) as -> by lia.
    rewrite Z.sub_0_r in Ht. exact Ht.
Qed.

(** Whatever the environment answers, mainloop never delivers more frames
    than frame_count (read as an unsigned int) asks for, and when it
    returns it has delivered exactly that many. *)
Theorem mainloop_never_exceeds_count (s : state) :
  exists new,
    trace (final_state (mainloop s)) = new ++ trace s /\
    match mainloop s with
    | Ret _ _ => Z.of_nat (delivered new) = to_uint (frame_count (glob s))
    | Halt _ _ => Z.of_nat (delivered new) <= to_uint (frame_count (glob s))
    end.
Proof.
  pose proof (mainloop_tally s) as H.
  destruct (mainloop s) as [[] s'|h s']; destruct H as (_ & new & Htr & Hd & _);
    exists new; (split; [exact Htr|lia]).
Qed.

(** Whatever the environment answers, mainloop leaves the globals as they
    are and writes a frame to stdout exactly once for each frame it
    delivers when out_buf is set, and never when it is 0. *)
Theorem frames_written_only_on_request (s : state) :
  exists new,
    trace (final_state (mainloop s)) = new ++ trace s /\
    written_out new = (if out_buf (glob s) =? 0 then 0%nat else delivered new) /\
    glob (final_state (mainloop s)) = glob s.
Proof.
  pose proof (mainloop_tally s) as H.
  destruct (mainloop s) as [[] s'|h s']; destruct H as (Hg & new & Htr & _ & Hw);
    exists new; (split; [exact Htr|split; [exact Hw|exact Hg]]).
Qed.

(** * Writing frames out *)

Lemma dequeued_bytesused_range rep :
  0 <= buf_bytesused (the_buffer (written rep (arg_buffer (fresh_buffer 0))) (fresh_buffer 0))
    < 2 ^ 32.
Proof.
  unfold written. destruct (r_ret rep =? -1); [cbn; lia|].
  destruct (r_out rep) as [|[]| |]; cbn; try lia. apply to_uint_range.
Qed.

Lemma size_conversion used :
  0 <= used < 2 ^ 32 -> to_size_t (to_int used) = bytes_written used.
Proof.
  intros H. unfold bytes_written, to_size_t, to_int.
  destruct (used <? 2 ^ 31) eqn:E.
  - apply Z.ltb_lt in E. rewrite (Z.mod_small (used + 2 ^ 31)) by lia.
    rewrite Z.mod_small; lia.
  - apply Z.ltb_ge in E.
    replace ((used + 2 ^ 31) mod 2 ^ 32) with (used - 2 ^ 31)
      by (apply (Z.mod_unique _ _ 1); lia).
    symmetry. apply (Z.mod_unique _ _ (-1)); lia.
Qed.

(** With out_buf set, a frame that is dequeued from buffer [b] is written
    to stdout from the start of [b], and the length passed to fwrite is
    bytesused as the driver reported it when that is below 2^31, and
    bytesused + 2^64 - 2^32 otherwise; the length of the mapping plays no
    part. *)
Theorem frame_written_with_reported_size (r q : reply) (rest : list reply) (s : state)
    (b : buffer) :
  out_buf (glob s) <> 0 ->
  script s = r :: q :: rest -> r_ret r <> -1 -> r_ret q <> -1 ->
  let buf := the_buffer (written r (arg_buffer (fresh_buffer 0))) (fresh_buffer 0) in
  0 <= buf_index buf < n_buffers (glob s) ->
  buffers_mem (glob s) !! Z.to_nat (buf_index buf) = Some b ->
  exists s',
    read_frame s = Ret 1 s' /\
    List.filter is_fwrite (trace s')
    = Fwrite (start b) (bytes_written (buf_bytesused buf)) :: List.filter is_fwrite (trace s).
Proof.
  intros Ho Hs Hr Hq buf Hi Hb.
  destruct (read_frame_frame r q rest s b Hs Hr Hq Hi Hb) as (s' & Hrf & _ & _ & Htr).
  exists s'. split; [exact Hrf|]. rewrite Htr. unfold frame_events.
  apply Z.eqb_neq in Ho. rewrite Ho. fold buf.
  rewrite size_conversion by apply dequeued_bytesused_range. reflexivity.
Qed.

(** The driver reports 3000000000 bytes for a buffer of 614400. *)
Lemma frame_written_with_reported_size_witness :
  exists s',
    read_frame (recording 1 [dequeued 0 3000000000; ok 0]) = Ret 1 s' /\
    List.filter is_fwrite (trace s') = [Fwrite 4096 18446744072414584320].
Proof.
  destruct (frame_written_with_reported_size (dequeued 0 3000000000) (ok 0) []
              (recording 1 [dequeued 0 3000000000; ok 0])
              {| start := 4096; len := 614400 |})
    as (s' & Hrf & Hw).
  - discriminate.
  - reflexivity.
  - discriminate.
  - discriminate.
  - vm_compute. split; [discriminate|reflexivity].
  - reflexivity.
  - exists s'. split; [exact Hrf|]. rewrite Hw. reflexivity.
Defined.

(** * open_device and close_device *)

(** Whatever the environment answers, open_device returns only when stat
    succeeded on dev_name and reported a character device and open
    (O_RDWR | O_NONBLOCK) returned something other than -1, which is then
    fd.  When stat fails or reports anything but a character device the
    process exits with status 1 after a message, and open is not called;
    when open fails it exits with status 1 as well. *)
Theorem open_device_outcomes (s : state) : open_device_result s (open_device s).
Proof.
  unfold open_device. unfold bind at 1, get_glob. unfold bind at 1, sys.
  destruct (script s) as [|st rest] eqn:Hs; [left; split; [reflexivity|exact Hs]|].
  set (s1 := answered _ st rest s).
  destruct (r_ret st =? -1) eqn:Est.
  { run. right. split; [reflexivity|]. eexists _, _, st, rest. split; [exact Hs|].
    left. apply Z.eqb_eq in Est. repeat split. left. exact Est. }
  unfold bind at 1, ret at 1. change (match r_out st with wrote_stat m => m | _ => 0 end)
    with (st_mode_of st).
  destruct (S_ISCHR (st_mode_of st)) eqn:Echr; cbn [negb].
  2:{ run. right. split; [reflexivity|]. eexists _, _, st, rest. split; [exact Hs|].
      left. repeat split. right. exact Echr. }
  unfold bind at 1, ret at 1. unfold bind at 1, sys. cbn [script s1 answered].
  destruct rest as [|o rest'].
  { left. split; reflexivity. }
  destruct (r_ret o =? -1) eqn:Eo.
  - run. rewrite ?Eo. right. split; [reflexivity|]. eexists _, _, st, (o :: rest').
    split; [exact Hs|]. right. exists o, rest'. apply Z.eqb_eq in Eo. rewrite Eo.
    repeat split.
  - run. rewrite ?Eo. cbn [open_device_result]. exists st, o, rest'.
    apply Z.eqb_neq in Est, Eo. repeat split; assumption.
Qed.

(** capture -d /tmp: stat says directory, the process exits, nothing is
    opened. *)
Lemma open_device_refuses_directory :
  exists s',
    open_device (initial_state [stat_dir; ok 3]) = Halt (exited EXIT_FAILURE) s' /\
    script s' = [ok 3] /\ fd (glob s') = -1.
Proof. eexists. vm_compute. repeat split. Qed.

(** * init_device *)

Lemma emits_at_all {A} E (m : M A) s : emits E m -> emits_at E m s.
Proof. intros H. exact (H s). Qed.

Lemma emits_at_bind {A B} E (m : M A) (k : A -> M B) s :
  emits_at E m s ->
  (forall a s', m s = Ret a s' -> emits_at E (k a) s') ->
  emits_at E (bind m k) s.
Proof.
  intros (new1 & Ht1 & Hf1) Hk. unfold emits_at, bind.
  destruct (m s) as [a s1|h s1]; cbn [final_state] in *.
  - destruct (Hk a s1 eq_refl) as (new2 & Ht2 & Hf2). exists (new2 ++ new1).
    rewrite Ht2, Ht1, app_assoc, forallb_app, Hf1, Hf2. split; reflexivity.
  - exists new1. split; assumption.
Qed.

Lemma allows_not_ioctl request k :
  k <> k_ioctl request -> allows (fun e => negb (is_ioctl request e)) k.
Proof.
  intros Hk e He. destruct e as [[]| | | |]; try reflexivity.
  cbn in *. apply negb_true_iff, bool_decide_eq_false. congruence.
Qed.

Lemma open_device_force_format s :
  force_format (glob (final_state (open_device s))) = force_format (glob s).
Proof.
  unfold open_device. run. unfold sys.
  destruct (script s) as [|st rest]; [reflexivity|]. run.
  destruct (r_ret st =? -1); [reflexivity|]. destruct (negb _); [reflexivity|].
  destruct rest as [|o rest']; run; [reflexivity|]. destruct (r_ret o =? -1); reflexivity.
Qed.

(** With force_format 0, init_device takes the VIDIOC_G_FMT branch. *)
Lemma init_device_default_emits E s :
  force_format (glob s) = 0 ->
  allows E (k_ioctl VIDIOC_QUERYCAP) -> allows E (k_ioctl VIDIOC_CROPCAP) ->
  allows E (k_ioctl VIDIOC_S_CROP) -> allows E (k_ioctl VIDIOC_G_FMT) ->
  allows E k_message -> emits E init_mmap ->
  emits_at E init_device s.
Proof.
  intros Hf H1 H2 H3 H4 H5 Hm. unfold emits_at, init_device.
  unfold bind at 1, get_glob. cbv zeta. rewrite Hf. change (negb (0 =? 0)) with false.
  cbv iota.
  match goal with
  | |- context [final_state (?m s)] => assert (Hemits : emits E m) by emits_tac
  end.
  exact (Hemits s).
Qed.

Lemma main_default_emits E argv s :
  force_format (glob s) = 0 ->
  allows E k_getopt -> allows E k_strtol -> allows E k_stat -> allows E k_open ->
  allows E (k_ioctl VIDIOC_QUERYCAP) -> allows E (k_ioctl VIDIOC_CROPCAP) ->
  allows E (k_ioctl VIDIOC_S_CROP) -> allows E (k_ioctl VIDIOC_G_FMT) ->
  allows E k_message -> emits E init_mmap -> emits E capture_and_teardown ->
  emits_at E (main argv) s.
Proof.
  intros Hf. intros. unfold main.
  apply emits_at_bind; [apply emits_at_all; emits_tac|]. intros [] s0 Hs0.
  assert (Hf0 : force_format (glob s0) = 0).
  { unfold update_glob in Hs0. injection Hs0 as <-. exact Hf. }
  apply emits_at_bind; [apply emits_at_all, parse_options_emits; assumption|].
  intros [] s1 Hs1.
  assert (Hf1 : force_format (glob s1) = 0).
  { pose proof (parse_options_force_format argv s0) as H'. rewrite Hs1 in H'.
    cbn [final_state] in H'. congruence. }
  apply emits_at_bind; [apply emits_at_all, open_device_emits; assumption|].
  intros [] s2 Hs2.
  assert (Hf2 : force_format (glob s2) = 0).
  { pose proof (open_device_force_format s1) as H'. rewrite Hs2 in H'.
    cbn [final_state] in H'. congruence. }
  apply emits_at_bind; [apply init_device_default_emits; assumption|].
  intros [] s3 _. apply emits_at_all. assumption.
Qed.

(** Whatever the command line and whatever the environment answers, the
    program never issues VIDIOC_S_FMT: it never changes the format of the
    device. *)
Theorem main_never_sets_format (argv : list string) (answers : list reply) :
  forallb (fun e => negb (is_ioctl VIDIOC_S_FMT e))
    (trace (final_state (main argv (initial_state answers)))) = true.
Proof.
  destruct (main_default_emits (fun e => negb (is_ioctl VIDIOC_S_FMT e)) argv
              (initial_state answers)) as (new & Htr & Hf);
    try (apply allows_not_ioctl; discriminate); try reflexivity.
  - apply init_mmap_emits; apply allows_not_ioctl; discriminate.
  - apply capture_and_teardown_emits; apply allows_not_ioctl; discriminate.
  - rewrite Htr, app_nil_r. exact Hf.
Qed.

(** Whatever the environment answers, every call init_device makes other
    than VIDIOC_QUERYCAP comes after a VIDIOC_QUERYCAP that succeeded and
    reported both V4L2_CAP_VIDEO_CAPTURE and V4L2_CAP_STREAMING; without
    one, init_device only queries and prints, and does not return. *)
Theorem init_device_requires_capabilities (s : state) :
  exists new,
    trace (final_state (init_device s)) = new ++ trace s /\
    (existsb capable new = true \/
     forallb query_or_message new = true /\
     match init_device s with Ret _ _ => False | Halt _ _ => True end).
Proof.
  remember (init_device s) as res eqn:Hres.
  unfold init_device in Hres. unfold bind at 1, get_glob in Hres. cbv zeta in Hres.
  unfold bind at 1 in Hres.
  destruct (xioctl_spec (fd (glob s)) VIDIOC_QUERYCAP (arg_capability 0) s)
    as (retries & _ & Hx).
  assert (Hq : forall l, forallb query_or_message
                 (map (Call (call_ioctl (fd (glob s)) VIDIOC_QUERYCAP (arg_capability 0))) l)
               = true).
  { induction l as [|r l IH]; [reflexivity|]. cbn [map forallb]. rewrite IH. reflexivity. }
  destruct (xioctl _ _ _ s) as [[r a] s1|h s1].
  2:{ destruct Hx as (_ & _ & _ & _ & Htr1). subst res. eexists. split; [exact Htr1|].
      right. split; [apply Hq|exact I]. }
  destruct Hx as (rep & _ & _ & Htr1 & -> & ->).
  set (c := call_ioctl _ _ _) in *.
  destruct (r_ret rep =? -1) eqn:Er.
  { unfold bind at 1 in Hres. unfold bind at 1, get_errno in Hres.
    destruct (errno s1 =? EINVAL); [|unfold errno_exit in Hres]; run_in Hres; subst res;
      cbn [final_state trace]; rewrite Htr1;
      (eexists (_ :: _ :: _); split; [reflexivity|]); right;
      (split; [cbn [forallb]; rewrite Hq; reflexivity|exact I]). }
  unfold bind at 1, ret at 1 in Hres.
  destruct (Z.land _ V4L2_CAP_VIDEO_CAPTURE =? 0) eqn:Ec.
  { run_in Hres. subst res. cbn [final_state trace]. rewrite Htr1.
    eexists (_ :: _ :: _). split; [reflexivity|]. right.
    split; [cbn [forallb]; rewrite Hq; reflexivity|exact I]. }
  unfold bind at 1, ret at 1 in Hres.
  destruct (Z.land _ V4L2_CAP_STREAMING =? 0) eqn:Es.
  { run_in Hres. subst res. cbn [final_state trace]. rewrite Htr1.
    eexists (_ :: _ :: _). split; [reflexivity|]. right.
    split; [cbn [forallb]; rewrite Hq; reflexivity|exact I]. }
  unfold bind at 1, ret at 1 in Hres.
  match type of Hres with
  | res = ?m s1 => assert (Hm : emits (fun _ => true) m)
  end.
  { emits_tac; try (apply xioctl_emits, allows_anything).
    all: try (apply errno_exit_emits, allows_anything).
    apply init_mmap_emits; apply allows_anything. }
  destruct (Hm s1) as (new & Htr & _). rewrite <- Hres in Htr.
  exists (new ++ Call c rep :: map (Call c) (rev retries)).
  rewrite Htr, Htr1, <- app_assoc. split; [reflexivity|]. left.
  rewrite existsb_app. cbn [existsb capable]. unfold c at 1. cbn [capable].
  rewrite Er, Ec, Es. cbn. apply orb_true_r.
Qed.

(** * The command line *)

Lemma getopt_body_option argv o rest s :
  script s = option_script o ++ rest ->
  getopt_body argv tt s = Ret (inl tt) (after_options argv [o] rest s).
Proof.
  intros Hs. unfold getopt_body. run. unfold sys. rewrite Hs.
  destruct o as [name| |text value]; cbn [option_script app]; run;
    cbn [r_ret opt ok r_out r_errno]; eval_chr; run; reflexivity.
Qed.

Lemma after_options_cons argv o os rest rest' s :
  after_options argv os rest (after_options argv [o] rest' s)
  = after_options argv (o :: os) rest s.
Proof.
  unfold after_options. cbn [glob errno trace foldl rev flat_map app].
  rewrite flat_map_app. cbn [flat_map]. rewrite app_nil_r, <- app_assoc. reflexivity.
Qed.

(** The option loop of main, option by option. *)
Lemma parse_options_prefix argv os rest s :
  script s = flat_map option_script os ++ rest ->
  parse_options argv s = parse_options argv (after_options argv os rest s).
Proof.
  revert s. induction os as [|o os IH]; intros s Hs.
  - cbn [flat_map app] in Hs. unfold after_options. cbn [foldl rev flat_map app].
    destruct s; cbn in *; subst; reflexivity.
  - cbn [flat_map] in Hs. rewrite <- app_assoc in Hs.
    rewrite getopt_body_unfold, (getopt_body_option _ _ _ _ Hs).
    rewrite (IH (after_options argv [o] (flat_map option_script os ++ rest) s) eq_refl).
    rewrite after_options_cons. reflexivity.
Qed.

(** The options are applied from left to right: a later -d or -c
    overrides an earlier one, every -o adds one to out_buf, and -c stores
    the low 32 bits of what strtol returned.  When getopt_long returns -1
    the loop ends, having done nothing but these calls. *)
Theorem parse_options_folds (argv : list string) (os : list cli_option)
    (rest : list reply) (s : state) :
  script s = flat_map option_script os ++ opts_end :: rest ->
  parse_options argv s
  = Ret tt (answered (getopt_call argv) opts_end rest
              (after_options argv os (opts_end :: rest) s)).
Proof.
  intros Hs. rewrite (parse_options_prefix _ _ _ _ Hs), getopt_body_unfold.
  unfold getopt_body. run. reflexivity.
Qed.

(** capture -c 10 -d /dev/video1 -o -c 3 -o *)
Lemma parse_options_folds_witness :
  exists s',
    parse_options ["capture"]
      (initial_state [opt "c" "10"; ok 10; opt "d" "/dev/video1"; opt "o" ""; opt "c" "3";
                      ok 3; opt "o" ""; opts_end; stat_chr]) = Ret tt s' /\
    frame_count (glob s') = 3 /\ dev_name (glob s') = "/dev/video1" /\
    out_buf (glob s') = 2 /\ script s' = [stat_chr].
Proof.
  eexists. split.
  - apply (parse_options_folds ["capture"]
             [opt_count "10" 10; opt_device "/dev/video1"; opt_output; opt_count "3" 3;
              opt_output] [stat_chr]).
    reflexivity.
  - repeat split.
Defined.

(** -h after other options: usage goes to stdout with the device name and
    the frame count those options have set, and the process exits with
    status 0; what follows on the command line is not looked at, and the
    device is not touched. *)
Theorem help_reports_current_settings (argv : list string) (os : list cli_option)
    (r : reply) (rest : list reply) (s : state) :
  script s = flat_map option_script os ++ r :: rest ->
  r_ret r = chr "h"%char ->
  let s0 := with_glob (set_dev_name "/dev/video0" (glob s)) s in
  let s1 := after_options argv os (r :: rest) s0 in
  main argv s
  = Halt (exited EXIT_SUCCESS)
      (log (Fprintf stdout usage_text
              [fmt_s (hd "" argv); fmt_s (dev_name (glob s1)); fmt_d (frame_count (glob s1))])
         (answered (getopt_call argv) r rest s1)).
Proof.
  intros Hs Hr s0 s1. unfold main. unfold bind at 1, update_glob at 1. fold s0.
  unfold bind at 1. rewrite (parse_options_prefix argv os (r :: rest) s0 Hs). fold s1.
  rewrite getopt_body_unfold. unfold getopt_body. run. unfold sys.
  replace (script s1) with (r :: rest) by reflexivity. run. rewrite Hr. eval_chr.
  unfold usage. run. reflexivity.
Qed.

(** capture -c 5 -h -x *)
Lemma help_reports_current_settings_witness :
  main ["capture"] (initial_state [opt "c" "5"; ok 5; opt "h" ""; opt "?" ""])
  = Halt (exited 0)
      {| glob := set_frame_count 5 (set_dev_name "/dev/video0" initial_globals);
         errno := 0;
         script := [opt "?" ""];
         trace := [ Fprintf stdout usage_text [fmt_s "capture"; fmt_s "/dev/video0"; fmt_d 5];
                    Call (getopt_call ["capture"]) (opt "h" "");
                    Call (call_strtol "5" 0) (ok 5);
                    Call (getopt_call ["capture"]) (opt "c" "5") ] |}.
Proof.
  rewrite (help_reports_current_settings ["capture"] [opt_count "5" 5] (opt "h" "")
             [opt "?" ""] (initial_state [opt "c" "5"; ok 5; opt "h" ""; opt "?" ""])
             eq_refl eq_refl).
  reflexivity.
Defined.

(** -c with an argument for which strtol reports an error (it stores a
    value in errno): the process exits with status 1 through errno_exit,
    the message naming the argument and the error. *)
Theorem count_conversion_error_exits (argv : list string) (os : list cli_option)
    (text : string) (v : reply) (rest : list reply) (s : state) :
  script s = flat_map option_script os ++ opt "c" text :: v :: rest ->
  r_errno v <> 0 ->
  let s0 := with_glob (set_dev_name "/dev/video0" (glob s)) s in
  let s1 := after_options argv os (opt "c" text :: v :: rest) s0 in
  exists s',
    main argv s = Halt (exited EXIT_FAILURE) s' /\
    script s' = rest /\
    trace s' = Fprintf stderr "%s error %d, %s\n"
                 [fmt_s text; fmt_d (r_errno v); fmt_strerror (r_errno v)]
               :: Call (call_strtol text 0) v :: Call (getopt_call argv) (opt "c" text)
               :: trace s1.
Proof.
  intros Hs He s0 s1. unfold main. unfold bind at 1, update_glob at 1. fold s0.
  unfold bind at 1. rewrite (parse_options_prefix argv os _ s0 Hs). fold s1.
  rewrite getopt_body_unfold. unfold getopt_body. run. unfold sys.
  replace (script s1) with (opt "c" text :: v :: rest) by reflexivity. run.
  cbn [r_ret opt r_out r_errno]. eval_chr. run. apply Z.eqb_neq in He. rewrite He. cbn [negb].
  unfold errno_exit. run. rewrite He. eexists. split; [reflexivity|]. split; reflexivity.
Qed.

(** capture -c 99999999999999999999: strtol returns LONG_MAX and sets
    errno to ERANGE (34). *)
Lemma count_conversion_error_exits_witness :
  exists s',
    main ["capture"]
      (initial_state [opt "c" "99999999999999999999";
                      {| r_ret := 9223372036854775807; r_errno := 34; r_out := no_payload |};
                      opts_end]) = Halt (exited 1) s' /\
    script s' = [opts_end] /\
    hd_error (trace s')
    = Some (Fprintf stderr "%s error %d, %s\n"
              [fmt_s "99999999999999999999"; fmt_d 34; fmt_strerror 34]).
Proof.
  destruct (count_conversion_error_exits ["capture"] [] "99999999999999999999"
              {| r_ret := 9223372036854775807; r_errno := 34; r_out := no_payload |}
              [opts_end]
              (initial_state [opt "c" "99999999999999999999";
                              {| r_ret := 9223372036854775807; r_errno := 34;
                                 r_out := no_payload |};
                              opts_end]) eq_refl ltac:(discriminate))
    as (s' & Hm & Hsc & Htr).
  exists s'. split; [exact Hm|]. split; [exact Hsc|]. rewrite Htr. reflexivity.
Defined.

(** Any value of getopt_long for which the switch has no case -- '?' for
    an option it does not know, but also 'm', 'r' and 'u', which
    short_options accepts -- ends the process with the usage text on
    stderr and status 1, whatever options came before. *)
Theorem unhandled_option_exits (argv : list string) (os : list cli_option)
    (r : reply) (rest : list reply) (s : state) :
  script s = flat_map option_script os ++ r :: rest ->
  ~ handled (r_ret r) ->
  let s0 := with_glob (set_dev_name "/dev/video0" (glob s)) s in
  let s1 := after_options argv os (r :: rest) s0 in
  main argv s
  = Halt (exited EXIT_FAILURE)
      (log (Fprintf stderr usage_text
              [fmt_s (hd "" argv); fmt_s (dev_name (glob s1)); fmt_d (frame_count (glob s1))])
         (answered (getopt_call argv) r rest s1)).
Proof.
  intros Hs Hr s0 s1. unfold main. unfold bind at 1, update_glob at 1. fold s0.
  unfold bind at 1. rewrite (parse_options_prefix argv os (r :: rest) s0 Hs). fold s1.
  rewrite getopt_body_unfold.
  rewrite (getopt_body_default argv r rest s1 eq_refl);
    [reflexivity|intros H; apply Hr; unfold handled; tauto..].
Qed.

(** capture -o -m *)
Lemma unhandled_option_exits_witness :
  exit_status (main ["capture"] (initial_state [opt "o" ""; opt "m" ""; opts_end])) = Some 1 /\
  hd_error (trace (final_state
                     (main ["capture"] (initial_state [opt "o" ""; opt "m" ""; opts_end]))))
  = Some (Fprintf stderr usage_text [fmt_s "capture"; fmt_s "/dev/video0"; fmt_d 70]).
Proof.
  rewrite (unhandled_option_exits ["capture"] [opt_output] (opt "m" "") [opts_end]
             (initial_state [opt "o" ""; opt "m" ""; opts_end]) eq_refl).
  - split; reflexivity.
  - unfold handled. vm_compute. intros [H|[H|[H|[H|[H|H]]]]]; discriminate.
Defined.

Lemma to_uint_to_int v : to_uint (to_int v) = v mod 2 ^ 32.
Proof.
  unfold to_uint, to_int. rewrite Zminus_mod_idemp_l. f_equal. lia.
Qed.

(** -c stores what strtol returns, a long, in the int frame_count, and
    mainloop reads that as an unsigned int: the number of frames captured
    is the argument modulo 2^32.  Served that many rounds, mainloop
    returns having delivered that many frames. *)
Theorem count_is_taken_modulo (argv : list string) (text : string) (value : Z)
    (rest : list reply) (s : state) :
  script s = opt "c" text :: ok value :: opts_end :: rest ->
  exists s1,
    parse_options argv s = Ret tt s1 /\
    frame_count (glob s1) = to_int value /\
    forall s2 rounds rest2,
      frame_count (glob s2) = frame_count (glob s1) ->
      Forall (round_ok (glob s2)) rounds ->
      Z.of_nat (length rounds) = value mod 2 ^ 32 ->
      script s2 = flat_map round_script rounds ++ rest2 ->
      exists s3,
        mainloop s2 = Ret tt s3 /\ script s3 = rest2 /\
        trace s3 = rounds_events (glob s2) rounds ++ trace s2 /\
        Z.of_nat (delivered (rounds_events (glob s2) rounds)) = value mod 2 ^ 32.
Proof.
  intros Hs. eexists. split.
  { rewrite (parse_options_prefix argv [opt_count text value] (opts_end :: rest) s Hs).
    rewrite getopt_body_unfold. unfold getopt_body. run. reflexivity. }
  split; [reflexivity|].
  intros s2 rounds rest2 Hc Hok Hlen Hs2. cbn [glob answered after_options foldl
    apply_option frame_count set_frame_count] in Hc.
  destruct (mainloop_rounds rounds rest2 s2 Hok) as (s3 & Hl & _ & Hsc & Htr);
    [rewrite Hc, to_uint_to_int; exact Hlen|exact Hs2|].
  exists s3. repeat split; try assumption.
  rewrite rounds_events_delivered by exact Hok. exact Hlen.
Qed.

(** capture -c 4294967297 captures one frame. *)
Lemma count_is_taken_modulo_witness :
  exists s3,
    (parse_options ["capture"];; with_session;; mainloop)
      (initial_state [opt "c" "4294967297"; ok 4294967297; opts_end;
                      ready; dequeued 0 614400; ok 0]) = Ret tt s3 /\
    delivered (trace s3) = 1%nat /\ script s3 = [].
Proof.
  destruct (count_is_taken_modulo ["capture"] "4294967297" 4294967297
              [ready; dequeued 0 614400; ok 0]
              (initial_state [opt "c" "4294967297"; ok 4294967297; opts_end;
                              ready; dequeued 0 614400; ok 0]) eq_refl)
    as (s1 & Hp & Hc & Hm).
  unfold bind at 1. rewrite Hp. unfold bind at 1, with_session, update_glob.
  vm_compute in Hp. injection Hp as <-.
  match goal with
  | |- exists s3, mainloop ?s2 = _ /\ _ =>
      destruct (Hm s2 [frame 0 614400] []) as (s3 & Hl & Hsc & Htr & Hd)
  end.
  - reflexivity.
  - repeat constructor; cbn; try lia. eexists; reflexivity.
  - reflexivity.
  - reflexivity.
  - exists s3. split; [exact Hl|]. split; [|exact Hsc]. rewrite Htr. reflexivity.
Defined.

(** * Format and cropping *)

(** An ioctl whose first answer is not an interruption is issued once. *)
Lemma xioctl_settled fh request arg rep rest s :
  script s = rep :: rest -> settles rep ->
  xioctl fh request arg s
  = Ret (r_ret rep, written rep arg) (answered (call_ioctl fh request arg) rep rest s).
Proof.
  intros Hs [Hok|[H0 Hi]].
  - apply (xioctl_success _ _ _ _ _ _ Hs Hok).
  - apply (xioctl_failure _ _ _ _ _ _ Hs). cbn [errno answered].
    apply Z.eqb_neq in H0. rewrite H0. exact Hi.
Qed.

Lemma capable_inv c arg q :
  capable (Call (call_ioctl c VIDIOC_QUERYCAP arg) q) = true ->
  r_ret q <> -1 /\
  (Z.land (the_capabilities (written q arg) 0) V4L2_CAP_VIDEO_CAPTURE =? 0) = false /\
  (Z.land (the_capabilities (written q arg) 0) V4L2_CAP_STREAMING =? 0) = false.
Proof.
  cbn [capable]. intros H. apply andb_prop in H as [H H3]. apply andb_prop in H as [H1 H2].
  apply negb_true_iff in H1, H2, H3. apply Z.eqb_neq in H1. repeat split; assumption.
Qed.

(** init_device without force_format, on a capable device. *)
Lemma init_device_negotiates q cc c f rest s :
  force_format (glob s) = 0 ->
  capable (Call (querycap_call (glob s)) q) = true ->
  settles cc -> settles c -> r_ret f <> -1 ->
  script s = q :: crop_script cc c ++ f :: rest ->
  exists s',
    init_device s = init_mmap s' /\ glob s' = glob s /\ script s' = rest /\
    trace s' = Call (get_format_call (glob s)) f
                 :: crop_events (glob s) cc c ++ Call (querycap_call (glob s)) q :: trace s.
Proof.
  intros Hf Hq Hcc Hc Hr Hs. apply capable_inv in Hq as (Hq1 & Hq2 & Hq3).
  unfold init_device. unfold bind at 1, get_glob. cbv zeta.
  rewrite (bind_ret _ _ _ _ _ (xioctl_success _ _ _ _ _ _ Hs Hq1)). cbv beta iota.
  apply Z.eqb_neq in Hq1. rewrite Hq1, Hq2, Hq3. apply Z.eqb_neq in Hr.
  cbv iota. unfold bind at 1, ret at 1. unfold bind at 1, ret at 1.
  unfold bind at 1, ret at 1.
  rewrite Hf. change (negb (0 =? 0)) with false. cbv iota.
  set (s1 := answered _ q _ s). unfold crop_script, crop_events in *.
  destruct (r_ret cc =? 0) eqn:Ecc; cbn [app] in *.
  - rewrite (bind_ret _ _ _ _ _ (xioctl_settled _ _ _ cc _ s1 eq_refl Hcc)). cbv beta iota.
    rewrite Ecc. set (s2 := answered _ cc _ s1).
    unfold bind at 1. unfold bind at 1.
    rewrite (xioctl_settled _ _ _ c _ s2 eq_refl Hc). set (s3 := answered _ c _ s2).
    assert (Hskip : (if r_ret c =? -1
                     then let* e := get_errno in if e =? EINVAL then ret tt else ret tt
                     else ret tt) s3 = Ret tt s3).
    { destruct (r_ret c =? -1); [|reflexivity]. unfold bind, get_errno.
      destruct (_ =? EINVAL); reflexivity. }
    rewrite Hskip. unfold bind at 1.
    rewrite (bind_ret _ _ _ _ _ (xioctl_success _ _ _ f rest s3 eq_refl
                                   ltac:(apply Z.eqb_neq; exact Hr))).
    cbv beta iota. rewrite Hr. unfold ret at 1. eexists. split; [reflexivity|].
    repeat split.
  - rewrite (bind_ret _ _ _ _ _ (xioctl_settled _ _ _ cc _ s1 eq_refl Hcc)). cbv beta iota.
    rewrite Ecc. set (s2 := answered _ cc _ s1). unfold bind at 1, ret at 1. unfold bind at 1.
    rewrite (bind_ret _ _ _ _ _ (xioctl_success _ _ _ f rest s2 eq_refl
                                   ltac:(apply Z.eqb_neq; exact Hr))).
    cbv beta iota. rewrite Hr. unfold ret at 1. eexists. split; [reflexivity|].
    repeat split.
Qed.

(** Cropping is reset on a best-effort basis.  On a capable device and
    without force_format, init_device asks VIDIOC_CROPCAP; when that
    returns 0 it sends VIDIOC_S_CROP with the default rectangle it was
    given; whatever either of them answers, success or error, init_device
    goes on to ask VIDIOC_G_FMT and, when that succeeds, to init_mmap. *)
Theorem cropping_is_best_effort (q cc c f : reply) (rest : list reply) (s : state) :
  force_format (glob s) = 0 ->
  capable (Call (querycap_call (glob s)) q) = true ->
  settles cc -> settles c -> r_ret f <> -1 ->
  script s = q :: crop_script cc c ++ f :: rest ->
  exists s',
    init_device s = init_mmap s' /\ glob s' = glob s /\ script s' = rest /\
    trace s' = Call (get_format_call (glob s)) f
                 :: crop_events (glob s) cc c ++ Call (querycap_call (glob s)) q :: trace s.
Proof. exact (init_device_negotiates q cc c f rest s). Qed.

(** The driver reports a default rectangle of 640x480 and then refuses
    VIDIOC_S_CROP with EBUSY (16): the rectangle is what was sent, and
    init_device reaches VIDIOC_REQBUFS. *)
Lemma cropping_is_best_effort_witness :
  exists s',
    init_device (session 1 [caps_ok; cropcap_ok full_frame; fails 16; ok 0; granted 1])
    = init_mmap s' /\
    script s' = [granted 1] /\
    trace s' = [ Call (get_format_call (glob s')) (ok 0);
                 Call (call_ioctl 3 VIDIOC_S_CROP
                         (arg_crop V4L2_BUF_TYPE_VIDEO_CAPTURE full_frame)) (fails 16);
                 Call (cropcap_call (glob s')) (cropcap_ok full_frame);
                 Call (querycap_call (glob s')) caps_ok ].
Proof.
  destruct (cropping_is_best_effort caps_ok (cropcap_ok full_frame) (fails 16) (ok 0)
              [granted 1]
              (session 1 [caps_ok; cropcap_ok full_frame; fails 16; ok 0; granted 1]))
    as (s' & Hi & Hg & Hsc & Htr).
  - reflexivity.
  - reflexivity.
  - left. discriminate.
  - right. split; discriminate.
  - discriminate.
  - reflexivity.
  - exists s'. split; [exact Hi|]. split; [exact Hsc|]. rewrite Htr, Hg. reflexivity.
Defined.

(** * Starting and tearing down *)

Lemma queue_loop qs : forall i rest s,
  Forall succeeds qs ->
  0 <= i -> i + Z.of_nat (length qs) = n_buffers (glob s) -> n_buffers (glob s) < 2 ^ 32 ->
  script s = qs ++ rest ->
  exists s',
    loop queue_body i s = Ret tt s' /\ glob s' = glob s /\ script s' = rest /\
    trace s' = queue_events (fd (glob s)) i qs ++ trace s.
Proof.
  induction qs as [|q qs IH]; intros i rest s Hok Hi Hn H32 Hs.
  - cbn [length app] in *. rewrite loop_unfold by auto with progress.
    unfold queue_body. unfold bind at 1, get_glob.
    replace (i <? n_buffers (glob s)) with false by (symmetry; apply Z.ltb_ge; lia).
    exists s. repeat split. exact Hs.
  - cbn [length app] in *. apply Forall_cons in Hok as [Hq Hok].
    rewrite loop_unfold by auto with progress.
    unfold queue_body at 1. unfold bind at 1, get_glob. cbv zeta.
    replace (i <? n_buffers (glob s)) with true by (symmetry; apply Z.ltb_lt; lia).
    rewrite (bind_ret _ _ _ _ _ (xioctl_success _ _ _ _ _ _ Hs Hq)). cbv beta iota.
    apply Z.eqb_neq in Hq. rewrite Hq. unfold bind at 1, ret at 1. unfold continue, ret.
    rewrite to_uint_small by lia.
    destruct (IH (i + 1) rest (answered (queue_call (fd (glob s)) i) q (qs ++ rest) s) Hok)
      as (s' & Hl & Hg & Hsc & Htr); cbn [glob answered]; try lia; try reflexivity.
    exists s'. split; [exact Hl|]. split; [exact Hg|]. split; [exact Hsc|].
    rewrite Htr. cbn [queue_events trace answered]. rewrite <- app_assoc. reflexivity.
Qed.

Lemma queue_events_traffic fdv qs : forall i,
  Forall succeeds qs ->
  traffic (queue_events fdv i qs) = map to_device (seqZ i (Z.of_nat (length qs))).
Proof.
  induction qs as [|q qs IH]; intros i Hok; [reflexivity|].
  apply Forall_cons in Hok as [Hq Hok]. cbn [queue_events length].
  rewrite traffic_app, (IH (i + 1) Hok). unfold traffic at 1. cbn.
  apply Z.eqb_neq in Hq. rewrite Hq. cbn.
  rewrite Nat2Z.inj_succ, (seqZ_cons i) by lia. cbn [map app]. f_equal.
  replace (Z.pred (Z.succ (Z.of_nat (length qs)))) with (Z.of_nat (length qs)) by lia.
  reflexivity.
Qed.

(** start_capturing when every call succeeds. *)
Lemma start_capturing_run (qs : list reply) (on : reply)
    (rest : list reply) (s : state) :
  Z.of_nat (length qs) = n_buffers (glob s) -> n_buffers (glob s) < 2 ^ 32 ->
  Forall succeeds qs -> succeeds on ->
  script s = qs ++ on :: rest ->
  exists s',
    start_capturing s = Ret tt s' /\ glob s' = glob s /\ script s' = rest /\
    trace s' = Call (streamon_call (fd (glob s))) on
                 :: queue_events (fd (glob s)) 0 qs ++ trace s /\
    traffic (Call (streamon_call (fd (glob s))) on :: queue_events (fd (glob s)) 0 qs)
    = map to_device (seqZ 0 (n_buffers (glob s))).
Proof.
  intros Hn H32 Hok Hon Hs.
  destruct (queue_loop qs 0 (on :: rest) s Hok) as (s1 & Hl & Hg & Hsc & Htr);
    [lia|lia|exact H32|exact Hs|].
  unfold start_capturing. unfold bind at 1. rewrite Hl. unfold bind at 1, get_glob.
  rewrite Hg. rewrite (bind_ret _ _ _ _ _ (xioctl_success _ _ _ _ _ _ Hsc Hon)).
  cbv beta iota. apply Z.eqb_neq in Hon. rewrite Hon. eexists. split; [reflexivity|].
  cbn [glob script trace answered]. split; [exact Hg|]. split; [reflexivity|].
  split; [rewrite Htr; reflexivity|].
  rewrite traffic_cons, (queue_events_traffic _ _ _ Hok), Hn. cbn. apply app_nil_r.
Qed.

(** When every VIDIOC_QBUF and then VIDIOC_STREAMON succeed,
    start_capturing returns having queued every buffer of the pool exactly
    once, in the order of the indices 0, 1, ..., n_buffers - 1, and having
    turned streaming on after the last of them. *)
Theorem start_capturing_queues_every_buffer (qs : list reply) (on : reply)
    (rest : list reply) (s : state) :
  Z.of_nat (length qs) = n_buffers (glob s) -> n_buffers (glob s) < 2 ^ 32 ->
  Forall succeeds qs -> succeeds on ->
  script s = qs ++ on :: rest ->
  exists s',
    start_capturing s = Ret tt s' /\ glob s' = glob s /\ script s' = rest /\
    trace s' = Call (streamon_call (fd (glob s))) on
                 :: queue_events (fd (glob s)) 0 qs ++ trace s /\
    traffic (Call (streamon_call (fd (glob s))) on :: queue_events (fd (glob s)) 0 qs)
    = map to_device (seqZ 0 (n_buffers (glob s))).
Proof. exact (start_capturing_run qs on rest s). Qed.

Lemma start_capturing_queues_every_buffer_witness :
  exists s',
    start_capturing (session 1 [ok 0; ok 0; ok 0; ready]) = Ret tt s' /\
    script s' = [ready] /\
    traffic (trace s') = [to_device 0; to_device 1] /\
    hd_error (trace s') = Some (Call (streamon_call 3) (ok 0)).
Proof.
  destruct (start_capturing_queues_every_buffer [ok 0; ok 0] (ok 0) [ready]
              (session 1 [ok 0; ok 0; ok 0; ready]))
    as (s' & Hst & _ & Hsc & Htr & Htf).
  - reflexivity.
  - reflexivity.
  - repeat constructor; discriminate.
  - discriminate.
  - reflexivity.
  - exists s'. split; [exact Hst|]. split; [exact Hsc|]. rewrite Htr.
    split; [exact Htf|reflexivity].
Defined.

(** The unmapping loop, for the answers there are. *)
Lemma munmap_loop todo : forall done ms rest s,
  buffers_mem (glob s) = done ++ todo ->
  n_buffers (glob s) = Z.of_nat (length (done ++ todo)) -> n_buffers (glob s) < 2 ^ 32 ->
  Forall succeeds ms -> (length ms <= length todo)%nat ->
  script s = ms ++ rest ->
  exists s',
    loop munmap_body (Z.of_nat (length done)) s
    = loop munmap_body (Z.of_nat (length done + length ms)) s' /\
    glob s' = glob s /\ script s' = rest /\
    trace s' = munmap_events todo ms ++ trace s.
Proof.
  induction todo as [|b todo IH]; intros done ms rest s Hmem Hn H32 Hok Hlen Hs.
  - destruct ms; [|cbn in Hlen; lia]. cbn [length app] in *. rewrite Nat.add_0_r.
    exists s. repeat split. exact Hs.
  - destruct ms as [|m ms].
    { cbn [length app] in *. rewrite Nat.add_0_r. exists s. repeat split. exact Hs. }
    cbn [length app] in *. apply Forall_cons in Hok as [Hm Hok].
    rewrite loop_unfold by auto with progress.
    unfold munmap_body at 1. unfold bind at 1, get_glob.
    rewrite length_app in Hn. cbn [length] in Hn.
    replace (_ <? n_buffers (glob s)) with true by (symmetry; apply Z.ltb_lt; lia).
    rewrite (bind_ret _ _ _ _ _ (load_buffer_at done todo b _ s eq_refl Hmem)).
    rewrite (bind_ret _ _ _ _ _ (sys_answer _ _ _ s Hs)).
    apply Z.eqb_neq in Hm. rewrite Hm. unfold bind at 1, ret at 1. unfold continue, ret.
    rewrite to_uint_small by lia.
    destruct (IH (done ++ [b]) ms rest
                (answered (call_munmap (start b) (len b)) m (ms ++ rest) s))
      as (s' & Hl & Hg & Hsc & Htr); cbn [glob answered script]; try assumption;
      try (rewrite <- app_assoc; assumption); try lia; try reflexivity.
    { rewrite <- app_assoc, length_app. cbn [app length]. lia. }
    rewrite length_app in Hl. cbn [length] in Hl.
    replace (Z.of_nat (length done) + 1) with (Z.of_nat (length done + 1)) by lia.
    exists s'. split.
    + rewrite Hl. f_equal. lia.
    + split; [exact Hg|]. split; [exact Hsc|].
      rewrite Htr. cbn [munmap_events trace answered]. rewrite <- app_assoc. reflexivity.
Qed.

Lemma munmap_events_unmapped bs : forall ms,
  length ms = length bs -> unmapped (munmap_events bs ms) = rev (map start bs).
Proof.
  induction bs as [|b bs IH]; intros [|m ms] Hlen; try discriminate; [reflexivity|].
  cbn [munmap_events map rev]. unfold unmapped in *. rewrite omap_app, IH by (cbn in Hlen; lia).
  reflexivity.
Qed.

(** uninit_device when every munmap succeeds. *)
Lemma uninit_device_run (ms rest : list reply) (s : state) :
  pool_ok (glob s) -> length ms = length (buffers_mem (glob s)) ->
  Forall succeeds ms -> script s = ms ++ rest ->
  exists s',
    uninit_device s = Ret tt s' /\ glob s' = glob s /\ script s' = rest /\
    trace s' = Free (buffers (glob s)) :: munmap_events (buffers_mem (glob s)) ms ++ trace s /\
    unmapped (munmap_events (buffers_mem (glob s)) ms) = rev (map start (buffers_mem (glob s))).
Proof.
  intros [Hn Hpool] Hlen Hok Hs.
  destruct (munmap_loop (buffers_mem (glob s)) [] ms rest s eq_refl)
    as (s1 & Hl & Hg & Hsc & Htr); try assumption; try lia.
  { cbn [app]. lia. }
  cbn [length Nat.add] in Hl. change (Z.of_nat 0) with 0 in Hl. unfold uninit_device. unfold bind at 1. rewrite Hl.
  rewrite loop_unfold by auto with progress. unfold munmap_body. unfold bind at 1, get_glob.
  rewrite Hg. replace (_ <? n_buffers (glob s)) with false by (symmetry; apply Z.ltb_ge; lia).
  unfold break, ret. unfold bind, get_glob, emit. rewrite Hg. eexists. split; [reflexivity|].
  cbn [glob log script trace]. split; [exact Hg|]. split; [exact Hsc|].
  split; [rewrite Htr; reflexivity|]. apply munmap_events_unmapped, Hlen.
Qed.

(** With the pool in place and every munmap succeeding, uninit_device
    returns having unmapped every buffer of the pool exactly once, in
    index order and with the length recorded for it, and having then freed
    the array; the globals, buffers and n_buffers among them, are left as
    they were. *)
Theorem uninit_device_releases_every_buffer (ms rest : list reply) (s : state) :
  pool_ok (glob s) -> length ms = length (buffers_mem (glob s)) ->
  Forall succeeds ms -> script s = ms ++ rest ->
  exists s',
    uninit_device s = Ret tt s' /\ glob s' = glob s /\ script s' = rest /\
    trace s' = Free (buffers (glob s)) :: munmap_events (buffers_mem (glob s)) ms ++ trace s /\
    unmapped (munmap_events (buffers_mem (glob s)) ms) = rev (map start (buffers_mem (glob s))).
Proof. exact (uninit_device_run ms rest s). Qed.

Lemma uninit_device_releases_every_buffer_witness :
  exists s',
    uninit_device (session 1 [ok 0; ok 0; ok 0]) = Ret tt s' /\
    script s' = [ok 0] /\
    trace s' = [Free 1024; Call (call_munmap 618496 614400) (ok 0);
                Call (call_munmap 4096 614400) (ok 0)].
Proof.
  destruct (uninit_device_releases_every_buffer [ok 0; ok 0] [ok 0]
              (session 1 [ok 0; ok 0; ok 0]))
    as (s' & Hu & _ & Hsc & Htr & _).
  - split; [cbn; lia|reflexivity].
  - reflexivity.
  - repeat constructor; discriminate.
  - reflexivity.
  - exists s'. split; [exact Hu|]. split; [exact Hsc|]. rewrite Htr. reflexivity.
Defined.

(** When the munmap of one buffer fails, the process exits with status 1
    through errno_exit: the buffers after it stay mapped and the array is
    not freed. *)
Theorem munmap_failure_leaves_the_rest (done : list buffer) (b : buffer)
    (todo : list buffer) (ms : list reply) (bad : reply) (rest : list reply) (s : state) :
  pool_ok (glob s) -> buffers_mem (glob s) = done ++ b :: todo ->
  length ms = length done -> Forall succeeds ms -> r_ret bad = -1 ->
  script s = ms ++ bad :: rest ->
  exists s',
    uninit_device s = Halt (exited EXIT_FAILURE) s' /\ script s' = rest /\
    trace s' = Fprintf stderr "%s error %d, %s\n"
                 [fmt_s "munmap"; fmt_d (errno s'); fmt_strerror (errno s')]
               :: Call (call_munmap (start b) (len b)) bad
               :: munmap_events done ms ++ trace s.
Proof.
  intros [Hn Hpool] Hmem Hlen Hok Hbad Hs.
  assert (Hev : munmap_events (done ++ b :: todo) ms = munmap_events done ms).
  { clear -Hlen. revert ms Hlen. induction done as [|d done IH]; intros [|m ms] Hlen;
      try discriminate; [reflexivity|]. cbn [app munmap_events]. rewrite IH; [reflexivity|].
    cbn in Hlen. lia. }
  destruct (munmap_loop (buffers_mem (glob s)) [] ms (bad :: rest) s eq_refl)
    as (s1 & Hl & Hg & Hsc & Htr); try assumption; try lia.
  { cbn [app]. lia. }
  { rewrite Hmem, length_app. lia. }
  cbn [length Nat.add] in Hl. change (Z.of_nat 0) with 0 in Hl. unfold uninit_device. unfold bind at 1. rewrite Hl.
  rewrite loop_unfold by auto with progress. unfold munmap_body. unfold bind at 1, get_glob.
  rewrite Hg. rewrite Hmem, length_app in Hpool. cbn [length] in Hpool.
  replace (_ <? n_buffers (glob s)) with true by (symmetry; apply Z.ltb_lt; lia).
  rewrite Hlen.
  rewrite (bind_ret _ _ _ _ _ (load_buffer_at done todo b _ s1 eq_refl
                                 ltac:(rewrite Hg; exact Hmem))).
  rewrite (bind_ret _ _ _ _ _ (sys_answer _ _ _ s1 Hsc)). rewrite Hbad.
  change (-1 =? -1) with true. cbv iota. unfold errno_exit. run.
  eexists. split; [reflexivity|]. cbn [script trace errno]. split; [reflexivity|].
  rewrite Htr, Hmem, Hev. reflexivity.
Qed.

(** The second munmap fails with EINVAL: the first buffer was unmapped,
    nothing is freed. *)
Lemma munmap_failure_leaves_the_rest_witness :
  exists s',
    uninit_device (session 1 [ok 0; fails EINVAL; ok 0]) = Halt (exited 1) s' /\
    script s' = [ok 0] /\
    trace s' = [Fprintf stderr "%s error %d, %s\n"
                  [fmt_s "munmap"; fmt_d EINVAL; fmt_strerror EINVAL];
                Call (call_munmap 618496 614400) (fails EINVAL);
                Call (call_munmap 4096 614400) (ok 0)].
Proof.
  destruct (munmap_failure_leaves_the_rest [{| start := 4096; len := 614400 |}]
              {| start := 618496; len := 614400 |} [] [ok 0] (fails EINVAL) [ok 0]
              (session 1 [ok 0; fails EINVAL; ok 0]))
    as (s' & Hu & Hsc & Htr).
  - split; [cbn; lia|reflexivity].
  - reflexivity.
  - reflexivity.
  - repeat constructor; discriminate.
  - reflexivity.
  - reflexivity.
  - exists s'. split; [exact Hu|]. split; [exact Hsc|]. rewrite Htr.
    revert Hu. vm_compute. intros [= <-]. reflexivity.
Defined.

(** * What a function changes and how it stops *)

Lemma preserves_ret {A T} (f : globals -> T) (a : A) : preserves f (ret a).
Proof. intros s. reflexivity. Qed.
Lemma preserves_stop {A T} (f : globals -> T) h : preserves f (@stop A h).
Proof. intros s. reflexivity. Qed.
Lemma preserves_get_glob {T} (f : globals -> T) : preserves f get_glob.
Proof. intros s. reflexivity. Qed.
Lemma preserves_get_errno {T} (f : globals -> T) : preserves f get_errno.
Proof. intros s. reflexivity. Qed.
Lemma preserves_set_errno {T} (f : globals -> T) e : preserves f (set_errno e).
Proof. intros s. reflexivity. Qed.
Lemma preserves_emit {T} (f : globals -> T) e : preserves f (emit e).
Proof. intros s. reflexivity. Qed.
Lemma preserves_sys {T} (f : globals -> T) c : preserves f (sys c).
Proof. intros s. unfold sys. destruct (script s); reflexivity. Qed.
Lemma preserves_update_glob {T} (f : globals -> T) u :
  (forall g, f (u g) = f g) -> preserves f (update_glob u).
Proof. intros H s. apply H. Qed.

Lemma preserves_bind {A B T} (f : globals -> T) (m : M A) (k : A -> M B) :
  preserves f m -> (forall a, preserves f (k a)) -> preserves f (bind m k).
Proof.
  intros Hm Hk s. unfold bind. specialize (Hm s).
  destruct (m s) as [a s1|h s1]; cbn [final_state] in *; [|exact Hm].
  rewrite (Hk a s1). exact Hm.
Qed.

Lemma preserves_loop_fuel {A B T} (f : globals -> T) (body : A -> M (A + B)) :
  (forall a, preserves f (body a)) -> forall n a, preserves f (loop_fuel n body a).
Proof.
  intros Hb n. induction n as [|n IH]; intros a s; cbn [loop_fuel]; [reflexivity|].
  specialize (Hb a s). destruct (body a s) as [[a'|b] s1|h s1]; cbn [final_state] in *;
    try exact Hb.
  rewrite (IH a' s1). exact Hb.
Qed.

Lemma preserves_loop {A B T} (f : globals -> T) (body : A -> M (A + B)) a :
  (forall a, preserves f (body a)) -> preserves f (loop body a).
Proof. intros Hb s. unfold loop. apply preserves_loop_fuel, Hb. Qed.

Create HintDb preserves.
#[export] Hint Resolve preserves_ret preserves_stop preserves_get_glob preserves_get_errno
  preserves_set_errno preserves_emit preserves_sys : preserves.

Ltac preserves_step :=
  match goal with
  | |- forall _, _ => intro
  | |- preserves _ (bind _ _) => apply preserves_bind
  | |- preserves _ (loop _ _) => apply preserves_loop
  | |- preserves _ (continue _) => apply preserves_ret
  | |- preserves _ (break _) => apply preserves_ret
  | |- preserves _ (exit _) => apply preserves_stop
  | |- preserves _ (errno_exit _) => unfold errno_exit
  | |- preserves _ (usage _ _) => unfold usage
  | |- preserves _ (update_glob _) => apply preserves_update_glob; intros ?; reflexivity
  | |- preserves _ (if ?b then _ else _) => destruct b
  | |- preserves _ (match ?x with _ => _ end) => destruct x
  | |- preserves _ _ => solve [auto with preserves]
  end.
Ltac preserves_tac := repeat preserves_step.

Lemma xioctl_preserves {T} (f : globals -> T) fh request arg :
  preserves f (xioctl fh request arg).
Proof. unfold xioctl, xioctl_body. preserves_tac. Qed.
#[export] Hint Resolve xioctl_preserves : preserves.

Lemma load_buffer_preserves {T} (f : globals -> T) i : preserves f (load_buffer i).
Proof. unfold load_buffer. preserves_tac. Qed.
#[export] Hint Resolve load_buffer_preserves : preserves.

Lemma process_image_preserves {T} (f : globals -> T) p size :
  preserves f (process_image p size).
Proof. unfold process_image. preserves_tac. Qed.
#[export] Hint Resolve process_image_preserves : preserves.

Lemma read_frame_preserves {T} (f : globals -> T) : preserves f read_frame.
Proof. unfold read_frame. preserves_tac. Qed.
#[export] Hint Resolve read_frame_preserves : preserves.

Lemma mainloop_preserves {T} (f : globals -> T) : preserves f mainloop.
Proof. unfold mainloop, mainloop_body, select_loop, select_body. preserves_tac. Qed.

Lemma start_capturing_preserves {T} (f : globals -> T) : preserves f start_capturing.
Proof. unfold start_capturing, queue_body. preserves_tac. Qed.

Lemma stop_capturing_preserves {T} (f : globals -> T) : preserves f stop_capturing.
Proof. unfold stop_capturing. preserves_tac. Qed.

Lemma uninit_device_preserves {T} (f : globals -> T) : preserves f uninit_device.
Proof. unfold uninit_device, munmap_body. preserves_tac. Qed.

Lemma close_device_preserves {T} (f : globals -> T) :
  (forall v g, f (set_fd v g) = f g) -> preserves f close_device.
Proof.
  intros H. unfold close_device. preserves_tac. apply preserves_update_glob. intros g. apply H.
Qed.

(** ** Stopping cleanly *)

Lemma clean_exited code : clean (exited code).
Proof. split; discriminate. Qed.
Lemma clean_blocked : clean blocked.
Proof. split; discriminate. Qed.

Lemma cleanly_ret {A} (a : A) : halts_cleanly (ret a).
Proof. intros s h s' H. discriminate. Qed.
Lemma cleanly_exit {A} code : halts_cleanly (@exit A code).
Proof. intros s h s' [= <- _]. apply clean_exited. Qed.
Lemma cleanly_get_glob : halts_cleanly get_glob.
Proof. intros s h s' H. discriminate. Qed.
Lemma cleanly_update_glob u : halts_cleanly (update_glob u).
Proof. intros s h s' H. discriminate. Qed.
Lemma cleanly_get_errno : halts_cleanly get_errno.
Proof. intros s h s' H. discriminate. Qed.
Lemma cleanly_set_errno e : halts_cleanly (set_errno e).
Proof. intros s h s' H. discriminate. Qed.
Lemma cleanly_emit e : halts_cleanly (emit e).
Proof. intros s h s' H. discriminate. Qed.
Lemma cleanly_sys c : halts_cleanly (sys c).
Proof.
  intros s h s'. unfold sys. destruct (script s); [|discriminate].
  intros [= <- _]. apply clean_blocked.
Qed.

Lemma cleanly_bind {A B} (m : M A) (k : A -> M B) :
  halts_cleanly m -> (forall a, halts_cleanly (k a)) -> halts_cleanly (bind m k).
Proof.
  intros Hm Hk s h s'. unfold bind. destruct (m s) as [a s1|h1 s1] eqn:E.
  - apply Hk.
  - intros [= <- <-]. exact (Hm _ _ _ E).
Qed.

Lemma cleanly_loop_fuel {A B} (body : A -> M (A + B)) :
  (forall a, halts_cleanly (body a)) -> forall n a, halts_cleanly (loop_fuel n body a).
Proof.
  intros Hb n. induction n as [|n IH]; intros a s h s'; cbn [loop_fuel].
  - intros [= <- _]. apply clean_blocked.
  - destruct (body a s) as [[a'|b] s1|h1 s1] eqn:E.
    + apply IH.
    + discriminate.
    + intros [= <- <-]. exact (Hb _ _ _ _ E).
Qed.

Lemma cleanly_loop {A B} (body : A -> M (A + B)) a :
  (forall a, halts_cleanly (body a)) -> halts_cleanly (loop body a).
Proof. intros Hb s. unfold loop. apply cleanly_loop_fuel, Hb. Qed.

Create HintDb cleanly.
#[export] Hint Resolve cleanly_ret cleanly_exit cleanly_get_glob cleanly_update_glob
  cleanly_get_errno cleanly_set_errno cleanly_emit cleanly_sys : cleanly.

Ltac cleanly_step :=
  match goal with
  | |- forall _, _ => intro
  | |- halts_cleanly (bind _ _) => apply cleanly_bind
  | |- halts_cleanly (loop _ _) => apply cleanly_loop
  | |- halts_cleanly (continue _) => apply cleanly_ret
  | |- halts_cleanly (break _) => apply cleanly_ret
  | |- halts_cleanly (errno_exit _) => unfold errno_exit
  | |- halts_cleanly (usage _ _) => unfold usage
  | |- halts_cleanly (if ?b then _ else _) => destruct b
  | |- halts_cleanly (match ?x with _ => _ end) => destruct x
  | |- halts_cleanly _ => solve [auto with cleanly]
  end.
Ltac cleanly_tac := repeat cleanly_step.

Lemma xioctl_cleanly fh request arg : halts_cleanly (xioctl fh request arg).
Proof. unfold xioctl, xioctl_body. cleanly_tac. Qed.
#[export] Hint Resolve xioctl_cleanly : cleanly.

Lemma parse_options_cleanly argv : halts_cleanly (parse_options argv).
Proof. unfold parse_options, getopt_body. cleanly_tac. Qed.

Lemma open_device_cleanly : halts_cleanly open_device.
Proof. unfold open_device. cleanly_tac. Qed.

Lemma close_device_cleanly : halts_cleanly close_device.
Proof. unfold close_device. cleanly_tac. Qed.

Lemma stop_capturing_cleanly : halts_cleanly stop_capturing.
Proof. unfold stop_capturing. cleanly_tac. Qed.

Lemma init_mmap_cleanly : halts_cleanly init_mmap.
Proof.
  intros s h s' E. destruct (init_mmap_spec s) as (count & _ & H). rewrite E in H.
  destruct H as (H1 & H2 & _). split; assumption.
Qed.

Lemma init_device_cleanly : halts_cleanly init_device.
Proof. unfold init_device. cbv zeta. cleanly_tac. apply init_mmap_cleanly. Qed.

(** * The stages of a run *)

Lemma hoare_bind {A B} P (m : M A) (k : A -> M B) Q1 Q H :
  hoare P m Q1 H -> (forall a, hoare (Q1 a) (k a) Q H) -> hoare P (bind m k) Q H.
Proof.
  intros Hm Hk s HP. unfold bind. specialize (Hm s HP).
  destruct (m s) as [a s1|h s1]; [exact (Hk a s1 Hm)|exact Hm].
Qed.

Lemma hoare_conseq {A} (P P' : state -> Prop) (Q Q' : A -> state -> Prop)
    (H H' : halt -> state -> Prop) (m : M A) :
  (forall s, P' s -> P s) -> (forall a s, Q a s -> Q' a s) -> (forall h s, H h s -> H' h s) ->
  hoare P m Q H -> hoare P' m Q' H'.
Proof.
  intros HP HQ HH Hm s Hs. specialize (Hm s (HP s Hs)).
  destruct (m s) as [a s1|h s1]; [apply HQ|apply HH]; exact Hm.
Qed.

Lemma hoare_ghost {A} P (m : M A) Q H :
  (forall s0, hoare (fun s => s = s0 /\ P s) m Q H) -> hoare P m Q H.
Proof. intros Hm s HP. exact (Hm s s (conj eq_refl HP)). Qed.

Lemma hoare_stable {A T} (f : globals -> T) K X (m : M A) :
  stable f K X -> emits (of_kind K) m -> preserves f m -> halts_cleanly m ->
  hoare X m (fun _ => X) (fun h _ => clean h).
Proof.
  intros HX He Hp Hc s Hs. destruct (He s) as (q & Htr & Hq). specialize (Hp s).
  destruct (m s) as [a s1|h s1] eqn:E; cbn [final_state] in *.
  - exact (HX s s1 q Hs Hp Htr Hq).
  - exact (Hc _ _ _ E).
Qed.

Lemma clean_guard h s : clean h -> guard h s.
Proof. intros [H1 H2]. unfold guard, guarded. destruct h; try exact I; contradiction. Qed.

Lemma preserves_const {A} (m : M A) : preserves (fun _ => tt) m.
Proof. intros s. reflexivity. Qed.

Lemma allows_of_kind K k : K k = true -> allows (of_kind K) k.
Proof. intros H e He. unfold of_kind. rewrite He. exact H. Qed.
#[export] Hint Extern 1 (allows (of_kind _) _) => apply allows_of_kind; reflexivity : emits.

Lemma of_kind_weaken (K K' : kind -> bool) l :
  (forall k, K k = true -> K' k = true) ->
  forallb (of_kind K) l = true -> forallb (of_kind K') l = true.
Proof.
  intros H Hl. apply forallb_forall. intros e He. rewrite forallb_forall in Hl.
  apply H, Hl, He.
Qed.

(** What the kinds of the events say about the counts. *)
Lemma marker_kind e : is_marker e = true -> kind_of e = k_marker.
Proof. destruct e; try discriminate. cbn [kind_of]. intros ->. reflexivity. Qed.

Lemma of_kind_delivered K l :
  K k_marker = false -> forallb (of_kind K) l = true -> delivered l = 0%nat.
Proof.
  intros HK. induction l as [|e l IH]; [reflexivity|]. cbn [forallb].
  intros [He Hl]%andb_prop. unfold delivered in *. cbn [List.filter].
  destruct (is_marker e) eqn:Em; [|exact (IH Hl)].
  unfold of_kind in He. rewrite (marker_kind e Em) in He. congruence.
Qed.

Lemma of_kind_written_out K l :
  K k_fwrite = false -> forallb (of_kind K) l = true -> written_out l = 0%nat.
Proof.
  intros HK. induction l as [|e l IH]; [reflexivity|]. cbn [forallb].
  intros [He Hl]%andb_prop. unfold written_out in *. cbn [List.filter].
  destruct e as [c r| | | |]; try exact (IH Hl). unfold of_kind in He. cbn in He. congruence.
Qed.

Lemma of_kind_mapped K l :
  K k_mmap = false -> forallb (of_kind K) l = true -> mapped l = [].
Proof.
  intros HK. induction l as [|e l IH]; [reflexivity|]. cbn [forallb].
  intros [He Hl]%andb_prop. specialize (IH Hl).
  destruct e as [[] r| | | |]; try exact IH. unfold of_kind in He. cbn in He. congruence.
Qed.

Lemma of_kind_unmapped K l :
  K k_munmap = false -> forallb (of_kind K) l = true -> unmapped l = [].
Proof.
  intros HK. induction l as [|e l IH]; [reflexivity|]. cbn [forallb].
  intros [He Hl]%andb_prop. specialize (IH Hl).
  destruct e as [[] r| | | |]; try exact IH. unfold of_kind in He. cbn in He. congruence.
Qed.

Lemma of_kind_traffic K l :
  K (k_ioctl VIDIOC_QBUF) = false -> K (k_ioctl VIDIOC_DQBUF) = false ->
  forallb (of_kind K) l = true -> traffic l = [].
Proof.
  intros HQ HD. induction l as [|e l IH]; [reflexivity|]. cbn [forallb].
  intros [He Hl]%andb_prop. rewrite traffic_cons, (IH Hl). cbn [app].
  destruct e as [[| | | | |fdv [] arg| | | |] r| | | |]; try reflexivity;
    unfold of_kind in He; cbn in He; congruence.
Qed.

Lemma mapped_app a b : mapped (a ++ b) = mapped a ++ mapped b.
Proof. unfold mapped. apply omap_app. Qed.
Lemma unmapped_app a b : unmapped (a ++ b) = unmapped a ++ unmapped b.
Proof. unfold unmapped. apply omap_app. Qed.

(** ** Stability of the stage invariants *)

Lemma untouched_stable : stable (fun _ => tt) setup_kind untouched.
Proof.
  intros s s' q Hs _ Htr Hq. unfold untouched in *. rewrite Htr, forallb_app, Hq, Hs.
  reflexivity.
Qed.

Lemma pooled_extend s s' q :
  pooled s -> n_buffers (glob s') = n_buffers (glob s) ->
  buffers_mem (glob s') = buffers_mem (glob s) ->
  trace s' = q ++ trace s -> mapped q = [] -> pooled s'.
Proof.
  intros ((Hn & Hlen) & H2 & Hrec) En Em Htr Hq. unfold pooled, pool_ok.
  rewrite En, Em, Htr, mapped_app, Hq. cbn [app].
  split; [split; assumption|split; assumption].
Qed.

Lemma counted_extend s s' q :
  counted s -> frame_count (glob s') = frame_count (glob s) ->
  out_buf (glob s') = out_buf (glob s) ->
  trace s' = q ++ trace s -> delivered q = 0%nat -> written_out q = 0%nat -> counted s'.
Proof.
  intros [Hd Hw] Ef Eo Htr Hqd Hqw. unfold counted.
  rewrite Ef, Eo, Htr, delivered_app, written_out_app, Hqd, Hqw. cbn [Nat.add].
  split; assumption.
Qed.

Lemma captured_stable : stable (fun g => g) setup_kind captured.
Proof.
  intros s s' q (Hp & Hu & Hc) Hg Htr Hq. cbv beta in Hg. split; [|split].
  - apply (pooled_extend s s' q Hp); [rewrite Hg; reflexivity..|exact Htr|].
    apply (of_kind_mapped setup_kind); [reflexivity|exact Hq].
  - rewrite Htr, unmapped_app, Hu, (of_kind_unmapped setup_kind) by (reflexivity || exact Hq).
    reflexivity.
  - apply (counted_extend s s' q Hc); [rewrite Hg; reflexivity..|exact Htr| |].
    + apply (of_kind_delivered setup_kind); [reflexivity|exact Hq].
    + apply (of_kind_written_out setup_kind); [reflexivity|exact Hq].
Qed.

Lemma released_stable : stable (set_fd 0) setup_kind released.
Proof.
  intros s s' q (Hp & Hu & Hc) Hg Htr Hq.
  assert (En : n_buffers (glob s') = n_buffers (glob s))
    by exact (f_equal n_buffers Hg).
  assert (Em : buffers_mem (glob s') = buffers_mem (glob s))
    by exact (f_equal buffers_mem Hg).
  assert (Ef : frame_count (glob s') = frame_count (glob s))
    by exact (f_equal frame_count Hg).
  assert (Eo : out_buf (glob s') = out_buf (glob s))
    by exact (f_equal out_buf Hg).
  assert (Hm : mapped q = []) by (apply (of_kind_mapped setup_kind); [reflexivity|exact Hq]).
  split; [|split].
  - apply (pooled_extend s s' q Hp); assumption.
  - rewrite Htr, unmapped_app, mapped_app, Hu, Hm,
      (of_kind_unmapped setup_kind) by (reflexivity || exact Hq).
    reflexivity.
  - apply (counted_extend s s' q Hc); try assumption.
    + apply (of_kind_delivered setup_kind); [reflexivity|exact Hq].
    + apply (of_kind_written_out setup_kind); [reflexivity|exact Hq].
Qed.

(** * The pool records the mappings *)

Lemma mapped_calls c l :
  (forall r, is_mmap (Call c r) = false) -> mapped (map (Call c) l) = [].
Proof.
  intros Hc. induction l as [|r l IH]; [reflexivity|]. cbn [map].
  specialize (Hc r). destruct c; try exact IH. discriminate.
Qed.

Lemma mapped_mmap l pr fl fdv off p t :
  (r_ret p =? MAP_FAILED) = false ->
  mapped (Call (call_mmap l pr fl fdv off) p :: t) = r_ret p :: mapped t.
Proof. intros H. unfold mapped. cbn. rewrite H. reflexivity. Qed.

Lemma map_loop_recorded count s :
  count < 2 ^ 32 -> recorded s ->
  match loop (map_body count) tt s with
  | Ret _ s' => recorded s'
  | Halt _ _ => True
  end.
Proof.
  intros H32. revert s.
  cut (forall (u : unit) s, recorded s ->
         match loop (map_body count) u s with Ret _ s' => recorded s' | Halt _ _ => True end).
  { intros H s. apply H. }
  apply (loop_invariant (map_body count) (fun _ => recorded)
           (fun r => match r with Ret _ s' => recorded s' | Halt _ _ => True end));
    [auto with progress|].
  intros [] s [Hn0 Hrec].
  remember (map_body count tt s) as res eqn:Hres.
  unfold map_body in Hres. unfold bind at 1, get_glob in Hres. cbv zeta in Hres.
  destruct (n_buffers (glob s) <? count) eqn:Elt.
  2:{ subst res. cbn. split; assumption. }
  apply Z.ltb_lt in Elt. unfold bind at 1 in Hres.
  set (arg := arg_buffer _) in Hres.
  destruct (xioctl_spec (fd (glob s)) VIDIOC_QUERYBUF arg s) as (retries & _ & Hx).
  destruct (xioctl _ _ _ s) as [[r a] s1|h s1]; [|subst res; exact I].
  destruct Hx as (rep & _ & Hg & Htr1 & -> & ->).
  assert (Hm1 : mapped (trace s1) = mapped (trace s)).
  { rewrite Htr1. change (Call ?c rep :: ?l ++ ?t) with ((Call c rep :: l) ++ t).
    rewrite mapped_app. change (Call ?c rep :: map (Call ?c) ?l) with (map (Call c) (rep :: l)).
    rewrite mapped_calls by reflexivity. reflexivity. }
  clear Htr1.
  destruct s1 as [g1 e1 sc1 t1]. cbn [glob trace] in Hg, Hm1. subst g1.
  unfold bind at 1 in Hres.
  destruct (r_ret rep =? -1); [unfold errno_exit in Hres; run_in Hres; subst res; exact I|].
  unfold ret at 1 in Hres.
  unfold store_buffer at 1, load_buffer at 1 in Hres. run_in Hres.
  assert (H0 : (0 <=? n_buffers (glob s)) = true) by (apply Z.leb_le; lia).
  rewrite H0 in Hres.
  destruct (buffers_mem (glob s) !! Z.to_nat (n_buffers (glob s))) as [b|] eqn:Hb;
    [|subst res; exact I].
  cbv beta iota in Hres. unfold sys in Hres. cbn [script] in Hres.
  destruct sc1 as [|p rest]; [subst res; exact I|].
  run_in Hres.
  unfold store_buffer at 1, load_buffer at 1 in Hres. run_in Hres.
  cbn [glob buffers_mem set_buffers] in Hres. rewrite H0 in Hres.
  assert (Hlt : (Z.to_nat (n_buffers (glob s)) < length (buffers_mem (glob s)))%nat)
    by (apply lookup_lt_is_Some; eauto).
  rewrite list_lookup_insert_eq in Hres by exact Hlt. cbv beta iota in Hres.
  unfold load_buffer at 1 in Hres. run_in Hres. cbn [glob buffers_mem set_buffers] in Hres.
  rewrite H0 in Hres.
  rewrite list_lookup_insert_eq in Hres by (rewrite length_insert; exact Hlt).
  cbv beta iota in Hres. cbn [start] in Hres.
  destruct (r_ret p =? MAP_FAILED) eqn:Ep;
    [unfold errno_exit in Hres; run_in Hres; subst res; exact I|].
  cbn [n_buffers set_buffers set_n_buffers] in Hres. subst res. unfold recorded.
  cbn [glob n_buffers set_n_buffers buffers_mem set_buffers trace].
  rewrite to_uint_small by lia. split; [lia|].
  replace (Z.to_nat (n_buffers (glob s) + 1)) with (S (Z.to_nat (n_buffers (glob s)))) by lia.
  erewrite take_S_r.
  2:{ apply list_lookup_insert_eq. rewrite length_insert. exact Hlt. }
  rewrite !take_insert_ge by lia. rewrite map_app, Hrec. cbn [map start].
  rewrite (mapped_mmap _ _ _ _ _ _ _ Ep), Hm1. reflexivity.
Qed.

Lemma init_mmap_recorded s :
  mapped (trace s) = [] ->
  match init_mmap s with
  | Ret _ s' => recorded s'
  | Halt _ _ => True
  end.
Proof.
  intros Hm0. remember (init_mmap s) as res eqn:Hres.
  unfold init_mmap in Hres. unfold bind at 1, get_glob in Hres. cbv zeta in Hres.
  unfold bind at 1 in Hres.
  set (arg := arg_requestbuffers _) in Hres.
  destruct (xioctl_spec (fd (glob s)) VIDIOC_REQBUFS arg s) as (retries & _ & Hx).
  destruct (xioctl _ _ _ s) as [[r a] s1|h s1]; [|subst res; exact I].
  destruct Hx as (rep & _ & Hg & Htr1 & -> & ->).
  pose proof (granted_range rep) as Hrange. fold arg in Hrange.
  change four_buffers with {| req_count := 4; req_type := V4L2_BUF_TYPE_VIDEO_CAPTURE;
                              req_memory := V4L2_MEMORY_MMAP |} in Hrange.
  set (count := req_count _) in *.
  assert (Hm1 : mapped (trace s1) = []).
  { rewrite Htr1. change (Call ?c rep :: ?l ++ ?t) with ((Call c rep :: l) ++ t).
    rewrite mapped_app, Hm0. change (Call ?c rep :: map (Call ?c) ?l) with (map (Call c) (rep :: l)).
    rewrite mapped_calls by reflexivity. reflexivity. }
  clear Htr1.
  destruct s1 as [g1 e1 sc1 t1]. cbn [glob trace] in Hg, Hm1. subst g1.
  unfold bind at 1 in Hres.
  destruct (r_ret rep =? -1).
  { unfold bind at 1, get_errno in Hres. cbn [errno] in Hres.
    destruct (e1 =? EINVAL); [|unfold errno_exit in Hres]; run_in Hres; subst res; exact I. }
  unfold ret at 1 in Hres. unfold bind at 1 in Hres.
  destruct (count <? 2); [run_in Hres; subst res; exact I|].
  unfold ret at 1 in Hres.
  unfold bind at 1, sys at 1 in Hres. cbn [script] in Hres.
  destruct sc1 as [|p rest]; [subst res; exact I|].
  unfold bind at 1, update_glob at 1 in Hres. unfold bind at 1 in Hres.
  destruct (r_ret p =? NULL); [run_in Hres; subst res; exact I|].
  unfold ret at 1 in Hres. unfold bind at 1, update_glob at 1 in Hres.
  match type of Hres with
  | res = loop _ _ ?s2 =>
      pose proof (map_loop_recorded count s2 (proj2 Hrange)) as Hloop
  end.
  rewrite <- Hres in Hloop. apply Hloop. unfold recorded.
  cbn [glob trace answered with_glob n_buffers set_n_buffers buffers_mem set_buffers].
  split; [lia|]. cbn [Z.to_nat take map]. 
  change (mapped (Call ?c p :: t1)) with (mapped t1). rewrite Hm1. reflexivity.
Qed.

(** * The stages of main *)

Lemma hoare_and {A} P (m : M A) (Q1 Q2 : A -> state -> Prop) H H' :
  hoare P m Q1 H -> hoare P m Q2 H' -> hoare P m (fun a s => Q1 a s /\ Q2 a s) H.
Proof.
  intros H1 H2 s HP. specialize (H1 s HP). specialize (H2 s HP).
  destruct (m s); [split; assumption|exact H1].
Qed.

Lemma untouched_counts s :
  untouched s ->
  mapped (trace s) = [] /\ unmapped (trace s) = [] /\ traffic (trace s) = [] /\
  delivered (trace s) = 0%nat /\ written_out (trace s) = 0%nat.
Proof.
  intros H. unfold untouched in H. repeat split.
  - apply (of_kind_mapped setup_kind); [reflexivity|exact H].
  - apply (of_kind_unmapped setup_kind); [reflexivity|exact H].
  - apply (of_kind_traffic setup_kind); [reflexivity..|exact H].
  - apply (of_kind_delivered setup_kind); [reflexivity|exact H].
  - apply (of_kind_written_out setup_kind); [reflexivity|exact H].
Qed.

Lemma init_mmap_stage :
  hoare untouched init_mmap (fun _ => mapped_only) (fun h _ => clean h).
Proof.
  intros s Hs. destruct (untouched_counts s Hs) as (Hm0 & _).
  pose proof (init_mmap_recorded s Hm0) as Hrec.
  destruct (init_mmap_spec s) as (count & Hrange & Hspec).
  destruct (init_mmap_emits (of_kind map_kind) ltac:(auto with emits) ltac:(auto with emits)
              ltac:(auto with emits) ltac:(auto with emits) ltac:(auto with emits) s)
    as (new & Htr & Hnew).
  destruct (init_mmap s) as [[] s'|h s'] eqn:E; cbn [final_state] in *.
  - destruct Hspec as (H2 & Hn & Hlen & _). destruct Hrec as [_ Hrec].
    split; [split; [|split]|].
    + split; [lia|rewrite Hlen, Hn; reflexivity].
    + lia.
    + rewrite take_ge in Hrec by lia. exact Hrec.
    + rewrite Htr, forallb_app, Hnew. cbn [andb].
      apply (of_kind_weaken setup_kind); [|exact Hs]. intros k Hk. unfold map_kind.
      destruct k; try exact Hk; reflexivity.
  - exact (init_mmap_cleanly _ _ _ E).
Qed.

Ltac setup_step :=
  apply (hoare_bind untouched _ _ (fun _ => untouched));
  [apply (hoare_stable (fun _ => tt) setup_kind);
   [exact untouched_stable|emits_tac|apply preserves_const|cleanly_tac]|].

Lemma init_device_stage :
  hoare untouched init_device (fun _ => mapped_only) (fun h _ => clean h).
Proof.
  unfold init_device. cbv zeta.
  setup_step. intros g. setup_step. intros [r a].
  setup_step. intros _. setup_step. intros _. setup_step. intros _.
  setup_step. intros [r' a']. setup_step. intros _. setup_step. intros _.
  exact init_mmap_stage.
Qed.

Lemma start_capturing_stage s0 :
  hoare (fun s => s = s0 /\ mapped_only s) start_capturing
    (fun _ => streaming (trace s0)) guard.
Proof.
  intros s [-> [Hp Hk]]. pose proof Hp as (Hpool & H2 & Hrec).
  assert (Htr0 : traffic (trace s0) = [])
    by (apply (of_kind_traffic map_kind); [reflexivity..|exact Hk]).
  assert (Hal0 : always_partitioned (n_buffers (glob s0)) (trace s0) (trace s0)).
  { apply always_refl. unfold owners_after. rewrite Htr0. cbn [foldl].
    pose proof (partitioned_split (n_buffers (glob s0)) 0 ltac:(lia)) as H.
    rewrite pool_zero in H.
    replace (pool (n_buffers (glob s0)) ∖ ∅) with (pool (n_buffers (glob s0))) in H
      by set_solver.
    exact H. }
  pose proof (start_capturing_kept s0 (trace s0) Hpool Htr0 Hal0) as Hkept.
  pose proof (start_capturing_preserves (fun g => g) s0) as Hg. cbv beta in Hg.
  destruct (start_capturing_emits (of_kind start_kind) ltac:(auto with emits)
              ltac:(auto with emits) ltac:(auto with emits) s0) as (q & Htr & Hq).
  destruct (start_capturing s0) as [[] s'|h s']; cbn [final_state] in *.
  - destruct Hkept as (_ & Hst & Hal). unfold streaming. rewrite Hg.
    split; [|split; [|split; assumption]].
    + apply (pooled_extend s0 s' q Hp); [rewrite Hg; reflexivity..|exact Htr|].
      apply (of_kind_mapped start_kind); [reflexivity|exact Hq].
    + rewrite Htr, forallb_app. apply andb_true_intro. split.
      * apply (of_kind_weaken start_kind); [|exact Hq]. intros k Hk'.
        destruct k as [| | | | |[]| | | | | | | | |]; try exact Hk'; reflexivity.
      * apply (of_kind_weaken map_kind); [|exact Hk]. intros k Hk'.
        destruct k as [| | | | |[]| | | | | | | | |]; try exact Hk'; reflexivity.
  - unfold guard. rewrite Hg. apply Hkept.
Qed.

Lemma mainloop_stage base :
  hoare (streaming base) mainloop (fun _ => captured) guard.
Proof.
  intros s (Hp & Hk & Hst & Hal). pose proof Hp as (Hpool & H2 & Hrec).
  pose proof (mainloop_kept s base Hpool Hst Hal) as Hkept.
  pose proof (mainloop_preserves (fun g => g) s) as Hg. cbv beta in Hg.
  pose proof (mainloop_tally s) as Htally.
  destruct (mainloop_emits (of_kind loop_kind) ltac:(auto with emits) ltac:(auto with emits)
              ltac:(auto with emits) ltac:(auto with emits) ltac:(auto with emits)
              ltac:(auto with emits) ltac:(auto with emits) s) as (q & Htr & Hq).
  destruct (mainloop s) as [[] s'|h s']; cbn [final_state] in *.
  - destruct Htally as (_ & new & Htr' & Hd & Hw).
    assert (new = q) as -> by (apply (app_inv_tail (trace s)); congruence).
    assert (Hd0 : delivered (trace s) = 0%nat)
      by (apply (of_kind_delivered queue_kind); [reflexivity|exact Hk]).
    assert (Hw0 : written_out (trace s) = 0%nat)
      by (apply (of_kind_written_out queue_kind); [reflexivity|exact Hk]).
    split; [|split].
    + apply (pooled_extend s s' q Hp); [rewrite Hg; reflexivity..|exact Htr|].
      apply (of_kind_mapped loop_kind); [reflexivity|exact Hq].
    + rewrite Htr, unmapped_app, (of_kind_unmapped loop_kind),
        (of_kind_unmapped queue_kind) by (reflexivity || assumption).
      reflexivity.
    + unfold counted. rewrite Hg, Htr, delivered_app, written_out_app, Hd0, Hw0, !Nat.add_0_r.
      split; [lia|exact Hw].
  - unfold guard. rewrite Hg. apply Hkept.
Qed.

Lemma unmapped_munmap addr l r t :
  unmapped (Call (call_munmap addr l) r :: t) = addr :: unmapped t.
Proof. reflexivity. Qed.

(** Whatever the answers, uninit_device stays inside the array, and when
    it returns it has unmapped every buffer of the pool, in index order. *)
Lemma uninit_device_spec s :
  pool_ok (glob s) ->
  match uninit_device s with
  | Ret _ s' =>
      glob s' = glob s /\
      exists new, trace s' = new ++ trace s /\
        unmapped new = rev (map start (buffers_mem (glob s)))
  | Halt h _ => clean h
  end.
Proof.
  intros [Hn Hlen]. unfold uninit_device. unfold bind at 1.
  assert (Hloop : match loop munmap_body 0 s with
                  | Ret _ s' =>
                      glob s' = glob s /\
                      exists new, trace s' = new ++ trace s /\
                        unmapped new = rev (map start (buffers_mem (glob s)))
                  | Halt h _ => clean h
                  end).
  { apply (loop_invariant munmap_body
             (fun i s' => glob s' = glob s /\ 0 <= i <= n_buffers (glob s) /\
                exists new, trace s' = new ++ trace s /\
                  unmapped new = rev (map start (take (Z.to_nat i) (buffers_mem (glob s)))))
             (fun r => match r with
                       | Ret _ s' =>
                           glob s' = glob s /\
                           exists new, trace s' = new ++ trace s /\
                             unmapped new = rev (map start (buffers_mem (glob s)))
                       | Halt h _ => clean h
                       end)); [auto with progress| |].
    2:{ split; [reflexivity|]. split; [lia|]. exists []. split; reflexivity. }
    intros i s' (Hg & Hi & new & Htr & Hun).
    unfold munmap_body. unfold bind at 1, get_glob. rewrite Hg.
    destruct (i <? n_buffers (glob s)) eqn:Ei.
    2:{ unfold break, ret. apply Z.ltb_ge in Ei. split; [exact Hg|]. exists new.
        split; [exact Htr|]. rewrite take_ge in Hun by lia. exact Hun. }
    apply Z.ltb_lt in Ei.
    assert (Hlook : exists b, buffers_mem (glob s) !! Z.to_nat i = Some b)
      by (apply lookup_lt_is_Some; lia).
    destruct Hlook as [b Hb].
    unfold bind at 1, load_buffer. unfold bind at 1, get_glob. rewrite Hg.
    replace (0 <=? i) with true by (symmetry; apply Z.leb_le; lia). rewrite Hb.
    unfold ret at 1. unfold bind at 1, sys.
    destruct (script s') as [|r rest]; [apply clean_blocked|].
    destruct (r_ret r =? -1).
    - unfold errno_exit. run. apply clean_exited.
    - unfold bind at 1, ret at 1. unfold continue, ret. cbn [glob answered trace].
      rewrite to_uint_small by lia. split; [exact Hg|]. split; [lia|].
      exists (Call (call_munmap (start b) (len b)) r :: new).
      rewrite Htr. split; [reflexivity|].
      rewrite unmapped_munmap, Hun.
      replace (Z.to_nat (i + 1)) with (S (Z.to_nat i)) by lia.
      rewrite (take_S_r _ _ _ Hb), map_app, rev_app_distr. reflexivity. }
  destruct (loop munmap_body 0 s) as [[] s1|h s1]; [|exact Hloop].
  destruct Hloop as (Hg & new & Htr & Hun). unfold bind, get_glob, emit. cbn [glob log trace].
  split; [exact Hg|]. exists (Free (buffers (glob s1)) :: new). rewrite Htr.
  split; [reflexivity|exact Hun].
Qed.

Lemma uninit_device_stage :
  hoare captured uninit_device (fun _ => released) (fun h _ => clean h).
Proof.
  intros s (Hp & Hu & Hc). pose proof Hp as (Hpool & H2 & Hrec).
  pose proof (uninit_device_spec s Hpool) as Hspec.
  destruct (uninit_device_emits (of_kind unmap_kind) ltac:(auto with emits)
              ltac:(auto with emits) ltac:(auto with emits) s) as (q & Htr & Hq).
  destruct (uninit_device s) as [[] s'|h s']; cbn [final_state] in *; [|exact Hspec].
  destruct Hspec as (Hg & new & Htr' & Hun).
  assert (new = q) as -> by (apply (app_inv_tail (trace s)); congruence).
  assert (Hm : mapped q = []) by (apply (of_kind_mapped unmap_kind); [reflexivity|exact Hq]).
  split; [|split].
  - apply (pooled_extend s s' q Hp); [rewrite Hg; reflexivity..|exact Htr|exact Hm].
  - rewrite Htr, unmapped_app, mapped_app, Hu, Hm, Hun, Hrec, rev_involutive, app_nil_r.
    reflexivity.
  - apply (counted_extend s s' q Hc); [rewrite Hg; reflexivity..|exact Htr| |].
    + apply (of_kind_delivered unmap_kind); [reflexivity|exact Hq].
    + apply (of_kind_written_out unmap_kind); [reflexivity|exact Hq].
Qed.

Lemma close_device_fd s s' : close_device s = Ret tt s' -> fd (glob s') = -1.
Proof.
  unfold close_device. run. unfold sys. destruct (script s) as [|r rest]; [discriminate|].
  run. destruct (r_ret r =? -1); [unfold errno_exit; run; discriminate|].
  intros [= <-]. reflexivity.
Qed.

Lemma close_device_stage :
  hoare released close_device (fun _ s' => released s' /\ fd (glob s') = -1)
    (fun h _ => clean h).
Proof.
  apply (hoare_and _ _ _ _ _ (fun _ _ => True)).
  - apply (hoare_stable (set_fd 0) setup_kind); [exact released_stable| |
      apply close_device_preserves; reflexivity|exact close_device_cleanly].
    apply close_device_emits; auto with emits.
  - intros s _. destruct (close_device s) as [[] s'|h s'] eqn:E; [|exact I].
    exact (close_device_fd _ _ E).
Qed.

(** main, stage by stage. *)
Lemma main_stages argv :
  hoare (fun s => trace s = []) (main argv)
    (fun v s' => v = 0 /\ released s' /\ fd (glob s') = -1) guard.
Proof.
  apply (hoare_conseq untouched _ (fun v s' => v = 0 /\ released s' /\ fd (glob s') = -1) _
           guard guard); [intros s H; unfold untouched; rewrite H; reflexivity|auto..|].
  unfold main.
  assert (Hclean : forall {A} P (m : M A) Q,
            hoare P m Q (fun h _ => clean h) -> hoare P m Q guard).
  { intros A P m Q H. apply (hoare_conseq P _ Q _ (fun h _ => clean h)); auto.
    intros h s. apply clean_guard. }
  apply (hoare_bind _ _ _ (fun _ => untouched)).
  { apply Hclean, (hoare_stable (fun _ => tt) setup_kind);
      [exact untouched_stable|emits_tac|apply preserves_const|cleanly_tac]. }
  intros _. apply (hoare_bind _ _ _ (fun _ => untouched)).
  { apply Hclean, (hoare_stable (fun _ => tt) setup_kind);
      [exact untouched_stable| |apply preserves_const|apply parse_options_cleanly].
    apply parse_options_emits; auto with emits. }
  intros _. apply (hoare_bind _ _ _ (fun _ => untouched)).
  { apply Hclean, (hoare_stable (fun _ => tt) setup_kind);
      [exact untouched_stable| |apply preserves_const|apply open_device_cleanly].
    apply open_device_emits; auto with emits. }
  intros _. apply (hoare_bind _ _ _ (fun _ => mapped_only)).
  { apply Hclean, init_device_stage. }
  intros _. apply hoare_ghost. intros s0.
  apply (hoare_bind _ _ _ (fun _ => streaming (trace s0))).
  { apply start_capturing_stage. }
  intros _. apply (hoare_bind _ _ _ (fun _ => captured)).
  { apply mainloop_stage. }
  intros _. apply (hoare_bind _ _ _ (fun _ => captured)).
  { apply Hclean, (hoare_stable (fun g => g) setup_kind);
      [exact captured_stable| |apply stop_capturing_preserves|apply stop_capturing_cleanly].
    apply stop_capturing_emits; auto with emits. }
  intros _. apply (hoare_bind _ _ _ (fun _ => released)).
  { apply Hclean, uninit_device_stage. }
  intros _. apply (hoare_bind _ _ _ (fun _ s' => released s' /\ fd (glob s') = -1)).
  { apply Hclean, close_device_stage. }
  intros _ s [Hr Hfd]. unfold bind, emit, ret. split; [reflexivity|]. split; [|exact Hfd].
  apply (released_stable s _ [Fprintf stderr "\n" []] Hr); reflexivity.
Qed.

(** * The run as a whole *)

(** Whatever the command line and whatever the environment answers, the
    program never reads or writes the array of buffers outside its bounds,
    and the only assertion that can fail is the one of read_frame, right
    after a VIDIOC_DQBUF that succeeded with an index not below n_buffers. *)
Theorem main_stays_in_bounds (argv : list string) (answers : list reply) :
  guarded (n_buffers (glob (final_state (main argv (initial_state answers)))))
    (main argv (initial_state answers)).
Proof.
  pose proof (main_stages argv (initial_state answers) eq_refl) as H.
  destruct (main argv (initial_state answers)) as [v s'|h s']; [exact I|exact H].
Qed.

Lemma all_released_same tr : unmapped tr = mapped tr -> all_released tr = true.
Proof.
  intros H. unfold all_released. rewrite H. apply forallb_forall. intros a Ha.
  apply existsb_exists. exists a. split; [exact Ha|apply Z.eqb_refl].
Qed.

(** Whatever the command line and whatever the environment answers, main
    returns only at the end of a complete run: it returns 0, as many
    frames were delivered as frame_count asks for (each written to stdout
    if -o was given and none otherwise), the pool had at least two buffers,
    every mapping made was released by a munmap, in the order the mappings
    were made, and the device was closed (fd is -1). *)
Theorem main_returns_after_complete_run (argv : list string) (answers : list reply)
    (v : Z) (s' : state) :
  main argv (initial_state answers) = Ret v s' ->
  v = 0 /\ fd (glob s') = -1 /\
  Z.of_nat (delivered (trace s')) = to_uint (frame_count (glob s')) /\
  written_out (trace s') = (if out_buf (glob s') =? 0 then 0%nat else delivered (trace s')) /\
  2 <= n_buffers (glob s') /\
  rev (mapped (trace s')) = map start (buffers_mem (glob s')) /\
  unmapped (trace s') = mapped (trace s') /\
  all_released (trace s') = true.
Proof.
  intros E. pose proof (main_stages argv (initial_state answers) eq_refl) as H.
  rewrite E in H. destruct H as (Hv & ((_ & H2 & Hrec) & Hun & Hd & Hw) & Hfd).
  repeat split; try assumption; [symmetry; exact Hrec|apply all_released_same, Hun].
Qed.

Lemma main_returns_after_complete_run_witness :
  exists s',
    main ["capture"; "-c"; "2"] complete_run = Ret 0 s' /\
    delivered (trace s') = 2%nat /\
    mapped (trace s') = [618496; 4096] /\ unmapped (trace s') = [618496; 4096] /\
    script s' = [].
Proof.
  assert (Hrun : exists s', main ["capture"; "-c"; "2"] complete_run = Ret 0 s' /\
                   script s' = [] /\ frame_count (glob s') = 2 /\
                   map start (buffers_mem (glob s')) = [4096; 618496]).
  { eexists. vm_compute. repeat split. }
  destruct Hrun as (s' & Hrun & Hsc & Hfc & Hmem).
  destruct (main_returns_after_complete_run ["capture"; "-c"; "2"] _ 0 s' Hrun)
    as (_ & _ & Hd & _ & _ & Hrec & Hun & _).
  exists s'. split; [exact Hrun|]. rewrite Hfc in Hd. rewrite Hmem in Hrec.
  assert (Hm : mapped (trace s') = [618496; 4096]).
  { rewrite <- (rev_involutive (mapped (trace s'))), Hrec. reflexivity. }
  split; [change (to_uint 2) with 2 in Hd; lia|]. split; [exact Hm|].
  split; [rewrite Hun; exact Hm|exact Hsc].
Defined.

(** * A cooperative environment *)












(** * Reserving buffers *)

(** When VIDIOC_REQBUFS fails, the process exits with status 1 before
    anything is allocated: with EINVAL the message says that the device
    does not support memory mapping, with any other error it is that of
    errno_exit. *)
Theorem reqbufs_failure_exits (r : reply) (rest : list reply) (s : state) :
  script s = r :: rest -> r_ret r = -1 -> r_errno r <> 0 -> r_errno r <> EINTR ->
  init_mmap s
  = Halt (exited EXIT_FAILURE)
      (log (reqbufs_message (glob s) (r_errno r)) (answered (reqbufs_call (glob s)) r rest s)).
Proof.
  intros Hs Hr H0 Hi. unfold init_mmap. unfold bind at 1, get_glob. cbv zeta.
  change {| req_count := 4; req_type := V4L2_BUF_TYPE_VIDEO_CAPTURE;
            req_memory := V4L2_MEMORY_MMAP |} with four_buffers.
  rewrite (bind_ret _ _ _ _ _ (xioctl_settled _ _ _ r rest s Hs
                                 ltac:(right; split; assumption))).
  cbv beta iota. rewrite Hr. change (-1 =? -1) with true. cbv iota.
  unfold bind at 1. unfold bind at 1, get_errno. fold (reqbufs_call (glob s)).
  cbn [errno answered]. apply Z.eqb_neq in H0. rewrite H0. unfold reqbufs_message.
  destruct (r_errno r =? EINVAL); [|unfold errno_exit]; run; rewrite ?H0; reflexivity.
Qed.

Lemma reqbufs_failure_exits_witness :
  init_mmap (session 1 [fails EINVAL; ok 0])
  = Halt (exited 1)
      {| glob := glob (session 1 []); errno := EINVAL; script := [ok 0];
         trace := [Fprintf stderr "%s does not support memory mapping\n"
                     [fmt_s "/dev/video0"];
                   Call (call_ioctl 3 VIDIOC_REQBUFS (arg_requestbuffers four_buffers))
                     (fails EINVAL)] |}.
Proof.
  rewrite (reqbufs_failure_exits (fails EINVAL) [ok 0] (session 1 [fails EINVAL; ok 0]));
    [reflexivity|reflexivity|reflexivity|discriminate|discriminate].
Defined.

(** When calloc returns NULL, the process prints "Out of memory" and
    exits with status 1; calloc was asked for as many entries as the device
    granted, and nothing is queried or mapped. *)
Theorem calloc_failure_exits (g : Z) (rest : list reply) (s : state) :
  2 <= g < 2 ^ 32 -> script s = granted g :: ok NULL :: rest ->
  exists s',
    init_mmap s = Halt (exited EXIT_FAILURE) s' /\
    script s' = rest /\ buffers (glob s') = NULL /\ buffers_mem (glob s') = [] /\
    trace s' = Fprintf stderr "Out of memory\n" []
               :: Call (call_calloc g sizeof_buffer) (ok NULL)
               :: Call (reqbufs_call (glob s)) (granted g) :: trace s.
Proof.
  intros Hg Hs. unfold init_mmap. unfold bind at 1, get_glob. cbv zeta.
  change {| req_count := 4; req_type := V4L2_BUF_TYPE_VIDEO_CAPTURE;
            req_memory := V4L2_MEMORY_MMAP |} with four_buffers.
  rewrite (bind_ret _ _ _ _ _ (xioctl_success _ _ _ _ _ _ Hs ltac:(discriminate))).
  assert (Hcount : req_count (the_requestbuffers
                     (written (granted g) (arg_requestbuffers four_buffers)) four_buffers) = g).
  { cbn. apply to_uint_small. lia. }
  rewrite Hcount. cbn [Z.eqb r_ret granted ok_with]. unfold bind at 1, ret at 1.
  replace (g <? 2) with false by (symmetry; apply Z.ltb_ge; lia).
  unfold bind at 1, ret at 1.
  set (s1 := answered _ _ _ s).
  rewrite (bind_ret _ _ _ _ _ (sys_answer _ _ _ s1 eq_refl)).
  cbn [r_ret ok]. change (NULL =? NULL) with true. cbv iota. run.
  eexists. split; [reflexivity|]. repeat split.
Qed.

Lemma calloc_failure_exits_witness :
  exists s',
    init_mmap (session 1 [granted 3; ok NULL; ok 0]) = Halt (exited 1) s' /\
    script s' = [ok 0] /\
    trace s' = [Fprintf stderr "Out of memory\n" [];
                Call (call_calloc 3 sizeof_buffer) (ok NULL);
                Call (call_ioctl 3 VIDIOC_REQBUFS (arg_requestbuffers four_buffers))
                  (granted 3)].
Proof.
  destruct (calloc_failure_exits 3 [ok 0] (session 1 [granted 3; ok NULL; ok 0]))
    as (s' & Hrun & Hsc & _ & _ & Htr); [lia|reflexivity|].
  exists s'. split; [exact Hrun|]. split; [exact Hsc|]. rewrite Htr. reflexivity.
Defined.

(** Whatever the environment answers, when init_mmap returns the pool is
    in place: n_buffers is at least 2 and is the number of entries of the
    array, and the entries hold the addresses that the calls of mmap
    returned, in the order of the calls, none of them MAP_FAILED. *)
Theorem init_mmap_returns_with_pool (s s' : state) :
  trace s = [] -> init_mmap s = Ret tt s' ->
  pool_ok (glob s') /\ 2 <= n_buffers (glob s') /\
  map start (buffers_mem (glob s')) = rev (mapped (trace s')) /\
  Forall (fun b => start b <> MAP_FAILED) (buffers_mem (glob s')).
Proof.
  intros Htr E. pose proof (init_mmap_stage s) as H. rewrite E in H.
  destruct H as [(Hpool & H2 & Hrec) _]; [unfold untouched; rewrite Htr; reflexivity|].
  split; [exact Hpool|]. split; [exact H2|]. split; [exact Hrec|].
  apply Forall_forall. intros b Hb.
  assert (Hin : start b ∈ mapped (trace s')).
  { apply list_elem_of_In, in_rev. rewrite <- Hrec. apply in_map, list_elem_of_In, Hb. }
  clear -Hin. unfold mapped in Hin. apply list_elem_of_omap in Hin as (e & _ & He).
  destruct e as [[] r| | | |]; try discriminate.
  destruct (r_ret r =? MAP_FAILED) eqn:Er; [discriminate|]. injection He as <-.
  apply Z.eqb_neq, Er.
Qed.

Lemma init_mmap_returns_with_pool_witness :
  exists s',
    init_mmap scenario_A = Ret tt s' /\
    n_buffers (glob s') = 3 /\
    map start (buffers_mem (glob s')) = rev (mapped (trace s')).
Proof.
  assert (Hrun : exists s', init_mmap scenario_A = Ret tt s' /\ n_buffers (glob s') = 3).
  { eexists. vm_compute. split; reflexivity. }
  destruct Hrun as (s' & Hrun & Hn). exists s'. split; [exact Hrun|]. split; [exact Hn|].
  destruct (init_mmap_returns_with_pool scenario_A s' eq_refl Hrun) as (_ & _ & Hrec & _).
  exact Hrec.
Defined.
